(** * pusher.go: the channel engine and the pusher's garbage collector

    A shallow embedding of the Go package [pusher] (channel.go, pusher.go and
    the declarations of its configuration file).  Message objects and
    wait-slots are heap objects that the Go code reaches through pointers, so
    the embedding threads an explicit store: operations are computations in a
    state-and-failure monad over that store, and a run-time panic of the Go
    program is the failing computation. *)

From stdpp Require Import base numbers option list gmap strings fin_maps sorting.

Open Scope Z_scope.

(** ** Machine integers

    The package predates Go 1: [int] is 32 bits wide, [int64] is 64 bits
    wide, and arithmetic wraps around in two's complement. *)

Definition wrap (w : Z) (x : Z) : Z := (x + 2 ^ (w - 1)) `mod` 2 ^ w - 2 ^ (w - 1).
Definition int (x : Z) : Z := wrap 32 x.
Definition int64 (x : Z) : Z := wrap 64 x.

#[global] Arguments wrap : simpl never.
#[global] Arguments int : simpl never.
#[global] Arguments int64 : simpl never.

Definition max_int : Z := 2 ^ 31 - 1.
Definition max_int64 : Z := 2 ^ 63 - 1.

(** ** Declarations: constants, Configuration, Message, Stats *)

Definition ConcurrencyModeBroadcast : Z := 0.
Definition ConcurrencyModeFILO : Z := 1.
Definition ConcurrencyModeLIFO : Z := 2.

Definition PollingMechanismLong : Z := 0.
Definition PollingMechanismInterval : Z := 1.

Definition StatusOK : Z := 200.
Definition StatusConflict : Z := 409.
Definition StatusGone : Z := 410.

(** The field [ContentType] of the Go struct [Configuration] is named
    [cfgContentType] here: [Message] has a field of the same name. *)
Record Configuration := {
  AllowChannelCreation : bool;
  ChannelCapacity : Z;
  ConcurrencyMode : Z;
  cfgContentType : string;
  GCInterval : Z;
  MaxChannels : Z;
  MaxChannelIdleTime : Z;
  PollingMechanism : Z;
  PollingTimeout : Z
}.

Definition DefaultConfiguration : Configuration := {|
  AllowChannelCreation := false;
  ChannelCapacity := 20;
  ConcurrencyMode := 0;
  cfgContentType := "";
  GCInterval := 60 * 10 ^ 9;
  MaxChannels := 0;
  MaxChannelIdleTime := 600 * 10 ^ 9;
  PollingMechanism := 0;
  PollingTimeout := 20 * 10 ^ 9
|}.

(** A [[]byte] payload is [None] when the slice is nil. *)
Record Message := {
  ContentType : string;
  Payload : option (list Byte.byte);
  Status : Z;
  etag : Z;
  time : Z
}.

Definition set_time (t : Z) (m : Message) : Message :=
  {| ContentType := ContentType m; Payload := Payload m; Status := Status m;
     etag := etag m; time := t |}.

Definition set_etag (e : Z) (m : Message) : Message :=
  {| ContentType := ContentType m; Payload := Payload m; Status := Status m;
     etag := e; time := time m |}.

Record Stats := {
  Created : Z;
  Delivered : Z;
  LastPublished : Z;
  LastRequested : Z;
  Published : Z;
  Subscribers : Z;
  Queued : Z
}.

Definition set_Delivered (v : Z) (s : Stats) : Stats :=
  {| Created := Created s; Delivered := v; LastPublished := LastPublished s;
     LastRequested := LastRequested s; Published := Published s;
     Subscribers := Subscribers s; Queued := Queued s |}.

Definition set_LastPublished (v : Z) (s : Stats) : Stats :=
  {| Created := Created s; Delivered := Delivered s; LastPublished := v;
     LastRequested := LastRequested s; Published := Published s;
     Subscribers := Subscribers s; Queued := Queued s |}.

Definition set_LastRequested (v : Z) (s : Stats) : Stats :=
  {| Created := Created s; Delivered := Delivered s; LastPublished := LastPublished s;
     LastRequested := v; Published := Published s;
     Subscribers := Subscribers s; Queued := Queued s |}.

Definition set_Published (v : Z) (s : Stats) : Stats :=
  {| Created := Created s; Delivered := Delivered s; LastPublished := LastPublished s;
     LastRequested := LastRequested s; Published := v;
     Subscribers := Subscribers s; Queued := Queued s |}.

Definition set_Subscribers (v : Z) (s : Stats) : Stats :=
  {| Created := Created s; Delivered := Delivered s; LastPublished := LastPublished s;
     LastRequested := LastRequested s; Published := Published s;
     Subscribers := v; Queued := Queued s |}.

Definition set_Queued (v : Z) (s : Stats) : Stats :=
  {| Created := Created s; Delivered := Delivered s; LastPublished := LastPublished s;
     LastRequested := LastRequested s; Published := Published s;
     Subscribers := Subscribers s; Queued := v |}.

(** ** The store

    A [*Message] is an address in [heap]; a [chan *Message] of capacity zero
    (a wait-slot) is an address in [chans].  A slot records whether the
    subscriber's handler is blocked in its receive ([waiting]), the message
    handed over to it, and whether the slot has been closed.  [clock] lists
    the successive readings of the system clock in nanoseconds and [ticks]
    counts the readings taken so far. *)

Record Slot := {
  waiting : bool;
  received : option positive;
  closed : bool
}.

Record World := {
  heap : gmap positive Message;
  chans : gmap positive Slot;
  clock : nat → Z;
  ticks : nat
}.

Definition with_heap (h : gmap positive Message) (w : World) : World :=
  {| heap := h; chans := chans w; clock := clock w; ticks := ticks w |}.

Definition with_chans (s : gmap positive Slot) (w : World) : World :=
  {| heap := heap w; chans := s; clock := clock w; ticks := ticks w |}.

Definition with_ticks (n : nat) (w : World) : World :=
  {| heap := heap w; chans := chans w; clock := clock w; ticks := n |}.

(** The package-level variables [conflictMessage] and [goneMessage] are two
    fixed addresses; [init_heap] is the heap at program start. *)
Definition conflictMessage : positive := 1%positive.
Definition goneMessage : positive := 2%positive.

Definition init_heap : gmap positive Message :=
  <[conflictMessage := {| ContentType := ""; Payload := None; Status := StatusConflict;
                          etag := 0; time := 0 |}]>
  (<[goneMessage := {| ContentType := ""; Payload := None; Status := StatusGone;
                       etag := 0; time := 0 |}]> ∅).

Definition init_world (clk : nat → Z) : World :=
  {| heap := init_heap; chans := ∅; clock := clk; ticks := 0 |}.

(** ** The monad: state passing over [World], [None] is a panic *)

Definition M (A : Type) : Type := World → option (A * World).

#[global] Instance M_ret : MRet M := λ A (a : A) w, Some (a, w).
#[global] Instance M_bind : MBind M := λ A B (f : A → M B) (m : M A) w,
  match m w with
  | Some (a, w') => f a w'
  | None => None
  end.

Definition panic {A : Type} : M A := λ _, None.

(** [time.Nanoseconds()] and [time.Seconds()]: one reading of the clock. *)
Definition time_Nanoseconds : M Z :=
  λ w, Some (clock w (ticks w), with_ticks (S (ticks w)) w).

Definition time_Seconds : M Z :=
  λ w, Some (clock w (ticks w) `div` 10 ^ 9, with_ticks (S (ticks w)) w).

(** Reading and writing through a [*Message]; a nil or dangling pointer
    panics. *)
Definition load (p : positive) : M Message :=
  λ w, match heap w !! p with
       | Some m => Some (m, w)
       | None => None
       end.

Definition store (p : positive) (m : Message) : M unit :=
  λ w, match heap w !! p with
       | Some _ => Some ((), with_heap (<[p := m]> (heap w)) w)
       | None => None
       end.

(** [&Message{...}]: a fresh object. *)
Definition new_Message (m : Message) : M positive :=
  λ w, let p := fresh (dom (heap w)) in
       Some (p, with_heap (<[p := m]> (heap w)) w).

(** [make(chan *Message, 0)]. *)
Definition make_chan : M positive :=
  λ w, let s := fresh (dom (chans w)) in
       Some (s, with_chans (<[s := {| waiting := false; received := None;
                                      closed := false |}]> (chans w)) w).

(** [select { case client <- m: ...; default: }] on an unbuffered channel:
    the send goes through exactly when a receiver is blocked on the channel;
    sending on a closed channel panics. *)
Definition try_send (client m : positive) : M bool :=
  λ w, match chans w !! client with
       | Some sl =>
           if closed sl then None
           else if waiting sl then
             Some (true, with_chans (<[client := {| waiting := false; received := Some m;
                                                    closed := false |}]> (chans w)) w)
           else Some (false, w)
       | None => None
       end.

(** [close(client)]; closing a closed channel panics. *)
Definition close (client : positive) : M unit :=
  λ w, match chans w !! client with
       | Some sl =>
           if closed sl then None
           else Some ((), with_chans (<[client := {| waiting := waiting sl;
                                                     received := received sl;
                                                     closed := true |}]> (chans w)) w)
       | None => None
       end.

(** The subscriber's handler reaches [<-sub.Value.(chan *Message)]: on an
    open slot it blocks; on a closed slot the receive returns at once. *)
Definition await (client : positive) : M unit :=
  λ w, match chans w !! client with
       | Some sl =>
           if closed sl then Some ((), w)
           else Some ((), with_chans (<[client := {| waiting := true;
                                                     received := received sl;
                                                     closed := false |}]> (chans w)) w)
       | None => None
       end.

(** ** channel.go *)

(** The Go field [id] is named [chan_id] here.  [subscribers] lists the
    wait-slots front to back; [queue] holds the messages, newest first.  The
    lock is left out: every operation below runs under it from start to
    end. *)
Record channel := {
  subscribers : list positive;
  config : Configuration;
  lastMessage : option positive;
  stats : Stats;
  chan_id : string;
  queue : list positive
}.

Definition with_subscribers (l : list positive) (c : channel) : channel :=
  {| subscribers := l; config := config c; lastMessage := lastMessage c;
     stats := stats c; chan_id := chan_id c; queue := queue c |}.

Definition with_lastMessage (m : option positive) (c : channel) : channel :=
  {| subscribers := subscribers c; config := config c; lastMessage := m;
     stats := stats c; chan_id := chan_id c; queue := queue c |}.

Definition with_stats (s : Stats) (c : channel) : channel :=
  {| subscribers := subscribers c; config := config c; lastMessage := lastMessage c;
     stats := s; chan_id := chan_id c; queue := queue c |}.

Definition with_queue (q : list positive) (c : channel) : channel :=
  {| subscribers := subscribers c; config := config c; lastMessage := lastMessage c;
     stats := stats c; chan_id := chan_id c; queue := q |}.

Definition newChannel (id : string) (cfg : Configuration) : M channel :=
  now ← time_Seconds;
  mret {| subscribers := []; config := cfg; lastMessage := None;
          stats := {| Created := now; Delivered := 0; LastPublished := 0;
                      LastRequested := 0; Published := 0; Subscribers := 0;
                      Queued := 0 |};
          chan_id := id; queue := [] |}.

Definition stamp (c : channel) : Z :=
  if (LastRequested (stats c) =? 0) && (LastPublished (stats c) =? 0) then
    Created (stats c)
  else if LastRequested (stats c) >? LastPublished (stats c) then
    LastRequested (stats c)
  else LastPublished (stats c).

(** [writeStats], after the negotiation of the Accept header: [subtype] is
    the negotiated subtype, and the result lists the arguments handed to
    [fmt.Fprintf] after the format, in order. *)
Definition writeStats (c : channel) (subtype : string) : M (list Z) :=
  let stats := stats c in
  stats ←
    (if bool_decide (subtype = "plain") then
       stats ←
         (if LastRequested stats >? 0 then
            now ← time_Seconds;
            mret (set_LastRequested (int64 (now - LastRequested stats)) stats)
          else mret (set_LastRequested (-1) stats));
       (if LastPublished stats >? 0 then
          now ← time_Seconds;
          mret (set_LastPublished (int64 (now - LastPublished stats)) stats)
        else mret (set_LastRequested (-1) stats))
     else mret stats);
  mret [Queued stats; LastRequested stats; LastPublished stats;
        Subscribers stats; Published stats; Delivered stats].

(** The loop of [publish] over the subscribers: a non-blocking send to each
    wait-slot, which is closed whether or not the send went through. *)
Fixpoint handoff (subs : list positive) (m : positive) (n : Z) : M Z :=
  match subs with
  | [] => mret n
  | client :: rest =>
      sent ← try_send client m;
      close client;;
      handoff rest m (if sent : bool then int (n + 1) else n)
  end.

(** [vector.Pop] drops the last element, [vector.Insert(0, m)] puts [m] in
    front. *)
Definition vector_Pop (q : list positive) : list positive :=
  take (length q - 1)%nat q.

Definition publish (c : channel) (m : positive) (queue_it : bool) : M (channel * Z) :=
  now ← time_Seconds;
  msg ← load m; store m (set_time now msg);;
  msg ← load m; store m (set_etag 0 msg);;
  match lastMessage c with
  | Some lm =>
      last ← load lm;
      msg ← load m;
      if time last =? time msg then store m (set_etag (int (etag last + 1)) msg)
      else mret ()
  | None => mret ()
  end;;
  let c := with_lastMessage (Some m) c in
  let c := with_stats (set_Published (int64 (Published (stats c) + 1)) (stats c)) c in
  now ← time_Seconds;
  let c := with_stats (set_LastPublished now (stats c)) c in
  n ← handoff (subscribers c) m 0;
  let c := with_subscribers [] c in
  let c := with_stats (set_Subscribers 0 (stats c)) c in
  let c := with_stats (set_Delivered (int64 (Delivered (stats c) + n)) (stats c)) c in
  let c :=
    if queue_it && (ChannelCapacity (config c) >? 0) then
      let c :=
        if Z.of_nat (length (queue c)) >=? ChannelCapacity (config c) then
          with_queue (vector_Pop (queue c)) c
        else with_stats (set_Queued (int (Queued (stats c) + 1)) (stats c)) c in
      with_queue (m :: queue c) c
    else c in
  mret (c, n).

Definition Publish (c : channel) (m : positive) (queue_it : bool) : M (channel * Z) :=
  publish c m queue_it.

Definition PublishString (c : channel) (s : string) (queue_it : bool) : M (channel * Z) :=
  m ← new_Message {| ContentType := "text/plain";
                     Payload := Some ((λ a, Ascii.byte_of_ascii a) <$> String.list_ascii_of_string s);
                     Status := StatusOK; etag := 0; time := 0 |};
  Publish c m queue_it.

(** [list.Remove] unlinks the element when it is in the list; [list.Len]
    returns the list's counter, an [int]. *)
Definition list_Remove (elem : positive) (l : list positive) : list positive :=
  filter (λ e, e ≠ elem) l.

Definition list_Len (l : list positive) : Z := int (Z.of_nat (length l)).

Definition Unsubscribe (c : channel) (elem : positive) : M channel :=
  close elem;;
  let c := with_subscribers (list_Remove elem (subscribers c)) c in
  mret (with_stats (set_Subscribers (list_Len (subscribers c)) (stats c)) c).

(** The history loop of [Subscribe]: [i] counts the indices still to visit,
    so the message looked at is [q[i-1]], from the back of the vector (the
    oldest message) to its front. *)
Fixpoint history (q : list positive) (i : nat) (since etg : Z) : M (option positive) :=
  match i with
  | O => mret None
  | S i' =>
      match q !! i' with
      | None => panic
      | Some p =>
          m ← load p;
          if time m >=? since then
            if (time m =? since) && (etag m <=? etg) then history q i' since etg
            else mret (Some p)
          else history q i' since etg
      end
  end.

(** [Subscribe] from the history loop on. *)
Definition Subscribe_lookup (c : channel) (since etg : Z)
  : M (channel * (option positive * option positive)) :=
  hit ← history (queue c) (length (queue c)) since etg;
  match hit with
  | Some m =>
      mret (with_stats (set_Delivered (int64 (Delivered (stats c) + 1)) (stats c)) c,
            (None, Some m))
  | None =>
      if PollingMechanism (config c) =? PollingMechanismInterval then
        mret (c, (None, None))
      else
        ch ← make_chan;
        let c := with_subscribers (subscribers c ++ [ch]) c in
        mret (with_stats (set_Subscribers (int (Subscribers (stats c) + 1)) (stats c)) c,
              (Some ch, None))
  end.

(** [Subscribe], returning besides its two results a ghost value that the
    Go code does not have: [None] when it returns at the FILO test, otherwise
    the number of wait-slots that took the Conflict message of LIFO mode (the
    result of [publish], which the Go code drops).  The accounting of
    [stats.Delivered] below needs it. *)
Definition Subscribe_counted (c : channel) (since etg : Z)
  : M (channel * option Z * (option positive * option positive)) :=
  now ← time_Seconds;
  let c := with_stats (set_LastRequested now (stats c)) c in
  if ConcurrencyMode (config c) =? ConcurrencyModeLIFO then
    '(c, n) ← publish c conflictMessage false;
    '(c, r) ← Subscribe_lookup c since etg;
    mret (c, Some n, r)
  else if (ConcurrencyMode (config c) =? ConcurrencyModeFILO)
          && (Subscribers (stats c) >? 0) then
    mret (c, None, (None, Some conflictMessage))
  else
    '(c, r) ← Subscribe_lookup c since etg;
    mret (c, Some 0, r).

Definition Subscribe (c : channel) (since etg : Z)
  : M (channel * (option positive * option positive)) :=
  '(c, _, r) ← Subscribe_counted c since etg;
  mret (c, r).

(** ** pusher.go *)

(** The Go field [config] of [pusher] is named [pconfig] here; the channels
    hold a pointer to it, which the embedding renders as a copy, since
    nothing writes to it after [New]. *)
Record pusher := {
  channels : gmap string channel;
  pconfig : Configuration
}.

Definition with_channels (m : gmap string channel) (p : pusher) : pusher :=
  {| channels := m; pconfig := pconfig p |}.

Definition Channel (p : pusher) (cid : string) : M (pusher * channel * bool) :=
  match channels p !! cid with
  | Some c => mret (p, c, false)
  | None =>
      c ← newChannel cid (pconfig p);
      mret (with_channels (<[cid := c]> (channels p)) p, c, true)
  end.

(** [channelSlice] and its three methods for [sort.Interface].  An index out
    of range panics ([None]). *)
Definition Len (cs : list channel) : Z := Z.of_nat (length cs).

Definition Less (cs : list channel) (i j : nat) : option bool :=
  ci ← cs !! i; cj ← cs !! j; Some (stamp ci <? stamp cj).

(** [cs[i], cs[j] = cs[i], cs[j]]: both right-hand sides are read, then both
    elements are assigned. *)
Definition Swap (cs : list channel) (i j : nat) : option (list channel) :=
  ci ← cs !! i; cj ← cs !! j; Some (<[j := cj]> (<[i := ci]> cs)).

(** [sort.Sort] belongs to Go's library.  It reaches the data through [Less]
    and [Swap] only; it is rendered by the insertion sort that the library
    runs on short slices. *)
Fixpoint sift (cs : list channel) (j : nat) : option (list channel) :=
  match j with
  | O => Some cs
  | S j' =>
      b ← Less cs j j';
      if b : bool then cs' ← Swap cs j j'; sift cs' j' else Some cs
  end.

Definition sort_Sort (cs : list channel) : option (list channel) :=
  foldl (λ acc i, cs' ← acc; sift cs' i) (Some cs) (seq 1 (length cs - 1)).

(** The eviction loop of [GC]: [rest] is what remains of [sorted] from index
    [i] on. *)
Fixpoint gc_scan (cfg : Configuration) (limit : Z) (sorted rest : list channel) (i : nat)
    (chs : gmap string channel) (count : Z) (gc : list channel)
  : gmap string channel * list channel :=
  match rest with
  | [] => (chs, gc)
  | c :: rest' =>
      if ((MaxChannels cfg =? 0) || (count <=? MaxChannels cfg)) && (stamp c >=? limit)
      then (chs, gc)
      else gc_scan cfg limit sorted rest' (S i) (delete (chan_id c) chs)
                   (int (count - 1)) (take (S i) sorted)
  end.

(** The last loop of [GC]: the Gone message is published on every evicted
    channel. *)
Fixpoint drain (gc : list channel) : M (list channel) :=
  match gc with
  | [] => mret []
  | c :: rest =>
      '(c, _) ← Publish c goneMessage false;
      rest ← drain rest;
      mret (c :: rest)
  end.

(** [GC].  Go does not fix the order in which [range] visits a map:
    [order] is that order, an enumeration of the keys of [p.channels].  The
    result holds the pusher, the evicted channels after their Gone message,
    and the number returned. *)
Definition GC (p : pusher) (order : list string) : M (pusher * list channel * Z) :=
  start ← time_Nanoseconds;
  let limit := Z.quot (int64 (start - MaxChannelIdleTime (pconfig p))) (10 ^ 9) in
  let count := Z.of_nat (size (channels p)) in
  let sorted := omap (λ k, channels p !! k) order in
  match sort_Sort sorted with
  | None => panic
  | Some sorted =>
      let '(chs, gc) := gc_scan (pconfig p) limit sorted sorted 0 (channels p) count [] in
      let p := with_channels chs p in
      gone ← drain gc;
      time_Nanoseconds;;
      mret (p, gone, Z.of_nat (length gc))
  end.



(** ** Runs of one channel

    The operations that callers and handlers apply to one channel, one after
    the other under its lock.  [OpAwait] is the moment at which a subscriber's
    handler starts to wait on the wait-slot that [Subscribe] gave it. *)
Inductive op :=
  | OpPublish (m : positive) (queue_it : bool)
  | OpPublishString (s : string) (queue_it : bool)
  | OpSubscribe (since etg : Z)
  | OpUnsubscribe (elem : positive)
  | OpAwait (elem : positive).

Inductive outcome :=
  | Sent (n : Z)
  | Answered (kicked : Z) (elem : option positive) (message : option positive)
  | Refused
  | Finished.

Definition step (c : channel) (o : op) : M (channel * outcome) :=
  match o with
  | OpPublish m q => '(c, n) ← Publish c m q; mret (c, Sent n)
  | OpPublishString s q => '(c, n) ← PublishString c s q; mret (c, Sent n)
  | OpSubscribe since etg =>
      '(c, g, r) ← Subscribe_counted c since etg;
      mret (c, match g with Some k => Answered k r.1 r.2 | None => Refused end)
  | OpUnsubscribe elem => c ← Unsubscribe c elem; mret (c, Finished)
  | OpAwait elem => await elem;; mret (c, Finished)
  end.

Fixpoint run (c : channel) (os : list op) : M (channel * list outcome) :=
  match os with
  | [] => mret (c, [])
  | o :: os' =>
      '(c, out) ← step c o;
      '(c, outs) ← run c os';
      mret (c, out :: outs)
  end.

(** Publishing a list of messages in turn, each with its queueing flag. *)
Definition publishes (ms : list (positive * bool)) : list op :=
  (λ mq, OpPublish mq.1 mq.2) <$> ms.

(** ** Well-formedness of a channel in a store *)

Definition slot_open (w : World) (s : positive) : Prop :=
  ∃ sl, chans w !! s = Some sl ∧ closed sl = false.

Definition allocated (w : World) (p : positive) : Prop := is_Some (heap w !! p).

Record chan_ok (w : World) (c : channel) : Prop := {
  subs_nodup : NoDup (subscribers c);
  subs_open : Forall (slot_open w) (subscribers c);
  queue_alloc : Forall (allocated w) (queue c);
  last_alloc : from_option (allocated w) True (lastMessage c)
}.

(** The stamp of a message object, and the strict lexicographic order on
    stamps. *)
Definition stamp_of (h : gmap positive Message) (p : positive) : Z * Z :=
  match h !! p with
  | Some m => (time m, etag m)
  | None => (0, 0)
  end.

Definition stamp_lt (a b : Z * Z) : Prop :=
  a.1 < b.1 ∨ (a.1 = b.1 ∧ a.2 < b.2).

Definition stamp_ltb (a b : Z * Z) : bool :=
  (a.1 <? b.1) || ((a.1 =? b.1) && (a.2 <? b.2)).

(** ** Closed forms

    What the operations compute, written without the monad; the lemmas of
    the next part show that the code computes exactly these. *)

(** A wait-slot after [publish] went over it: the message is handed over if
    the handler was waiting, and the slot is closed. *)
Definition kick (m : positive) (sl : Slot) : Slot :=
  if waiting sl then {| waiting := false; received := Some m; closed := true |}
  else {| waiting := false; received := received sl; closed := true |}.

Definition is_waiting (ch : gmap positive Slot) (s : positive) : bool :=
  match ch !! s with
  | Some sl => waiting sl
  | None => false
  end.

Definition kick_all (m : positive) (subs : list positive) (ch : gmap positive Slot)
  : gmap positive Slot :=
  foldl (λ ch s, alter (kick m) s ch) ch subs.

(** The number of wait-slots of [subs] whose handler is waiting. *)
Fixpoint woken (ch : gmap positive Slot) (subs : list positive) : Z :=
  match subs with
  | [] => 0
  | s :: rest => (if is_waiting ch s then 1 else 0) + woken ch rest
  end.

(** The [k]-th next reading of the clock, in seconds. *)
Definition seconds (w : World) (k : nat) : Z := clock w (ticks w + k)%nat `div` 10 ^ 9.

Definition next_etag (w : World) (c : channel) (m : positive) : Z :=
  match lastMessage c with
  | Some lm =>
      if decide (lm = m) then int (0 + 1)
      else match heap w !! lm with
           | Some last => if time last =? seconds w 0 then int (etag last + 1) else 0
           | None => 0
           end
  | None => 0
  end.

Definition stamped (w : World) (c : channel) (m : positive) (msg : Message) : Message :=
  set_etag (next_etag w c m) (set_time (seconds w 0) msg).

Definition enqueue (c : channel) (m : positive) (queue_it : bool) : list positive :=
  if queue_it && (ChannelCapacity (config c) >? 0) then
    m :: (if Z.of_nat (length (queue c)) >=? ChannelCapacity (config c)
          then vector_Pop (queue c) else queue c)
  else queue c.

Definition published (w : World) (c : channel) (m : positive) (queue_it : bool) : channel :=
  {| subscribers := [];
     config := config c;
     lastMessage := Some m;
     stats := {| Created := Created (stats c);
                 Delivered := int64 (Delivered (stats c)
                                     + int (woken (chans w) (subscribers c)));
                 LastPublished := seconds w 1;
                 LastRequested := LastRequested (stats c);
                 Published := int64 (Published (stats c) + 1);
                 Subscribers := 0;
                 Queued := if queue_it && (ChannelCapacity (config c) >? 0)
                              && negb (Z.of_nat (length (queue c))
                                       >=? ChannelCapacity (config c))
                           then int (Queued (stats c) + 1) else Queued (stats c) |};
     chan_id := chan_id c;
     queue := enqueue c m queue_it |}.

Definition after_publish (w : World) (c : channel) (m : positive) (msg : Message) : World :=
  {| heap := <[m := stamped w c m msg]> (heap w);
     chans := kick_all m (subscribers c) (chans w);
     clock := clock w;
     ticks := S (S (ticks w)) |}.

(** The test of the history lookup in the words of the specification:
    the stamp of the message is lexicographically greater than
    [(since, etg)]. *)
Definition newer_than (h : gmap positive Message) (since etg : Z) (p : positive) : bool :=
  stamp_ltb (since, etg) (stamp_of h p).

(** The state in which [Subscribe] enters its history loop: the clock has
    been read, [LastRequested] is set, and in LIFO mode the Conflict message
    has been published.  [None] when [Subscribe] returns (or panics) before
    the loop. *)
Definition lookup_state (w : World) (c : channel) : option (channel * World) :=
  let w0 := with_ticks (S (ticks w)) w in
  let c0 := with_stats (set_LastRequested (seconds w 0) (stats c)) c in
  if ConcurrencyMode (config c) =? ConcurrencyModeLIFO then
    match publish c0 conflictMessage false w0 with
    | Some ((c1, _), w1) => Some (c1, w1)
    | None => None
    end
  else if (ConcurrencyMode (config c) =? ConcurrencyModeFILO)
          && (Subscribers (stats c) >? 0) then None
  else Some (c0, w0).

(** A run that publishes the messages [ms] in turn, all of them queued. *)
Definition queued_all (ms : list positive) : list op :=
  publishes ((λ m, (m, true)) <$> ms).

(** ** Test data

    The two configurations of channel_test.go, and a store and channels on
    which the theorems below are instantiated. *)

Definition intervalConf : Configuration :=
  {| AllowChannelCreation := false; ChannelCapacity := 3; ConcurrencyMode := 0;
     cfgContentType := ""; GCInterval := 0; MaxChannels := 0; MaxChannelIdleTime := 0;
     PollingMechanism := PollingMechanismInterval; PollingTimeout := 0 |}.
Definition longConf : Configuration :=
  {| AllowChannelCreation := false; ChannelCapacity := 3; ConcurrencyMode := 0;
     cfgContentType := ""; GCInterval := 0; MaxChannels := 0; MaxChannelIdleTime := 0;
     PollingMechanism := PollingMechanismLong; PollingTimeout := 0 |}.

Definition with_mode (mode : Z) (cfg : Configuration) : Configuration :=
  {| AllowChannelCreation := AllowChannelCreation cfg;
     ChannelCapacity := ChannelCapacity cfg; ConcurrencyMode := mode;
     cfgContentType := cfgContentType cfg; GCInterval := GCInterval cfg;
     MaxChannels := MaxChannels cfg; MaxChannelIdleTime := MaxChannelIdleTime cfg;
     PollingMechanism := PollingMechanism cfg; PollingTimeout := PollingTimeout cfg |}.

(** A store with four caller-owned messages tm1..tm4 at addresses 3..6 (none
    published yet) and two open wait-slots, the first with its handler
    waiting; the clock advances by 0.3 s per reading from second 7. *)
Definition tm (n : Z) : Message :=
  {| ContentType := "tm.ctype"; Payload := Some []; Status := n; etag := 0; time := 0 |}.

Definition test_world : World :=
  {| heap := <[6%positive := tm 4]> (<[5%positive := tm 3]>
               (<[4%positive := tm 2]> (<[3%positive := tm 1]> init_heap)));
     chans := <[2%positive := {| waiting := false; received := None; closed := false |}]>
                (<[1%positive := {| waiting := true; received := None; closed := false |}]> ∅);
     clock := λ n, Z.of_nat n * (3 * 10 ^ 8) + 7 * 10 ^ 9;
     ticks := 0 |}.

Definition empty_stats : Stats :=
  {| Created := 7; Delivered := 0; LastPublished := 0; LastRequested := 0;
     Published := 0; Subscribers := 0; Queued := 0 |}.

(** A channel without subscribers, and one with the two wait-slots parked. *)
Definition idle_channel (cfg : Configuration) : channel :=
  {| subscribers := []; config := cfg; lastMessage := None; stats := empty_stats;
     chan_id := "test"; queue := [] |}.

Definition parked_channel (cfg : Configuration) : channel :=
  {| subscribers := [1%positive; 2%positive]; config := cfg; lastMessage := None;
     stats := set_Subscribers 2 empty_stats; chan_id := "test"; queue := [] |}.


(** The same store after tm1, tm2 and tm3 were published and queued, tm1 and
    tm2 within second 7 and tm3 in second 8, and the channel that holds
    them. *)
Definition history_world : World :=
  {| heap := <[5%positive := set_time 8 (tm 3)]>
               (<[4%positive := set_etag 1 (set_time 7 (tm 2))]>
                  (<[3%positive := set_time 7 (tm 1)]> (heap test_world)));
     chans := ∅;
     clock := λ n, 9 * 10 ^ 9;
     ticks := 6 |}.

Definition history_channel (cfg : Configuration) : channel :=
  {| subscribers := []; config := cfg; lastMessage := Some 5%positive;
     stats := {| Created := 7; Delivered := 0; LastPublished := 8; LastRequested := 0;
                 Published := 3; Subscribers := 0; Queued := 3 |};
     chan_id := "test"; queue := [5; 4; 3]%positive |}.

(** A channel that was requested in second 100 and never published to, read
    in second 150. *)
Definition requested_channel : channel :=
  {| subscribers := []; config := DefaultConfiguration; lastMessage := None;
     stats := {| Created := 90; Delivered := 0; LastPublished := 0; LastRequested := 100;
                 Published := 0; Subscribers := 0; Queued := 0 |};
     chan_id := "test"; queue := [] |}.

Definition at_nanoseconds (ns : Z) : World :=
  {| heap := init_heap; chans := ∅; clock := λ _, ns; ticks := 0 |}.

(** A channel created in second [created] and last published to in second
    [published_at] (0 for never). *)
Definition aged_channel (id : string) (cfg : Configuration) (created published_at : Z)
  : channel :=
  {| subscribers := []; config := cfg; lastMessage := None;
     stats := {| Created := created; Delivered := 0; LastPublished := published_at;
                 LastRequested := 0; Published := 0; Subscribers := 0; Queued := 0 |};
     chan_id := id; queue := [] |}.

Definition gc_config (max_channels max_idle : Z) : Configuration :=
  {| AllowChannelCreation := false; ChannelCapacity := 20; ConcurrencyMode := 0;
     cfgContentType := ""; GCInterval := 60 * 10 ^ 9; MaxChannels := max_channels;
     MaxChannelIdleTime := max_idle; PollingMechanism := 0; PollingTimeout := 0 |}.

(** One channel, idle for 100 seconds, under a configuration whose idle
    time is 0 ("unlimited"). *)
Definition unlimited_pusher : pusher :=
  {| channels := {[ "a" := aged_channel "a" (gc_config 2 0) 100 0 ]};
     pconfig := gc_config 2 0 |}.

(** Two channels under a maximal idle time of 50 seconds: "fresh" was
    active 10 seconds ago, "stale" 100 seconds ago. *)
Definition two_pusher : pusher :=
  {| channels := <[ "fresh" := aged_channel "fresh" (gc_config 0 (50 * 10 ^ 9)) 100 190 ]>
                   {[ "stale" := aged_channel "stale" (gc_config 0 (50 * 10 ^ 9)) 100 0 ]};
     pconfig := gc_config 0 (50 * 10 ^ 9) |}.


(** ** Stamps along a run *)

(** [chain R l]: [R] holds between each element of [l] and the next. *)
Definition chain {A} (R : relation A) (l : list A) : Prop :=
  ∀ i x y, l !! i = Some x → l !! S i = Some y → R x y.

Definition older_than (h : gmap positive Message) (p p' : positive) : Prop :=
  stamp_lt (stamp_of h p) (stamp_of h p').

Definition monotone_clock (w : World) : Prop :=
  ∀ i j : nat, (i ≤ j)%nat → clock w i ≤ clock w j.


(** ** Counting over a run *)

Definition is_publish_call (o : op) : bool :=
  match o with
  | OpPublish _ _ | OpPublishString _ _ => true
  | _ => false
  end.

Definition is_subscribe_call (o : op) : bool :=
  match o with
  | OpSubscribe _ _ => true
  | _ => false
  end.

Fixpoint count_ops (f : op → bool) (os : list op) : Z :=
  match os with
  | [] => 0
  | o :: os' => (if f o then 1 else 0) + count_ops f os'
  end.

(** The delivered count of an operation: what [Publish] returns, and for a
    [Subscribe] in LIFO mode what its inner [publish] returns. *)
Definition delivered_count (out : outcome) : Z :=
  match out with
  | Sent n => n
  | Answered k _ _ => k
  | _ => 0
  end.

(** A [Subscribe] that found its message in the queue. *)
Definition immediate_hit (out : outcome) : Z :=
  match out with
  | Answered _ _ (Some _) => 1
  | _ => 0
  end.

Fixpoint total (f : outcome → Z) (outs : list outcome) : Z :=
  match outs with
  | [] => 0
  | out :: outs' => f out + total f outs'
  end.

(** Counter consistency as the specification words it. *)
Definition counter_claim (w : World) (c : channel) (os : list op) : Prop :=
  ∀ c' outs w',
    run c os w = Some ((c', outs), w') →
    Published (stats c') = Published (stats c) + count_ops is_publish_call os
    ∧ Delivered (stats c')
      = Delivered (stats c) + total delivered_count outs + total immediate_hit outs
    ∧ Subscribers (stats c') = Z.of_nat (length (subscribers c')).

Definition lifoConf : Configuration := with_mode ConcurrencyModeLIFO longConf.

(** A run in LIFO mode: a subscriber parks and waits, a message is published
    to it and queued, a second subscriber is served from the queue, a third
    one parks and times out, and a string is published. *)
Definition lifo_ops : list op :=
  [OpSubscribe 0 0; OpAwait 3; OpPublish 3%positive true; OpSubscribe 0 0;
   OpSubscribe 9 0; OpUnsubscribe 4; OpPublishString "hello" false].


(** ** The stamps assigned along a run *)

(** The stamp [b] of a message published right after the one stamped [a]:
    the clock did not go back, and the etag is the previous one plus 1
    within one second and 0 in a new second. *)
Definition stamp_follows (a b : Z * Z) : Prop :=
  a.1 ≤ b.1 ∧ b.2 = if b.1 =? a.1 then a.2 + 1 else 0.

(** The stamps that the publish calls of a run assign, in the order of the
    calls: right after each call of [Publish] or [PublishString], the stamp
    of the message it published, which is the channel's [lastMessage]
    then. *)
Definition last_stamp (c : channel) : M (list (Z * Z)) :=
  λ w, Some (match lastMessage c with
             | Some m => [stamp_of (heap w) m]
             | None => []
             end, w).

Fixpoint assigned_stamps (c : channel) (os : list op) : M (list (Z * Z)) :=
  match os with
  | [] => mret []
  | o :: os' =>
      '(c, _) ← step c o;
      here ← (if is_publish_call o then last_stamp c else mret []);
      rest ← assigned_stamps c os';
      mret (here ++ rest)
  end.

(** The message objects that the [Publish] calls of a run are given. *)
Definition published_objects (os : list op) : list positive :=
  omap (λ o, match o with OpPublish m _ => Some m | _ => None end) os.

(** The claim on monotone stamps as the specification words it: the stamps
    assigned by a sequence of publishes follow the etag rule and increase
    strictly, and in the queue every older message has a strictly smaller
    stamp than every newer one. *)
Definition monotone_stamps_claim (w : World) (c : channel) (ms : list (positive * bool))
  : Prop :=
  ∀ c' outs w' log,
    run c (publishes ms) w = Some ((c', outs), w') →
    assigned_stamps c (publishes ms) w = Some (log, w') →
    chain stamp_follows log
    ∧ StronglySorted stamp_lt log
    ∧ StronglySorted (flip (older_than (heap w'))) (queue c').

(** A run in Broadcast mode: two queued publishes of caller-owned objects
    and one of a string, one publish that is not queued, and a subscriber
    that is served from the queue in between. *)
Definition mixed_ops : list op :=
  [OpPublish 3%positive true; OpSubscribe 0 0; OpPublishString "hello" true;
   OpPublish 4%positive false; OpPublish 5%positive true].

(** What the publishes of a run maintain: [done] holds the stamps assigned
    so far.  The queued messages carry, newest first, stamps of [done] in
    their order; the last message carries the last stamp; that stamp is not
    ahead of the clock, and its etag is below the number of publishes. *)
Definition stamps_inv (w : World) (c : channel) (done : list (Z * Z)) : Prop :=
  Forall (allocated w) (queue c)
  ∧ (stamp_of (heap w) <$> queue c) `sublist_of` reverse done
  ∧ match lastMessage c with
    | Some lm => allocated w lm ∧ last done = Some (stamp_of (heap w) lm)
    | None => done = []
    end
  ∧ (∀ s, last done = Some s → s.1 ≤ seconds w 0 ∧ 0 ≤ s.2 < Z.of_nat (length done))
  ∧ chain stamp_follows done
  ∧ (∀ s, head done = Some s → s.2 = 0).


(** ** The claims on synthetic messages *)

(** The LIFO claim as the specification words it: [Subscribe] hands the
    Conflict message to every parked subscriber. *)
Definition LIFO_wakes_all_claim (w : World) (c : channel) (since etg : Z) : Prop :=
  ∃ c' r w',
    Subscribe c since etg w = Some ((c', r), w')
    ∧ ∀ s, s ∈ subscribers c →
           ∃ sl, chans w' !! s = Some sl ∧ received sl = Some conflictMessage.

Definition open_slot : Slot := {| waiting := false; received := None; closed := false |}.


(** A pusher that holds the channel with the two parked wait-slots. *)
Definition parked_pusher : pusher :=
  {| channels := {[ "test" := parked_channel lifoConf ]}; pconfig := lifoConf |}.

(** Every object of [w] is still there in [w'] with the content-type, the
    payload and the status it had: only stamps may differ. *)
Definition same_content (w w' : World) : Prop :=
  ∀ p m, heap w !! p = Some m →
         ∃ m', heap w' !! p = Some m' ∧ ContentType m' = ContentType m
               ∧ Payload m' = Payload m ∧ Status m' = Status m.


(** ** Enabled operations *)

(** An operation that the channel can take without a panic: a published
    message is a valid pointer, an unsubscribed wait-slot is parked, an
    awaited wait-slot exists. *)
Definition enabled (w : World) (c : channel) (o : op) : Prop :=
  match o with
  | OpPublish m _ => allocated w m
  | OpPublishString _ _ => True
  | OpSubscribe _ _ => True
  | OpUnsubscribe elem => elem ∈ subscribers c
  | OpAwait elem => is_Some (chans w !! elem)
  end.

(** An operation that is enabled in every state of the channel. *)
Definition always_enabled (w : World) (o : op) : Prop :=
  match o with
  | OpPublish m _ => allocated w m
  | OpPublishString _ _ | OpSubscribe _ _ => True
  | OpUnsubscribe _ | OpAwait _ => False
  end.


(** The store of [test_world] with the clock stopped within second 7. *)
Definition frozen_world : World :=
  {| heap := heap test_world; chans := ∅; clock := λ _, 7 * 10 ^ 9; ticks := 0 |}.

(** Three queued publishes, two subscribers in LIFO mode with interval
    polling that are up to date, and a fourth queued publish, all within one
    second. *)
Definition lifo_interval_ops : list op :=
  [OpPublish 3%positive true; OpPublish 4%positive true; OpPublish 5%positive true;
   OpSubscribe 7 2; OpSubscribe 7 2; OpPublish 6%positive true].


(** ** Further definitions: invariants of runs, the collector, the handlers *)

(** [later w w']: [w'] is reached from [w] by reading the clock some number
    of times. *)
Definition later (w w' : World) : Prop :=
  clock w' = clock w ∧ (ticks w ≤ ticks w')%nat.

(** The time stamps of a channel are past readings of the clock: [Created]
    was read at tick [t0], and [LastRequested] and [LastPublished] are 0 or
    were read at [t0] or later. *)
Definition reading (w : World) (lo hi : nat) (v : Z) : Prop :=
  ∃ k, (lo ≤ k < hi)%nat ∧ v = clock w k `div` 10 ^ 9.

Definition stamps_read (w : World) (c : channel) : Prop :=
  ∃ t0, Created (stats c) = clock w t0 `div` 10 ^ 9
        ∧ (t0 < ticks w)%nat
        ∧ (LastRequested (stats c) = 0 ∨ reading w t0 (ticks w) (LastRequested (stats c)))
        ∧ (LastPublished (stats c) = 0 ∨ reading w t0 (ticks w) (LastPublished (stats c))).

(** The queue respects the capacity and [stats.Queued] counts it. *)
Definition queue_bounded (c : channel) : Prop :=
  Z.of_nat (length (queue c)) ≤ Z.max 0 (ChannelCapacity (config c))
  ∧ Queued (stats c) = Z.of_nat (length (queue c)).

(** An operation that publishes on the channel: a call of [Publish] or
    [PublishString], and in LIFO mode a [Subscribe] as well, which publishes
    the Conflict message. *)
Definition publishing (cfg : Configuration) (o : op) : bool :=
  is_publish_call o
  || (is_subscribe_call o && (ConcurrencyMode cfg =? ConcurrencyModeLIFO)).

(** [stats.Queued] after a publish with the flag [queue_it]. *)
Definition queued_after (c : channel) (queue_it : bool) : Z :=
  if queue_it && (ChannelCapacity (config c) >? 0)
     && negb (Z.of_nat (length (queue c)) >=? ChannelCapacity (config c))
  then int (Queued (stats c) + 1) else Queued (stats c).

(** A configuration whose capacity is 0. *)
Definition unqueuedConf : Configuration :=
  {| AllowChannelCreation := false; ChannelCapacity := 0; ConcurrencyMode := 0;
     cfgContentType := ""; GCInterval := 0; MaxChannels := 0; MaxChannelIdleTime := 0;
     PollingMechanism := PollingMechanismLong; PollingTimeout := 0 |}.

(** ** Well-formedness of a pusher in a store

    Every channel of the map is well formed and filed under its own id, and
    no wait-slot is parked on two channels. *)
Record pusher_ok (w : World) (p : pusher) : Prop := {
  channels_ok : ∀ cid c, channels p !! cid = Some c → chan_ok w c;
  channels_id : ∀ cid c, channels p !! cid = Some c → chan_id c = cid;
  channels_apart : ∀ cid1 cid2 c1 c2 s,
    channels p !! cid1 = Some c1 → channels p !! cid2 = Some c2 → cid1 ≠ cid2 →
    s ∈ subscribers c1 → s ∉ subscribers c2
}.

(** [order] is an order in which [range] may visit the map of [p]: every
    key once. *)
Definition range_order (p : pusher) (order : list string) : Prop :=
  NoDup order ∧ ∀ k, k ∈ order ↔ is_Some (channels p !! k).

(** The limit of [GC] when it starts in [w]: channels whose stamp is below
    it are stale. *)
Definition gc_limit (w : World) (p : pusher) : Z :=
  Z.quot (int64 (clock w (ticks w) - MaxChannelIdleTime (pconfig p))) (10 ^ 9).

(** The test at which the eviction loop of [GC] breaks. *)
Definition gc_keeps (cfg : Configuration) (limit count : Z) (c : channel) : bool :=
  ((MaxChannels cfg =? 0) || (count <=? MaxChannels cfg)) && (stamp c >=? limit).

(** The number of channels that the eviction loop removes from [rest]. *)
Fixpoint evictions (cfg : Configuration) (limit : Z) (rest : list channel) (count : Z) : nat :=
  match rest with
  | [] => 0
  | c :: rest' =>
      if gc_keeps cfg limit count c then 0%nat
      else S (evictions cfg limit rest' (int (count - 1)))
  end.

(** No wait-slot is parked on two channels of the list. *)
Definition apart (cs : list channel) : Prop :=
  ∀ i j ci cj s, cs !! i = Some ci → cs !! j = Some cj → i ≠ j →
                 s ∈ subscribers ci → s ∉ subscribers cj.

(** Two channels under [MaxChannels = 1] and a maximal idle time of 50
    seconds. *)
Definition crowded_pusher : pusher :=
  {| channels := <[ "fresh" := aged_channel "fresh" (gc_config 1 (50 * 10 ^ 9)) 100 190 ]>
                   {[ "stale" := aged_channel "stale" (gc_config 1 (50 * 10 ^ 9)) 100 0 ]};
     pconfig := gc_config 1 (50 * 10 ^ 9) |}.

(** ** The handlers of pusher.go

    What the handlers read of a request: the method; the form values (for
    [QueryParameterAcceptor]); the result of reading the body into a buffer
    ([None] when the read fails, otherwise the slice that the buffer
    returns); the Content-Type header; the subtype that [writeStats]
    negotiates from the Accept header; the If-Modified-Since header in
    seconds and the If-None-Match header as an [int], both 0 when absent or
    malformed. *)
Record Request := {
  Method : string;
  FormValue : string → string;
  Body : option (option (list Byte.byte));
  Header_ContentType : string;
  Accept : string;
  IfModifiedSince : Z;
  IfNoneMatch : Z
}.

Definition Acceptor : Type := Request → string.

Definition StaticAcceptor (cid : string) : Acceptor := λ _, cid.

Definition QueryParameterAcceptor (parameterName : string) : Acceptor :=
  λ req, FormValue req parameterName.

(** [New]: the pusher, and whether the collector is started.  The record
    [pusher] does not store the acceptor; the handlers below take it as an
    argument. *)
Definition New (acceptor : Acceptor) (config : Configuration) : pusher * bool :=
  ({| channels := ∅; pconfig := config |},
   (GCInterval config >? 0)
   && ((MaxChannelIdleTime config >? 0) || (MaxChannels config >? 0))).

(** [handlePublisher].  The result holds the status code and, when
    [writeStats] is called, the arguments that it hands to the formatter.
    The map holds the channels by value, so the channel that [Publish]
    changed is written back under its id. *)
Definition handlePublisher (acceptor : Acceptor) (p : pusher) (req : Request)
  : M (pusher * (Z * option (list Z))) :=
  let cid := acceptor req in
  if bool_decide (cid = "") then mret (p, (404, None))
  else
    '(p, c, status) ←
      (if bool_decide (Method req = "GET") then
         match channels p !! cid with
         | Some c => mret (p, Some c, 200)
         | None => mret (p, None, 404)
         end
       else if bool_decide (Method req = "PUT") then
         '(p, c, _) ← Channel p cid;
         mret (p, Some c, 200)
       else if bool_decide (Method req = "POST") then
         match Body req with
         | None => mret (p, None, 500)
         | Some payload =>
             let ctype := if bool_decide (cfgContentType (pconfig p) = "")
                          then Header_ContentType req else cfgContentType (pconfig p) in
             '(p, c, _) ← Channel p cid;
             m ← new_Message {| ContentType := ctype; Payload := payload;
                                Status := StatusOK; etag := 0; time := 0 |};
             '(c, n) ← Publish c m true;
             mret (with_channels (<[cid := c]> (channels p)) p, Some c,
                   if n >? 0 then 201 else 202)
         end
       else if bool_decide (Method req = "DELETE") then
         match channels p !! cid with
         | Some c =>
             let p := with_channels (delete cid (channels p)) p in
             '(c, _) ← Publish c goneMessage false;
             mret (p, Some c, 200)
         | None => mret (p, None, 404)
         end
       else mret (p, None, 405));
    if (status >=? 200) && (status <? 300) then
      match c with
      | Some c => stats ← writeStats c (Accept req); mret (p, (status, Some stats))
      | None => mret (p, (status, None))
      end
    else mret (p, (status, None)).

(** What [handleSubscriber] writes: a bare status code, or for a message
    its Etag, the time behind Last-Modified, the Content-Type header when
    the message has one, the status code and the body.  The Vary header,
    which every reply carries, is left out. *)
Inductive Reply :=
  | StatusOnly (code : Z)
  | Delivery (etg last_modified : Z) (content_type : option string) (code : Z)
             (body : option (list Byte.byte)).

(** The end of [handleSubscriber], from the test [message == nil] on. *)
Definition respond (message : option positive) : M Reply :=
  match message with
  | None => mret (StatusOnly 304)
  | Some m =>
      msg ← load m;
      mret (Delivery (etag msg) (time msg)
              (if bool_decide (ContentType msg = "") then None else Some (ContentType msg))
              (Status msg) (Payload msg))
  end.

(** [handleSubscriber] up to the point where it holds the results of
    [Subscribe]: with a wait-slot the handler goes on to wait on it
    ([Parked]), without one it answers at once. *)
Inductive Subscription :=
  | Replied (r : Reply)
  | Parked (sub : positive).

Definition handleSubscriber (acceptor : Acceptor) (p : pusher) (req : Request)
  : M (pusher * Subscription) :=
  let cid := acceptor req in
  if negb (bool_decide (Method req = "GET")) then mret (p, Replied (StatusOnly 405))
  else if bool_decide (cid = "") then mret (p, Replied (StatusOnly 404))
  else
    let since := IfModifiedSince req in
    let etg := IfNoneMatch req in
    '(p, found) ←
      match channels p !! cid with
      | Some c => mret (p, Some c)
      | None =>
          if negb (AllowChannelCreation (pconfig p)) then mret (p, None)
          else
            c ← newChannel cid (pconfig p);
            mret (with_channels (<[cid := c]> (channels p)) p, Some c)
      end;
    match found with
    | None => mret (p, Replied (StatusOnly 403))
    | Some c =>
        '(c, (sub, message)) ← Subscribe c since etg;
        let p := with_channels (<[cid := c]> (channels p)) p in
        match sub with
        | Some elem => mret (p, Parked elem)
        | None => r ← respond message; mret (p, Replied r)
        end
    end.

(** The wait of [handleSubscriber] on its wait-slot.  The receive returns
    once the slot is closed, with the message handed over or with nil; when
    a polling timeout is configured the timer may fire instead, and the
    handler unsubscribes.  The timeout is given for a channel that is still
    in the map. *)
Inductive handleSubscriber_wait (p : pusher) (cid : string) (sub : positive) (w : World)
  : pusher → option positive → World → Prop :=
  | wait_received sl :
      chans w !! sub = Some sl → closed sl = true →
      handleSubscriber_wait p cid sub w p (received sl) w
  | wait_timeout c c' w' :
      0 < PollingTimeout (pconfig p) →
      channels p !! cid = Some c →
      Unsubscribe c sub w = Some (c', w') →
      handleSubscriber_wait p cid sub w
        (with_channels (<[cid := c']> (channels p)) p) None w'.

(** The channel that [newChannel] makes at second [now]. *)
Definition fresh_channel (id : string) (cfg : Configuration) (now : Z) : channel :=
  {| subscribers := []; config := cfg; lastMessage := None;
     stats := {| Created := now; Delivered := 0; LastPublished := 0;
                 LastRequested := 0; Published := 0; Subscribers := 0; Queued := 0 |};
     chan_id := id; queue := [] |}.

(** Long polling with a timeout of 20 seconds, and a pusher that holds the
    channel with the two parked wait-slots under it. *)
Definition timeoutConf : Configuration :=
  {| AllowChannelCreation := false; ChannelCapacity := 3; ConcurrencyMode := 0;
     cfgContentType := ""; GCInterval := 0; MaxChannels := 0; MaxChannelIdleTime := 0;
     PollingMechanism := PollingMechanismLong; PollingTimeout := 20 * 10 ^ 9 |}.

Definition polled_pusher : pusher :=
  {| channels := {[ "test" := parked_channel timeoutConf ]}; pconfig := timeoutConf |}.

(** The pusher that [New] returns under the acceptor of the test channel. *)
Definition new_pusher (config : Configuration) : pusher :=
  (New (StaticAcceptor "test") config).1.

(** A request with the given method to the test channel. *)
Definition request (method : string) : Request :=
  {| Method := method; FormValue := λ _, "test"; Body := Some (Some []);
     Header_ContentType := "text/plain"; Accept := "json";
     IfModifiedSince := 0; IfNoneMatch := 0 |}.

(** At most one wait-slot is parked, and [stats.Subscribers] counts it. *)
Definition at_most_one_parked (c : channel) : Prop :=
  (length (subscribers c) ≤ 1)%nat
  ∧ Subscribers (stats c) = Z.of_nat (length (subscribers c)).

(** ** The negotiation of [writeStats]

    [strings.Split(s, "/", 2)] cuts [s] at its first slash; without a slash
    the result is [s] alone. *)
Fixpoint cut_at_slash (s : string) : option (string * string) :=
  match s with
  | EmptyString => None
  | String a rest =>
      if Ascii.eqb a (Ascii.ascii_of_nat 47) then Some (EmptyString, rest)
      else match cut_at_slash rest with
           | Some (before, after) => Some (String a before, after)
           | None => None
           end
  end.

Definition strings_Split2 (s : string) : list string :=
  match cut_at_slash s with
  | Some (before, after) => [before; after]
  | None => [s]
  end.

(** [statFormats] has a format for the keys "plain" and "json"; for any
    other key the lookup yields the empty string. *)
Definition has_format (subtype : string) : bool :=
  bool_decide (subtype = "plain") || bool_decide (subtype = "json").

(** The first lines of [writeStats]: from the Accept header in lower case
    to the type and the subtype of the answer. *)
Definition negotiate (accept : string) : string * string :=
  let '(typ, subtype) :=
    match strings_Split2 accept with
    | [t; st] =>
        if negb (bool_decide (t = "text")) && negb (bool_decide (t = "application"))
        then ("text", "plain")
        else (t, st)
    | _ => ("text", "plain")
    end in
  if has_format subtype then (typ, subtype) else (typ, "plain").


(** * Lemmas *)

(** ** The monad and the store *)

Lemma bind_Some {A B} (m : M A) (f : A → M B) w a w' :
  m w = Some (a, w') → (m ≫= f) w = f a w'.
Proof. intros H. unfold mbind, M_bind. by rewrite H. Qed.

Lemma load_Some w p m : heap w !! p = Some m → load p w = Some (m, w).
Proof. intros H. unfold load. by rewrite H. Qed.

Lemma store_Some w p m :
  is_Some (heap w !! p) →
  store p m w = Some ((), {| heap := <[p := m]> (heap w); chans := chans w;
                             clock := clock w; ticks := ticks w |}).
Proof. intros [x H]. unfold store. by rewrite H. Qed.

Lemma time_Seconds_run w :
  time_Seconds w = Some (clock w (ticks w) `div` 10 ^ 9,
                         {| heap := heap w; chans := chans w; clock := clock w;
                            ticks := S (ticks w) |}).
Proof. reflexivity. Qed.

Lemma bind_assoc {A B C} (m : M A) (f : A → M B) (g : B → M C) w :
  ((m ≫= f) ≫= g) w = (m ≫= (λ a, f a ≫= g)) w.
Proof. unfold mbind, M_bind. by destruct (m w) as [[a w']|]. Qed.

(** ** Wrap-around *)

Section wrap.
Variable w : Z.
Hypothesis width : 0 < w.

Lemma wrap_add_l a b : wrap w (wrap w a + b) = wrap w (a + b).
Proof using width.
  unfold wrap. f_equal.
  assert (0 < 2 ^ w) by (apply Z.pow_pos_nonneg; lia).
  replace ((a + 2 ^ (w - 1)) `mod` 2 ^ w - 2 ^ (w - 1) + b + 2 ^ (w - 1))
    with ((a + 2 ^ (w - 1)) `mod` 2 ^ w + b) by lia.
  rewrite Zplus_mod_idemp_l. f_equal. lia.
Qed.

Lemma wrap_small a : - 2 ^ (w - 1) ≤ a < 2 ^ (w - 1) → wrap w a = a.
Proof using width.
  intros Ha. unfold wrap.
  assert (2 ^ w = 2 * 2 ^ (w - 1)) as ->.
  { replace w with (1 + (w - 1)) at 1 by lia. rewrite Z.pow_add_r by lia. reflexivity. }
  rewrite Z.mod_small; lia.
Qed.

Lemma wrap_idemp a : wrap w (wrap w a) = wrap w a.
Proof using width.
  pose proof (wrap_add_l a 0) as H. by rewrite !Z.add_0_r in H.
Qed.
End wrap.

Lemma int_add_l a b : int (int a + b) = int (a + b).
Proof. by apply wrap_add_l. Qed.

Lemma int64_add_l a b : int64 (int64 a + b) = int64 (a + b).
Proof. by apply wrap_add_l. Qed.

Lemma int_small a : - 2 ^ 31 ≤ a ≤ max_int → int a = a.
Proof. intros H. apply wrap_small; unfold max_int in *; simpl; lia. Qed.

Lemma int64_small a : - 2 ^ 63 ≤ a ≤ max_int64 → int64 a = a.
Proof. intros H. apply wrap_small; unfold max_int64 in *; simpl; lia. Qed.

(** ** The loop of [publish] over the wait-slots *)

Lemma kick_all_notin m subs : ∀ ch s, s ∉ subs → kick_all m subs ch !! s = ch !! s.
Proof.
  induction subs as [|x subs IH]; intros ch s Hout; [done|].
  simpl. rewrite IH by set_solver. apply lookup_alter_ne. set_solver.
Qed.

Lemma kick_all_in m subs : ∀ ch s, NoDup subs → s ∈ subs →
  kick_all m subs ch !! s = kick m <$> ch !! s.
Proof.
  induction subs as [|x subs IH]; intros ch s Hnd Hs; [set_solver|].
  apply NoDup_cons in Hnd as [Hx Hnd]. simpl.
  destruct (decide (s = x)) as [->|Hne].
  - rewrite kick_all_notin by done. apply lookup_alter_eq.
  - apply elem_of_cons in Hs as [?|Hs]; [done|].
    rewrite IH by done. by rewrite lookup_alter_ne.
Qed.

Lemma woken_ext ch ch' subs :
  (∀ s, s ∈ subs → ch' !! s = ch !! s) → woken ch' subs = woken ch subs.
Proof.
  induction subs as [|x subs IH]; intros H; [done|].
  simpl. unfold is_waiting. rewrite H by set_solver. rewrite IH; [done|].
  intros s Hs. apply H. set_solver.
Qed.

Lemma woken_bounds ch subs : 0 ≤ woken ch subs ≤ Z.of_nat (length subs).
Proof.
  induction subs as [|x subs IH]; simpl; [lia|]. destruct (is_waiting ch x); lia.
Qed.

Lemma slot_open_ext w w' s :
  chans w' !! s = chans w !! s → slot_open w s → slot_open w' s.
Proof. intros H [sl Hsl]. exists sl. by rewrite H. Qed.

Lemma try_send_open w s m sl :
  chans w !! s = Some sl → closed sl = false →
  try_send s m w
  = Some (waiting sl,
          if waiting sl
          then with_chans (<[s := {| waiting := false; received := Some m;
                                     closed := false |}]> (chans w)) w
          else w).
Proof. intros H1 H2. unfold try_send. rewrite H1, H2. by destruct (waiting sl). Qed.

Lemma close_open w s sl :
  chans w !! s = Some sl → closed sl = false →
  close s w = Some ((), with_chans (<[s := {| waiting := waiting sl; received := received sl;
                                              closed := true |}]> (chans w)) w).
Proof. intros H1 H2. unfold close. by rewrite H1, H2. Qed.

Lemma send_then_close w s m sl :
  chans w !! s = Some sl → closed sl = false →
  (sent ← try_send s m; close s;; mret sent) w
  = Some (waiting sl, with_chans (alter (kick m) s (chans w)) w).
Proof.
  intros H1 H2. rewrite (bind_Some _ _ _ _ _ (try_send_open _ _ m _ H1 H2)).
  assert (alter (kick m) s (chans w) = <[s := kick m sl]> (chans w)) as ->.
  { apply map_eq. intros x. destruct (decide (x = s)) as [->|Hne].
    - by rewrite lookup_insert_eq, lookup_alter_eq, H1.
    - by rewrite lookup_insert_ne, lookup_alter_ne. }
  unfold kick. destruct (waiting sl) eqn:Hw.
  - erewrite bind_Some; [|eapply close_open; [apply lookup_insert_eq|done]].
    unfold mret, M_ret, with_chans; simpl. by rewrite insert_insert_eq.
  - erewrite bind_Some; [|eapply close_open; [exact H1|done]].
    unfold mret, M_ret. by rewrite Hw.
Qed.

Lemma handoff_cons s subs m n w :
  handoff (s :: subs) m n w
  = ((sent ← try_send s m; close s;; mret sent) ≫=
       (λ sent : bool, handoff subs m (if sent then int (n + 1) else n))) w.
Proof.
  simpl. unfold mbind, M_bind. destruct (try_send s m w) as [[b w1]|]; [|done].
  destruct (close s w1) as [[[] w2]|]; done.
Qed.

Lemma handoff_run subs m : ∀ a w, NoDup subs → Forall (slot_open w) subs →
  handoff subs m (int a) w
  = Some (int (a + woken (chans w) subs), with_chans (kick_all m subs (chans w)) w).
Proof.
  induction subs as [|s subs IH]; intros a w Hnd Hop.
  - simpl. rewrite Z.add_0_r. by destruct w.
  - apply NoDup_cons in Hnd as [Hs Hnd]. apply Forall_cons in Hop as [[sl [Hsl Hcl]] Hop].
    rewrite handoff_cons, (bind_Some _ _ _ _ _ (send_then_close _ _ m _ Hsl Hcl)).
    set (w1 := with_chans _ w).
    assert (∀ x, x ≠ s → chans w1 !! x = chans w !! x) as Hw1.
    { intros x Hx. simpl. by rewrite lookup_alter_ne. }
    assert (Forall (slot_open w1) subs) as Hop1.
    { rewrite Forall_forall in Hop |- *. intros x Hx.
      eapply slot_open_ext; [|by apply Hop]. apply Hw1. set_solver. }
    assert (woken (chans w1) subs = woken (chans w) subs) as Hwk.
    { apply woken_ext. intros x Hx. apply Hw1. set_solver. }
    assert ((if waiting sl then int (int a + 1) else int a)
            = int (a + (if waiting sl then 1 else 0))) as ->.
    { destruct (waiting sl); [apply int_add_l|by rewrite Z.add_0_r]. }
    rewrite (IH _ w1 Hnd Hop1), Hwk. cbn [woken kick_all foldl]. unfold is_waiting.
    rewrite Hsl. f_equal. f_equal. f_equal. lia.
Qed.

(** ** [publish] in closed form *)

Ltac world_simpl := cbn [heap chans clock ticks].

Lemma publish_run w c m q msg :
  heap w !! m = Some msg → chan_ok w c →
  publish c m q w
  = Some ((published w c m q, int (woken (chans w) (subscribers c))), after_publish w c m msg).
Proof.
  intros Hm [Hnd Hop Hq Hl].
  unfold publish.
  erewrite bind_Some by apply time_Seconds_run.
  erewrite bind_Some by (by apply load_Some).
  erewrite bind_Some by (apply store_Some; by eexists).
  erewrite bind_Some by (apply load_Some, lookup_insert_eq).
  erewrite bind_Some by (apply store_Some; eexists; apply lookup_insert_eq).
  world_simpl. rewrite insert_insert_eq.
  set (now := clock w (ticks w) `div` 10 ^ 9).
  set (w1 := {| heap := _ |}).
  assert ((match lastMessage c with
     | Some lm => last ← load lm; msg0 ← load m;
         if time last =? time msg0 then store m (set_etag (int (etag last + 1)) msg0) else mret ()
     | None => mret () end) w1
     = Some ((), {| heap := <[m := stamped w c m msg]> (heap w); chans := chans w;
                    clock := clock w; ticks := S (ticks w) |})) as Hw2.
  { unfold stamped, next_etag.
    replace (seconds w 0) with now by (unfold seconds, now; by rewrite Nat.add_0_r).
    destruct (lastMessage c) as [lm|] eqn:Hlm.
    - destruct (decide (lm = m)) as [->|Hne].
      + erewrite bind_Some by (apply load_Some, lookup_insert_eq).
        erewrite bind_Some by (apply load_Some, lookup_insert_eq).
        cbn [time set_etag set_time etag]. rewrite Z.eqb_refl.
        rewrite store_Some by (eexists; apply lookup_insert_eq).
        unfold w1; world_simpl. by rewrite insert_insert_eq.
      + simpl in Hl. destruct Hl as [last Hlast].
        erewrite bind_Some
          by (apply load_Some; unfold w1; world_simpl; rewrite lookup_insert_ne by done;
              exact Hlast).
        erewrite bind_Some by (apply load_Some, lookup_insert_eq).
        rewrite Hlast. cbn [time set_etag set_time etag].
        destruct (time last =? now).
        * rewrite store_Some by (eexists; apply lookup_insert_eq).
          unfold w1; world_simpl. by rewrite insert_insert_eq.
        * reflexivity.
    - reflexivity. }
  erewrite bind_Some by exact Hw2.
  erewrite bind_Some by apply time_Seconds_run.
  world_simpl.
  cbn [with_lastMessage with_stats subscribers stats].
  erewrite bind_Some.
  2:{ refine (handoff_run _ _ 0 _ Hnd _). rewrite Forall_forall in Hop |- *.
      intros x Hx. by apply Hop. }
  rewrite Z.add_0_l. world_simpl.
  unfold mret, M_ret. f_equal. f_equal.
  f_equal. unfold published, enqueue, seconds. cbn. rewrite Nat.add_1_r.
  destruct q, (ChannelCapacity (config c) >? 0); cbn; try reflexivity.
  destruct (Z.of_nat (length (queue c)) >=? ChannelCapacity (config c)); reflexivity.
Qed.

(** ** The history loop *)

Lemma history_cond m since etg :
  (if time m >=? since then
     if (time m =? since) && (etag m <=? etg) then false else true
   else false) = stamp_ltb (since, etg) (time m, etag m).
Proof.
  unfold stamp_ltb; simpl.
  destruct (Z.geb_spec (time m) since), (Z.eqb_spec (time m) since),
    (Z.leb_spec (etag m) etg), (Z.ltb_spec since (time m)),
    (Z.eqb_spec since (time m)), (Z.ltb_spec etg (etag m)); simpl; try reflexivity; lia.
Qed.

Lemma history_find w q i since etg :
  Forall (allocated w) q → (i ≤ length q)%nat →
  history q i since etg w
  = Some (List.find (newer_than (heap w) since etg) (reverse (take i q)), w).
Proof.
  intros Hq. induction i as [|i IH]; intros Hi.
  - by rewrite take_0.
  - destruct (lookup_lt_is_Some_2 q i) as [p Hp]; [lia|].
    rewrite (take_S_r _ _ _ Hp), reverse_snoc. simpl. rewrite Hp.
    assert (allocated w p) as [m Hm].
    { eapply Forall_forall; [exact Hq|]. eapply list_elem_of_lookup_2, Hp. }
    rewrite (bind_Some _ _ _ _ _ (load_Some _ _ _ Hm)).
    pose proof (history_cond m since etg) as Hc.
    unfold newer_than, stamp_of at 1. rewrite Hm, <- Hc.
    destruct (time m >=? since); [destruct ((time m =? since) && (etag m <=? etg))|];
      try reflexivity; apply IH; lia.
Qed.

Lemma stamp_ltb_spec a b : stamp_ltb a b = true ↔ stamp_lt a b.
Proof.
  unfold stamp_ltb, stamp_lt.
  rewrite orb_true_iff, andb_true_iff, Z.ltb_lt, Z.eqb_eq, Z.ltb_lt. tauto.
Qed.

Lemma find_first {A} (f : A → bool) (l : list A) :
  match List.find f l with
  | Some x => ∃ before after, l = before ++ x :: after
                              ∧ Forall (λ y, f y = false) before ∧ f x = true
  | None => Forall (λ y, f y = false) l
  end.
Proof.
  induction l as [|y l IH]; simpl; [constructor|].
  destruct (f y) eqn:Hy.
  - exists [], l. by repeat split.
  - destruct (List.find f l) as [x|].
    + destruct IH as (before & after & -> & Hb & Hx).
      exists (y :: before), after. repeat split; [|done]. by constructor.
    + by constructor.
Qed.

Lemma Subscribe_lookup_hit w c since etg p :
  Forall (allocated w) (queue c) →
  List.find (newer_than (heap w) since etg) (reverse (queue c)) = Some p →
  Subscribe_lookup c since etg w
  = Some ((with_stats (set_Delivered (int64 (Delivered (stats c) + 1)) (stats c)) c,
           (None, Some p)), w).
Proof.
  intros Hq Hf. unfold Subscribe_lookup.
  erewrite bind_Some by (by apply history_find).
  by rewrite firstn_all, Hf.
Qed.

Lemma make_chan_run w :
  make_chan w = Some (fresh (dom (chans w)),
                      {| heap := heap w;
                         chans := <[fresh (dom (chans w)) :=
                                      {| waiting := false; received := None;
                                         closed := false |}]> (chans w);
                         clock := clock w; ticks := ticks w |}).
Proof. reflexivity. Qed.

Lemma Subscribe_lookup_miss w c since etg :
  Forall (allocated w) (queue c) →
  List.find (newer_than (heap w) since etg) (reverse (queue c)) = None →
  Subscribe_lookup c since etg w
  = if PollingMechanism (config c) =? PollingMechanismInterval then Some ((c, (None, None)), w)
    else
      let ch := fresh (dom (chans w)) in
      Some ((with_stats (set_Subscribers (int (Subscribers (stats c) + 1)) (stats c))
               (with_subscribers (subscribers c ++ [ch]) c),
             (Some ch, None)),
            {| heap := heap w;
               chans := <[ch := {| waiting := false; received := None; closed := false |}]>
                          (chans w);
               clock := clock w; ticks := ticks w |}).
Proof.
  intros Hq Hf. unfold Subscribe_lookup.
  erewrite bind_Some by (by apply history_find).
  rewrite firstn_all, Hf.
  destruct (PollingMechanism (config c) =? PollingMechanismInterval); [done|].
  by erewrite bind_Some by apply make_chan_run.
Qed.

Lemma Subscribe_counted_unfold c since etg w :
  Subscribe_counted c since etg w
  = let w0 := with_ticks (S (ticks w)) w in
    let c0 := with_stats (set_LastRequested (seconds w 0) (stats c)) c in
    if ConcurrencyMode (config c) =? ConcurrencyModeLIFO then
      ('(c1, n) ← publish c0 conflictMessage false;
       '(c2, r) ← Subscribe_lookup c1 since etg;
       mret (c2, Some n, r)) w0
    else if (ConcurrencyMode (config c) =? ConcurrencyModeFILO)
            && (Subscribers (stats c) >? 0) then
      Some ((c0, None, (None, Some conflictMessage)), w0)
    else
      ('(c2, r) ← Subscribe_lookup c0 since etg; mret (c2, Some 0, r)) w0.
Proof.
  unfold Subscribe_counted. erewrite bind_Some by reflexivity.
  unfold seconds. rewrite Nat.add_0_r.
  cbn [config with_stats stats Subscribers set_LastRequested]. cbv zeta.
  destruct (ConcurrencyMode (config c) =? ConcurrencyModeLIFO); [reflexivity|].
  destruct (_ && _); reflexivity.
Qed.

Lemma Subscribe_via_lookup w c since etg c1 w1 :
  lookup_state w c = Some (c1, w1) →
  Subscribe c since etg w = Subscribe_lookup c1 since etg w1.
Proof.
  unfold lookup_state, Subscribe. intros H.
  unfold mbind at 1, M_bind at 1. rewrite Subscribe_counted_unfold. cbv zeta.
  destruct (ConcurrencyMode (config c) =? ConcurrencyModeLIFO).
  - unfold mbind at 1, M_bind at 1.
    destruct (publish _ _ _ _) as [[[c1' n] w1']|]; [|done].
    injection H as -> ->.
    unfold mbind, M_bind. destruct (Subscribe_lookup c1 since etg w1) as [[[c2 r] w2]|]; done.
  - destruct (_ && _); [done|]. injection H as <- <-.
    unfold mbind, M_bind. destruct (Subscribe_lookup _ since etg _) as [[[c2 r] w2]|]; done.
Qed.

(** ** Preservation of well-formedness, and runs *)

Lemma allocated_after_publish w c m msg p :
  allocated w p → allocated (after_publish w c m msg) p.
Proof.
  unfold allocated, after_publish. simpl. intros Hp.
  destruct (decide (p = m)) as [->|Hne].
  - rewrite lookup_insert_eq. by eexists.
  - by rewrite lookup_insert_ne.
Qed.

Lemma enqueue_elem c m q p : p ∈ enqueue c m q → p = m ∨ p ∈ queue c.
Proof.
  unfold enqueue, vector_Pop. destruct (q && _); [|by right].
  intros [->|Hp]%elem_of_cons; [by left|right].
  destruct (_ >=? _); [|done]. eapply elem_of_sublist; [exact Hp|apply sublist_take].
Qed.

Lemma publish_ok w c m q msg :
  heap w !! m = Some msg → chan_ok w c →
  chan_ok (after_publish w c m msg) (published w c m q).
Proof.
  intros Hm [Hnd Hop Hq Hl]. split; simpl.
  - constructor.
  - constructor.
  - rewrite Forall_forall in Hq |- *. intros p Hp.
    apply enqueue_elem in Hp as [->|Hp].
    + apply allocated_after_publish. by eexists.
    + by apply allocated_after_publish, Hq.
  - apply allocated_after_publish. by eexists.
Qed.

Lemma run_cons c o os w c1 out w1 :
  step c o w = Some ((c1, out), w1) →
  run c (o :: os) w = match run c1 os w1 with
                      | Some ((c', outs), w') => Some ((c', out :: outs), w')
                      | None => None
                      end.
Proof.
  intros H. simpl. erewrite bind_Some by exact H.
  unfold mbind, M_bind. by destruct (run c1 os w1) as [[[c' outs] w']|].
Qed.

Lemma step_publish c m q w c1 n w1 :
  Publish c m q w = Some ((c1, n), w1) →
  step c (OpPublish m q) w = Some ((c1, Sent n), w1).
Proof. intros H. simpl. by erewrite bind_Some by exact H. Qed.

Lemma take_app_take {A} (n : nat) (l k : list A) :
  take n (l ++ take n k) = take n (l ++ k).
Proof.
  rewrite !take_app, take_take. f_equal. f_equal. lia.
Qed.

(** One queued publish on a channel that respects its capacity. *)
Lemma publish_queue_step w c m msg :
  0 < ChannelCapacity (config c) ≤ max_int →
  heap w !! m = Some msg → chan_ok w c →
  Z.of_nat (length (queue c)) ≤ ChannelCapacity (config c) →
  Queued (stats c) = Z.of_nat (length (queue c)) →
  let c1 := published w c m true in
  Publish c m true w = Some ((c1, int (woken (chans w) (subscribers c))),
                             after_publish w c m msg)
  ∧ queue c1 = take (Z.to_nat (ChannelCapacity (config c))) (m :: queue c)
  ∧ Queued (stats c1) = Z.of_nat (length (queue c1))
  ∧ (if Z.of_nat (length (queue c)) =? ChannelCapacity (config c)
     then (∃ front oldest, queue c = front ++ [oldest] ∧ queue c1 = m :: front)
          ∧ Queued (stats c1) = Queued (stats c)
     else queue c1 = m :: queue c ∧ Queued (stats c1) = Queued (stats c) + 1).
Proof.
  intros Hcap Hm Hok Hlen Hqd c1.
  split; [by apply publish_run|].
  assert ((ChannelCapacity (config c) >? 0) = true) as Hpos by (apply Z.gtb_lt; lia).
  unfold c1. simpl. unfold enqueue. rewrite Hpos. simpl.
  destruct (Z.eqb_spec (Z.of_nat (length (queue c))) (ChannelCapacity (config c)))
    as [Hfull|Hroom].
  - assert ((Z.of_nat (length (queue c)) >=? ChannelCapacity (config c)) = true) as ->
      by (apply Z.geb_le; lia).
    simpl. unfold vector_Pop.
    destruct (Z.to_nat (ChannelCapacity (config c))) as [|k] eqn:Hk; [lia|].
    assert (length (queue c) = S k) as Hl by lia.
    rewrite Hl. simpl. rewrite Nat.sub_0_r. repeat split.
    + rewrite length_take. lia.
    + destruct (queue c) as [|x q] eqn:Hq using rev_ind; [done|].
      exists q, x. split; [done|]. rewrite length_app in Hl. simpl in Hl.
      rewrite take_app_length'; [done|lia].
  - assert ((Z.of_nat (length (queue c)) >=? ChannelCapacity (config c)) = false) as ->
      by (rewrite Z.geb_leb; apply Z.leb_gt; lia).
    simpl. rewrite Hqd.
    assert (int (Z.of_nat (length (queue c)) + 1) = Z.of_nat (length (queue c)) + 1) as ->.
    { apply int_small. unfold max_int in *. lia. }
    destruct (Z.to_nat (ChannelCapacity (config c))) as [|k] eqn:Hk; [lia|]. simpl.
    rewrite take_ge by lia. repeat split; lia.
Qed.

(** ** A new channel *)

(** [newChannel] returns a well-formed channel with an empty queue, no last
    message, no subscriber and all counters at zero. *)
Lemma newChannel_fresh id cfg w :
  ∃ c, newChannel id cfg w = Some (c, with_ticks (S (ticks w)) w)
       ∧ chan_ok (with_ticks (S (ticks w)) w) c
       ∧ config c = cfg ∧ queue c = [] ∧ lastMessage c = None ∧ subscribers c = []
       ∧ Published (stats c) = 0 ∧ Delivered (stats c) = 0
       ∧ Subscribers (stats c) = 0 ∧ Queued (stats c) = 0.
Proof.
  eexists. split; [reflexivity|]. split; [|done].
  split; simpl; [apply NoDup_nil_2|constructor|constructor|done].
Qed.

(** ** The test data is well formed *)

Lemma idle_channel_ok cfg : chan_ok test_world (idle_channel cfg).
Proof. split; simpl; constructor. Qed.

Lemma parked_channel_ok cfg : chan_ok test_world (parked_channel cfg).
Proof.
  split; simpl; [|repeat constructor; by eexists|constructor|done].
  apply NoDup_cons. split; [|apply NoDup_singleton].
  by intros ?%list_elem_of_singleton.
Qed.

Lemma test_world_allocated p : (p ≤ 6)%positive → allocated test_world p.
Proof.
  intros Hp. unfold allocated.
  assert (p = 1 ∨ p = 2 ∨ p = 3 ∨ p = 4 ∨ p = 5 ∨ p = 6)%positive as Hcases by lia.
  destruct Hcases as [->|[->|[->|[->|[->| ->]]]]]; by eexists.
Qed.

(** ** The sort of [GC] *)

Lemma Swap_id cs i j cs' : Swap cs i j = Some cs' → cs' = cs.
Proof.
  unfold Swap. intros H.
  destruct (cs !! i) as [ci|] eqn:Hi; [|done].
  destruct (cs !! j) as [cj|] eqn:Hj; [|done]. simpl in H.
  injection H as <-. rewrite (list_insert_id _ _ _ Hi). by apply list_insert_id.
Qed.

Lemma sift_id j : ∀ cs cs', sift cs j = Some cs' → cs' = cs.
Proof.
  induction j as [|j IH]; intros cs cs' H; simpl in H; [congruence|].
  destruct (Less cs (S j) j) as [[]|]; simpl in H; [|congruence|done].
  destruct (Swap cs (S j) j) as [cs1|] eqn:Hsw; [|done]. simpl in H.
  apply Swap_id in Hsw as ->. by apply IH.
Qed.

(** [Swap] assigns to each element its own value, so the sort leaves the
    slice in the order in which [range] filled it. *)
Lemma sort_Sort_id cs cs' : sort_Sort cs = Some cs' → cs' = cs.
Proof.
  unfold sort_Sort. generalize (seq 1 (length cs - 1)). intros l. revert cs cs'.
  assert (∀ (acc : option (list channel)) cs cs',
            (∀ a, acc = Some a → a = cs) →
            foldl (λ acc i, cs' ← acc; sift cs' i) acc l = Some cs' → cs' = cs) as H.
  { induction l as [|i l IH]; intros acc cs cs' Hacc H; simpl in H.
    - by apply Hacc.
    - eapply IH; [|exact H]. intros a Ha.
      destruct acc as [a0|]; [|done]. simpl in Ha. apply sift_id in Ha as ->. by apply Hacc. }
  intros cs cs'. apply H. by intros a [= <-].
Qed.

(** ** Chains and sorted lists *)

Lemma stamp_lt_trans a b c : stamp_lt a b → stamp_lt b c → stamp_lt a c.
Proof. unfold stamp_lt. lia. Qed.

Lemma stamp_lt_irrefl a : ¬ stamp_lt a a.
Proof. unfold stamp_lt. lia. Qed.

Lemma chain_nil {A} (R : relation A) : chain R [].
Proof. intros i x y H. by rewrite lookup_nil in H. Qed.

Lemma chain_singleton {A} (R : relation A) x : chain R [x].
Proof. intros i a b _ H. by rewrite lookup_cons, lookup_nil in H. Qed.

Lemma chain_cons_inv {A} (R : relation A) x l : chain R (x :: l) → chain R l.
Proof. intros H i a b Ha Hb. by apply (H (S i)). Qed.

Lemma chain_snoc {A} (R : relation A) l x :
  chain R l → (∀ y, last l = Some y → R y x) → chain R (l ++ [x]).
Proof.
  intros Hl Hx i a b Ha Hb.
  destruct (decide (S i < length l)%nat) as [Hlt|Hge].
  - rewrite lookup_app_l in Ha, Hb by lia. by eapply Hl.
  - assert (S i = length l) as Hi.
    { apply lookup_lt_Some in Hb. rewrite length_app in Hb. simpl in Hb. lia. }
    rewrite lookup_app_l in Ha by lia.
    rewrite lookup_app_r, Hi, Nat.sub_diag in Hb by lia. injection Hb as <-.
    apply Hx. rewrite last_lookup. rewrite <- Hi. simpl. exact Ha.
Qed.

Lemma chain_impl {A} (R R' : relation A) l :
  (∀ x y, R x y → R' x y) → chain R l → chain R' l.
Proof. intros HR H i x y Hx Hy. eapply HR, H; eauto. Qed.

Lemma chain_StronglySorted {A} (R : relation A) l :
  Transitive R → chain R l → StronglySorted R l.
Proof.
  intros HT. induction l as [|x l IH]; intros H; [constructor|].
  constructor; [apply IH; by eapply chain_cons_inv|].
  clear IH. revert x H. induction l as [|y l IH]; intros x H; [constructor|].
  assert (R x y) as Hxy by (by apply (H 0%nat)).
  constructor; [done|].
  apply IH. intros [|i] a b Ha Hb.
  - simpl in Ha. injection Ha as <-. etrans; [exact Hxy|]. by apply (H 1%nat y b).
  - by apply (H (S (S i))).
Qed.

Lemma StronglySorted_reverse {A} (R : relation A) l :
  StronglySorted R l → StronglySorted (flip R) (reverse l).
Proof.
  induction 1 as [|x l Hl IH Hx]; [rewrite reverse_nil; constructor|].
  rewrite reverse_cons. apply StronglySorted_app_2; [|exact IH|by repeat constructor].
  intros a b Ha Hb. apply list_elem_of_singleton in Hb as ->.
  rewrite elem_of_reverse in Ha. rewrite Forall_forall in Hx. unfold flip. by apply Hx.
Qed.

Lemma StronglySorted_sublist {A} (R : relation A) l k :
  l `sublist_of` k → StronglySorted R k → StronglySorted R l.
Proof.
  intros Hsub Hk. revert l Hsub. induction Hk as [|x k Hk IH Hx]; intros l Hsub.
  - apply sublist_nil_r in Hsub as ->. constructor.
  - apply sublist_cons_r in Hsub as [Hsub|(l' & -> & Hsub)]; [by apply IH|].
    constructor; [by apply IH|].
    rewrite Forall_forall in Hx |- *. intros y Hy. apply Hx.
    by eapply elem_of_sublist.
Qed.

Lemma stamp_of_insert_ne h m msg p : p ≠ m → stamp_of (<[m := msg]> h) p = stamp_of h p.
Proof. intros Hne. unfold stamp_of. by rewrite lookup_insert_ne. Qed.

Lemma stamp_of_insert_eq h m msg : stamp_of (<[m := msg]> h) m = (time msg, etag msg).
Proof. unfold stamp_of. by rewrite lookup_insert_eq. Qed.

Lemma seconds_mono w k : monotone_clock w → seconds w 0 ≤ clock w (ticks w + k) `div` 10 ^ 9.
Proof.
  intros Hm. unfold seconds. apply Z.div_le_mono; [lia|]. apply Hm. lia.
Qed.

Lemma enqueue_sublist c m q l :
  queue c `sublist_of` l → enqueue c m q `sublist_of` m :: l.
Proof.
  intros H. unfold enqueue, vector_Pop. destruct (q && _); [|by apply sublist_cons].
  apply sublist_skip. destruct (_ >=? _); [|done].
  etrans; [apply sublist_take|done].
Qed.

Lemma test_world_monotone : monotone_clock test_world.
Proof. intros i j Hij. simpl. lia. Qed.

(** ** Inversion of the monad, and the counters *)

Lemma bind_inv {A B} (m : M A) (f : A → M B) w r :
  (m ≫= f) w = Some r → ∃ a w1, m w = Some (a, w1) ∧ f a w1 = Some r.
Proof.
  unfold mbind, M_bind. destruct (m w) as [[a w1]|]; [|done]. eauto.
Qed.

Lemma mret_inv {A} (a : A) w r : (mret a : M A) w = Some r → r = (a, w).
Proof. by intros [= <-]. Qed.

Ltac int64_norm :=
  repeat (rewrite int64_add_l || rewrite <- Z.add_assoc); f_equal; lia.

Ltac bind_inv H :=
  let a := fresh "a" in let w := fresh "w" in let Ha := fresh "Ha" in
  apply bind_inv in H as (a & w & Ha & H).

(** What [publish] does to the counters, whenever it returns. *)
Lemma publish_counters c m q w c' n w' :
  publish c m q w = Some ((c', n), w') →
  config c' = config c
  ∧ Published (stats c') = int64 (Published (stats c) + 1)
  ∧ Delivered (stats c') = int64 (Delivered (stats c) + n)
  ∧ subscribers c' = []
  ∧ Subscribers (stats c') = 0.
Proof.
  intros H. unfold publish in H.
  do 8 (bind_inv H; clear Ha). apply mret_inv in H.
  injection H as Hc Hn Hw. subst c' n w'. cbn [config with_stats with_lastMessage with_subscribers stats].
  destruct (q && (ChannelCapacity (config c) >? 0)); [|done].
  destruct (Z.of_nat (length (queue c)) >=? ChannelCapacity (config c)); done.
Qed.

Lemma list_Len_snoc l x : int (list_Len l + 1) = list_Len (l ++ [x]).
Proof.
  unfold list_Len. rewrite int_add_l, length_app. simpl. f_equal. lia.
Qed.

Lemma Subscribe_lookup_counters c since etg w c' r w' :
  Subscribe_lookup c since etg w = Some ((c', r), w') →
  config c' = config c
  ∧ Published (stats c') = Published (stats c)
  ∧ Delivered (stats c')
    = match r.2 with
      | Some _ => int64 (Delivered (stats c) + 1)
      | None => Delivered (stats c)
      end
  ∧ (Subscribers (stats c) = list_Len (subscribers c) →
     Subscribers (stats c') = list_Len (subscribers c')).
Proof.
  intros H. unfold Subscribe_lookup in H. bind_inv H. clear Ha.
  destruct a as [m|].
  - apply mret_inv in H. injection H as -> -> ->. done.
  - destruct (PollingMechanism (config c) =? PollingMechanismInterval).
    + apply mret_inv in H. injection H as -> -> ->. done.
    + bind_inv H. clear Ha. apply mret_inv in H. injection H as -> -> ->. simpl.
      repeat split. intros ->. apply list_Len_snoc.
Qed.

Lemma Subscribe_counted_counters c since etg w c' g r w' P D :
  Subscribe_counted c since etg w = Some ((c', g, r), w') →
  Published (stats c) = int64 P →
  Delivered (stats c) = int64 D →
  Subscribers (stats c) = list_Len (subscribers c) →
  let out := match g with Some k => Answered k r.1 r.2 | None => Refused end in
  config c' = config c
  ∧ Published (stats c')
    = int64 (P + if ConcurrencyMode (config c) =? ConcurrencyModeLIFO then 1 else 0)
  ∧ Delivered (stats c') = int64 (D + delivered_count out + immediate_hit out)
  ∧ Subscribers (stats c') = list_Len (subscribers c').
Proof.
  intros H HP HD HS out. rewrite Subscribe_counted_unfold in H. cbv zeta in H.
  set (c0 := with_stats _ c) in H.
  destruct (ConcurrencyMode (config c) =? ConcurrencyModeLIFO).
  - bind_inv H. destruct a as [c1 n].
    apply publish_counters in Ha as (Hcfg & HP1 & HD1 & Hsubs1 & HS1).
    bind_inv H. destruct a as [c2 r2]. apply mret_inv in H. injection H as -> -> -> ->.
    apply Subscribe_lookup_counters in Ha as (Hcfg2 & HP2 & HD2 & HS2).
    simpl in *. split; [congruence|]. split; [|split].
    + by rewrite HP2, HP1, HP, int64_add_l.
    + rewrite HD2, HD1, HD. destruct r2 as [e [m|]]; simpl; int64_norm.
    + apply HS2. by rewrite Hsubs1, HS1.
  - destruct (_ && _).
    + injection H as <- <- <- <-. simpl. rewrite HP, HD, !Z.add_0_r. done.
    + bind_inv H. destruct a as [c2 r2]. apply mret_inv in H. injection H as -> -> -> ->.
      apply Subscribe_lookup_counters in Ha as (Hcfg2 & HP2 & HD2 & HS2).
      simpl in *. split; [congruence|]. split; [|split].
      * by rewrite HP2, HP, Z.add_0_r.
      * rewrite HD2, HD. destruct r2 as [e [m|]]; simpl; int64_norm.
      * by apply HS2.
Qed.

Lemma step_counters c o w c' out w' P D :
  step c o w = Some ((c', out), w') →
  Published (stats c) = int64 P →
  Delivered (stats c) = int64 D →
  Subscribers (stats c) = list_Len (subscribers c) →
  config c' = config c
  ∧ Published (stats c')
    = int64 (P + (if is_publish_call o then 1 else 0)
               + (if ConcurrencyMode (config c) =? ConcurrencyModeLIFO
                  then (if is_subscribe_call o then 1 else 0) else 0))
  ∧ Delivered (stats c') = int64 (D + delivered_count out + immediate_hit out)
  ∧ Subscribers (stats c') = list_Len (subscribers c').
Proof.
  intros H HP HD HS. destruct o as [m q|s q|since etg|elem|elem]; simpl in H.
  - bind_inv H. destruct a as [c1 n]. apply mret_inv in H. injection H as -> -> ->.
    apply publish_counters in Ha as (Hcfg & HP1 & HD1 & Hsubs1 & HS1).
    simpl. rewrite Hcfg, HP1, HD1, HP, HD, !int64_add_l, Hsubs1, HS1.
    repeat split; [f_equal; destruct (_ =? _); lia|f_equal; lia].
  - bind_inv H. destruct a as [c1 n]. apply mret_inv in H. injection H as -> -> ->.
    unfold PublishString in Ha. bind_inv Ha. clear Ha0.
    apply publish_counters in Ha as (Hcfg & HP1 & HD1 & Hsubs1 & HS1).
    simpl. rewrite Hcfg, HP1, HD1, HP, HD, !int64_add_l, Hsubs1, HS1.
    repeat split; [f_equal; destruct (_ =? _); lia|f_equal; lia].
  - bind_inv H. destruct a as [[c1 g] r]. apply mret_inv in H. injection H as -> -> ->.
    destruct (Subscribe_counted_counters _ _ _ _ _ _ _ _ P D Ha HP HD HS)
      as (Hcfg & HP1 & HD1 & HS1).
    simpl. repeat split; try done. rewrite HP1. f_equal. destruct (_ =? _); lia.
  - bind_inv H. apply mret_inv in H. injection H as -> -> ->.
    unfold Unsubscribe in Ha. bind_inv Ha. clear Ha0. apply mret_inv in Ha.
    injection Ha as -> ->. simpl. rewrite HP, HD, !Z.add_0_r.
    repeat split; f_equal; destruct (_ =? _); lia.
  - bind_inv H. clear Ha. apply mret_inv in H. injection H as -> -> ->.
    simpl. rewrite HP, HD, !Z.add_0_r.
    repeat split; [f_equal; destruct (_ =? _); lia|done].
Qed.

Lemma run_counters os : ∀ c w c' outs w' P D,
  run c os w = Some ((c', outs), w') →
  Published (stats c) = int64 P →
  Delivered (stats c) = int64 D →
  Subscribers (stats c) = list_Len (subscribers c) →
  config c' = config c
  ∧ Published (stats c')
    = int64 (P + count_ops is_publish_call os
               + (if ConcurrencyMode (config c) =? ConcurrencyModeLIFO
                  then count_ops is_subscribe_call os else 0))
  ∧ Delivered (stats c')
    = int64 (D + total delivered_count outs + total immediate_hit outs)
  ∧ Subscribers (stats c') = list_Len (subscribers c').
Proof.
  induction os as [|o os IH]; intros c w c' outs w' P D H HP HD HS.
  - apply mret_inv in H. injection H as -> -> ->. simpl.
    rewrite HP, HD, !Z.add_0_r. repeat split; [|done]. f_equal. destruct (_ =? _); lia.
  - simpl in H. bind_inv H. destruct a as [c1 out].
    bind_inv H. destruct a as [c2 outs2]. apply mret_inv in H. injection H as -> -> ->.
    destruct (step_counters _ _ _ _ _ _ P D Ha HP HD HS) as (Hcfg & HP1 & HD1 & HS1).
    destruct (IH _ _ _ _ _ _ _ Ha0 HP1 HD1 HS1) as (Hcfg2 & HP2 & HD2 & HS2).
    rewrite Hcfg2, Hcfg, HP2, HD2, Hcfg. simpl. repeat split; [| |done].
    + f_equal. destruct (_ =? _); lia.
    + f_equal. lia.
Qed.

(** ** Only stamps change in the heap *)

Lemma same_content_refl w : same_content w w.
Proof. intros p m H. eauto. Qed.

Lemma same_content_trans w1 w2 w3 :
  same_content w1 w2 → same_content w2 w3 → same_content w1 w3.
Proof.
  intros H12 H23 p m Hm. destruct (H12 p m Hm) as (m2 & Hm2 & Hc & Hp & Hs).
  destruct (H23 p m2 Hm2) as (m3 & Hm3 & Hc3 & Hp3 & Hs3).
  exists m3. repeat split; congruence.
Qed.

Lemma same_content_heap w w' : heap w' = heap w → same_content w w'.
Proof. intros H p m Hm. rewrite H. eauto. Qed.

Lemma time_Seconds_heap w a w' : time_Seconds w = Some (a, w') → heap w' = heap w.
Proof. by intros [= _ <-]. Qed.

Lemma load_inv p w m w' : load p w = Some (m, w') → w' = w ∧ heap w !! p = Some m.
Proof. unfold load. destruct (heap w !! p); [|done]. by intros [= <- <-]. Qed.

Lemma store_same_content p m w u w' msg :
  heap w !! p = Some msg →
  ContentType m = ContentType msg → Payload m = Payload msg → Status m = Status msg →
  store p m w = Some (u, w') → same_content w w'.
Proof.
  intros Hp Hc Hpl Hs H. unfold store in H. rewrite Hp in H. injection H as _ <-.
  intros q mq Hq. simpl. destruct (decide (q = p)) as [->|Hne].
  - rewrite lookup_insert_eq. exists m. repeat split; congruence.
  - rewrite lookup_insert_ne by done. eauto.
Qed.

Lemma try_send_heap s m w b w' : try_send s m w = Some (b, w') → heap w' = heap w.
Proof.
  unfold try_send. destruct (chans w !! s) as [sl|]; [|done].
  destruct (closed sl); [done|]. destruct (waiting sl); by intros [= _ <-].
Qed.

Lemma close_heap s w u w' : close s w = Some (u, w') → heap w' = heap w.
Proof.
  unfold close. destruct (chans w !! s) as [sl|]; [|done].
  destruct (closed sl); [done|]. by intros [= _ <-].
Qed.

Lemma await_heap s w u w' : await s w = Some (u, w') → heap w' = heap w.
Proof.
  unfold await. destruct (chans w !! s) as [sl|]; [|done].
  destruct (closed sl); by intros [= _ <-].
Qed.

Lemma handoff_heap subs m : ∀ n w n' w', handoff subs m n w = Some (n', w') → heap w' = heap w.
Proof.
  induction subs as [|s subs IH]; intros n w n' w' H; simpl in H.
  - by injection H as _ <-.
  - bind_inv H. apply try_send_heap in Ha. bind_inv H. apply close_heap in Ha0.
    apply IH in H. congruence.
Qed.

Lemma publish_same_content c m q w r w' : publish c m q w = Some (r, w') → same_content w w'.
Proof.
  intros H. unfold publish in H.
  apply bind_inv in H as (now & w1 & H1 & H). apply time_Seconds_heap in H1.
  apply bind_inv in H as (msg & w2 & H2 & H). apply load_inv in H2 as [-> Hm0].
  apply bind_inv in H as (u3 & w3 & H3 & H).
  eapply store_same_content in H3; [|exact Hm0|done..].
  apply bind_inv in H as (msg' & w4 & H4 & H). apply load_inv in H4 as [-> Hm1].
  apply bind_inv in H as (u5 & w5 & H5 & H).
  eapply store_same_content in H5; [|exact Hm1|done..].
  apply bind_inv in H as (u6 & w6 & H6 & H).
  assert (same_content w5 w6) as H56.
  { destruct (lastMessage c) as [lm|].
    - apply bind_inv in H6 as (last & w7 & H7 & H6). apply load_inv in H7 as [-> _].
      apply bind_inv in H6 as (msg2 & w8 & H8 & H6). apply load_inv in H8 as [-> Hm2].
      destruct (_ =? _).
      + eapply store_same_content in H6; [done|exact Hm2|done..].
      + apply mret_inv in H6. injection H6 as _ ->. apply same_content_refl.
    - apply mret_inv in H6. injection H6 as _ ->. apply same_content_refl. }
  apply bind_inv in H as (now2 & w7 & H7 & H). apply time_Seconds_heap in H7.
  apply bind_inv in H as (n & w8 & H8 & H). apply handoff_heap in H8.
  apply mret_inv in H. injection H as _ ->.
  eapply same_content_trans; [apply same_content_heap, H1|].
  eapply same_content_trans; [exact H3|].
  eapply same_content_trans; [exact H5|].
  eapply same_content_trans; [exact H56|].
  apply same_content_heap. congruence.
Qed.

Lemma history_heap q i since etg : ∀ w r w', history q i since etg w = Some (r, w') → w' = w.
Proof.
  induction i as [|i IH]; intros w r w' H; simpl in H.
  - by injection H as _ <-.
  - destruct (q !! i) as [p|]; [|done]. bind_inv H. apply load_inv in Ha as [-> _].
    destruct (_ >=? _); [destruct (_ && _)|]; try by apply IH in H.
    by injection H as _ <-.
Qed.

Lemma Subscribe_lookup_heap c since etg w r w' :
  Subscribe_lookup c since etg w = Some (r, w') → heap w' = heap w.
Proof.
  intros H. unfold Subscribe_lookup in H. bind_inv H. apply history_heap in Ha as ->.
  destruct a as [m|].
  - by injection H as _ <-.
  - destruct (_ =? _); [by injection H as _ <-|].
    bind_inv H. injection Ha as _ <-. by injection H as _ <-.
Qed.

Lemma step_same_content c o w r w' : step c o w = Some (r, w') → same_content w w'.
Proof.
  intros H. destruct o as [m q|s q|since etg|elem|elem]; simpl in H.
  - bind_inv H. destruct a as [c1 n]. apply mret_inv in H. simplify_eq.
    by eapply publish_same_content.
  - bind_inv H. destruct a as [c1 n]. apply mret_inv in H. simplify_eq.
    unfold PublishString in Ha. bind_inv Ha. apply publish_same_content in Ha.
    eapply same_content_trans; [|exact Ha].
    injection Ha0 as <- <-. intros p m Hm. simpl.
    rewrite lookup_insert_ne; [eauto|]. intros <-.
    pose proof (is_fresh (dom (heap w))) as Hf. apply not_elem_of_dom in Hf. congruence.
  - bind_inv H. destruct a as [[c1 g] r1]. apply mret_inv in H. simplify_eq.
    rewrite Subscribe_counted_unfold in Ha. cbv zeta in Ha.
    destruct (_ =? _).
    + bind_inv Ha. destruct a as [c2 n]. apply publish_same_content in Ha0.
      bind_inv Ha. destruct a as [c3 r3]. apply Subscribe_lookup_heap in Ha1.
      apply mret_inv in Ha. simplify_eq.
      eapply same_content_trans; [exact Ha0|]. apply same_content_heap; simpl in *; congruence.
    + destruct (_ && _).
      * simplify_eq. apply same_content_heap; simpl in *; congruence.
      * bind_inv Ha. destruct a as [c3 r3]. apply Subscribe_lookup_heap in Ha0.
        apply mret_inv in Ha. simplify_eq. apply same_content_heap; simpl in *; congruence.
  - bind_inv H. apply mret_inv in H. simplify_eq.
    unfold Unsubscribe in Ha. bind_inv Ha. apply close_heap in Ha0.
    apply mret_inv in Ha. simplify_eq. apply same_content_heap; simpl in *; congruence.
  - bind_inv H. apply await_heap in Ha. apply mret_inv in H. simplify_eq.
    apply same_content_heap; simpl in *; congruence.
Qed.

Lemma run_same_content os : ∀ c w r w', run c os w = Some (r, w') → same_content w w'.
Proof.
  induction os as [|o os IH]; intros c w r w' H; simpl in H.
  - injection H as _ <-. apply same_content_refl.
  - bind_inv H. destruct a as [c1 out]. apply step_same_content in Ha.
    bind_inv H. destruct a as [c2 outs]. apply IH in Ha0.
    apply mret_inv in H. simplify_eq. by eapply same_content_trans.
Qed.

(** In every store that a run reaches from the initial one, the two
    synthetic messages have their status and no body. *)
Lemma synthetic_content_invariant clk c os r w' :
  run c os (init_world clk) = Some (r, w') →
  (∃ cm, heap w' !! conflictMessage = Some cm
         ∧ Status cm = StatusConflict ∧ Payload cm = None)
  ∧ (∃ gm, heap w' !! goneMessage = Some gm ∧ Status gm = StatusGone ∧ Payload gm = None).
Proof.
  intros H. apply run_same_content in H. split.
  - destruct (H conflictMessage _ eq_refl) as (cm & Hcm & _ & Hp & Hs). eauto.
  - destruct (H goneMessage _ eq_refl) as (gm & Hgm & _ & Hp & Hs). eauto.
Qed.

(** ** [Subscribe] in LIFO mode *)

Lemma chan_ok_requested w c now :
  chan_ok w c →
  chan_ok (with_ticks (S (ticks w)) w) (with_stats (set_LastRequested now (stats c)) c).
Proof. intros [Hnd Hop Hq Hl]. by split. Qed.

Lemma lookup_state_LIFO w c cm :
  ConcurrencyMode (config c) = ConcurrencyModeLIFO →
  chan_ok w c → heap w !! conflictMessage = Some cm →
  let w0 := with_ticks (S (ticks w)) w in
  let c0 := with_stats (set_LastRequested (seconds w 0) (stats c)) c in
  lookup_state w c = Some (published w0 c0 conflictMessage false,
                           after_publish w0 c0 conflictMessage cm)
  ∧ chan_ok (after_publish w0 c0 conflictMessage cm) (published w0 c0 conflictMessage false).
Proof.
  intros Hmode Hok Hcm w0 c0.
  assert (chan_ok w0 c0) as Hok0 by (by apply chan_ok_requested).
  split; [|by apply publish_ok].
  unfold lookup_state. rewrite Hmode, Z.eqb_refl.
  fold w0 c0. by rewrite (publish_run w0 c0 conflictMessage false cm Hcm Hok0).
Qed.

Lemma fresh_slot_unused (ch : gmap positive Slot) : ch !! fresh (dom ch) = None.
Proof. apply not_elem_of_dom, is_fresh. Qed.




Lemma parked_LIFO_ok : chan_ok test_world (parked_channel lifoConf).
Proof. apply parked_channel_ok. Qed.

(** ** Progress: enabled operations do not panic *)

Lemma chan_ok_ext w w' c c' :
  subscribers c' = subscribers c → queue c' = queue c → lastMessage c' = lastMessage c →
  chans w' = chans w →
  (∀ p, allocated w p → allocated w' p) →
  chan_ok w c → chan_ok w' c'.
Proof.
  intros Hs Hq Hl Hch Hh [Hnd Hop Hqa Hla]. split.
  - by rewrite Hs.
  - rewrite Hs. eapply Forall_impl; [exact Hop|]. intros s. apply slot_open_ext. by rewrite Hch.
  - rewrite Hq. eapply Forall_impl; [exact Hqa|]. exact Hh.
  - rewrite Hl. destruct (lastMessage c); simpl in *; [by apply Hh|done].
Qed.

Lemma subscribers_in_dom w c s : chan_ok w c → s ∈ subscribers c → is_Some (chans w !! s).
Proof.
  intros [_ Hop _ _] Hs. rewrite Forall_forall in Hop.
  destruct (Hop s Hs) as (sl & Hsl & _). by eexists.
Qed.

Lemma Subscribe_lookup_progress w c since etg :
  chan_ok w c →
  ∃ c' r w', Subscribe_lookup c since etg w = Some ((c', r), w')
             ∧ chan_ok w' c' ∧ heap w' = heap w
             ∧ ∀ s, is_Some (chans w !! s) → chans w' !! s = chans w !! s.
Proof.
  intros Hok. pose proof Hok as [Hnd Hop Hq Hl].
  destruct (List.find (newer_than (heap w) since etg) (reverse (queue c))) as [p|] eqn:Hfind.
  - eexists _, _, _. split; [by apply Subscribe_lookup_hit|]. split; [|done].
    by eapply chan_ok_ext; [..|exact Hok].
  - rewrite (Subscribe_lookup_miss w c since etg Hq Hfind).
    destruct (_ =? _); [by eexists _, _, _|].
    set (ch := fresh (dom (chans w))).
    assert (chans w !! ch = None) as Hch by apply fresh_slot_unused.
    eexists _, _, _. split; [done|]. split; [|split; [done|]].
    2:{ intros s [sl Hsl]. simpl. rewrite lookup_insert_ne; [done|]. intros <-.
        fold ch in Hsl. congruence. }
    split; simpl.
    + apply NoDup_app. split; [done|]. split; [|apply NoDup_singleton].
      intros s Hs ->%list_elem_of_singleton.
      destruct (subscribers_in_dom w c ch Hok Hs) as [sl Hsl]. congruence.
    + apply Forall_app. split.
      * rewrite Forall_forall in Hop |- *. intros s Hs.
        destruct (Hop s Hs) as (sl & Hsl & Hcl). exists sl. split; [|done]. simpl.
        rewrite lookup_insert_ne; [done|]. intros <-. congruence.
      * constructor; [|constructor]. eexists. split; [apply lookup_insert_eq|done].
    + done.
    + done.
Qed.

Lemma step_progress w c o :
  chan_ok w c → allocated w conflictMessage → enabled w c o →
  ∃ c' out w', step c o w = Some ((c', out), w')
               ∧ chan_ok w' c' ∧ allocated w' conflictMessage.
Proof.
  intros Hok Hcm Hen. destruct o as [m q|s q|since etg|elem|elem]; simpl in Hen.
  - destruct Hen as [msg Hm].
    eexists _, _, _. split; [apply step_publish, (publish_run _ _ _ _ _ Hm Hok)|].
    split; [by apply publish_ok|by apply allocated_after_publish].
  - set (p := fresh (dom (heap w))).
    assert (heap w !! p = None) as Hp by apply not_elem_of_dom, is_fresh.
    set (msg := {| ContentType := "text/plain";
                   Payload := Some ((λ a, Ascii.byte_of_ascii a) <$> String.list_ascii_of_string s);
                   Status := StatusOK; etag := 0; time := 0 |}).
    set (w1 := {| heap := <[p := msg]> (heap w); chans := chans w; clock := clock w;
                  ticks := ticks w |}).
    assert (∀ x, allocated w x → allocated w1 x) as Hmono.
    { intros x [mx Hx]. unfold allocated, w1. simpl.
      rewrite lookup_insert_ne; [by eexists|]. intros <-. congruence. }
    assert (chan_ok w1 c) as Hok1 by (by eapply chan_ok_ext; [..|exact Hok]).
    assert (heap w1 !! p = Some msg) as Hm1 by apply lookup_insert_eq.
    assert (PublishString c s q w
            = Some ((published w1 c p q, int (woken (chans w1) (subscribers c))),
                    after_publish w1 c p msg)) as Hrun.
    { unfold PublishString. erewrite bind_Some by reflexivity.
      apply (publish_run w1 c p q msg Hm1 Hok1). }
    eexists _, _, _. split.
    + simpl. erewrite bind_Some by exact Hrun. reflexivity.
    + split; [by apply publish_ok|]. by apply allocated_after_publish, Hmono.
  - simpl. unfold mbind at 1, M_bind at 1. rewrite Subscribe_counted_unfold. cbv zeta.
    set (w0 := with_ticks (S (ticks w)) w).
    set (c0 := with_stats (set_LastRequested (seconds w 0) (stats c)) c).
    assert (chan_ok w0 c0) as Hok0 by (by apply chan_ok_requested).
    destruct (ConcurrencyMode (config c) =? ConcurrencyModeLIFO).
    + destruct Hcm as [cm Hcm].
      erewrite bind_Some
        by (apply (publish_run w0 c0 conflictMessage false cm Hcm Hok0)).
      pose proof (publish_ok w0 c0 conflictMessage false cm Hcm Hok0) as Hok1.
      destruct (Subscribe_lookup_progress _ _ since etg Hok1)
        as (c' & r & w' & Hrun & Hok' & Hheap & _).
      erewrite bind_Some by exact Hrun.
      eexists _, _, _. split; [reflexivity|]. split; [done|].
      unfold allocated. rewrite Hheap. simpl. rewrite lookup_insert_eq. by eexists.
    + destruct (_ && _).
      * by eexists _, _, _.
      * destruct (Subscribe_lookup_progress _ _ since etg Hok0)
          as (c' & r & w' & Hrun & Hok' & Hheap & _).
        erewrite bind_Some by exact Hrun.
        eexists _, _, _. split; [reflexivity|]. split; [done|].
        unfold allocated. by rewrite Hheap.
  - pose proof Hok as [Hnd Hop Hq Hl].
    rewrite Forall_forall in Hop. destruct (Hop elem Hen) as (sl & Hsl & Hcl).
    eexists _, _, _. split.
    + simpl. erewrite bind_Some; [reflexivity|]. unfold Unsubscribe.
      erewrite bind_Some by (by eapply close_open). reflexivity.
    + split; [|done]. split; simpl.
      * by apply NoDup_filter.
      * apply Forall_forall. intros s [Hne Hs]%list_elem_of_filter.
        destruct (Hop s Hs) as (sls & Hsls & Hcls). exists sls. split; [|done].
        simpl. by rewrite lookup_insert_ne.
      * done.
      * done.
  - destruct Hen as [sl Hsl].
    assert (∃ w', await elem w = Some ((), w') ∧ heap w' = heap w
                  ∧ ∀ s, slot_open w s → slot_open w' s) as (w' & Haw & Hheap & Hopen).
    { unfold await. rewrite Hsl. destruct (closed sl) eqn:Hcl.
      - by eexists.
      - eexists. split; [done|]. split; [done|]. intros s (sls & Hsls & Hcls).
        destruct (decide (s = elem)) as [->|Hne].
        + eexists. split; [apply lookup_insert_eq|done].
        + exists sls. split; [|done]. simpl. by rewrite lookup_insert_ne. }
    eexists _, _, _. split.
    + simpl. erewrite bind_Some by exact Haw. reflexivity.
    + split; [|unfold allocated; by rewrite Hheap].
      destruct Hok as [Hnd Hop Hq Hl]. split; [done| | |].
      * eapply Forall_impl; [exact Hop|]. exact Hopen.
      * unfold allocated. by rewrite Hheap.
      * unfold allocated. by rewrite Hheap.
Qed.

Lemma same_content_allocated w w' p : same_content w w' → allocated w p → allocated w' p.
Proof. intros H [m Hm]. destruct (H p m Hm) as (m' & Hm' & _). by eexists. Qed.

(** Runs of publishes and subscribes always complete. *)
Lemma run_completes os : ∀ w c,
  chan_ok w c → allocated w conflictMessage → Forall (always_enabled w) os →
  ∃ c' outs w', run c os w = Some ((c', outs), w').
Proof.
  induction os as [|o os IH]; intros w c Hok Hcm Hen.
  - by eexists _, _, _.
  - apply Forall_cons in Hen as [Ho Hos].
    destruct (step_progress w c o Hok Hcm) as (c1 & out & w1 & Hstep & Hok1 & Hcm1).
    { by destruct o. }
    destruct (IH w1 c1 Hok1 Hcm1) as (c' & outs & w' & Hrun).
    { eapply Forall_impl; [exact Hos|]. intros o'. destruct o'; simpl; try done.
      apply same_content_allocated. by eapply step_same_content. }
    exists c', (out :: outs), w'. erewrite run_cons by exact Hstep. by rewrite Hrun.
Qed.

(** ** Republishing the Conflict message *)

(** The Conflict message is one object that every [Subscribe] of LIFO mode
    publishes again: after two of them within one second the next message
    is stamped like an earlier one. *)
Lemma LIFO_subscribes_reuse_an_etag :
  ∃ c' outs w',
    run (idle_channel (with_mode ConcurrencyModeLIFO intervalConf)) lifo_interval_ops
      frozen_world = Some ((c', outs), w')
    ∧ queue c' = [6; 5; 4]%positive
    ∧ stamp_of (heap w') 5%positive = (7, 2)
    ∧ stamp_of (heap w') 6%positive = (7, 2).
Proof. eexists _, _, _. split; [vm_compute; reflexivity|]. by repeat split. Qed.

(** ** What [Subscribe] did when it returned a wait-slot *)

Lemma lookup_state_ok w c c1 w1 :
  chan_ok w c → lookup_state w c = Some (c1, w1) →
  chan_ok w1 c1 ∧ (∀ p, allocated w p → allocated w1 p)
  ∧ (∀ s, s ∉ subscribers c → chans w1 !! s = chans w !! s)
  ∧ (subscribers c1 = subscribers c ∨ subscribers c1 = [])
  ∧ config c1 = config c.
Proof.
  intros Hok H. unfold lookup_state in H.
  set (w0 := with_ticks (S (ticks w)) w) in *.
  set (c0 := with_stats (set_LastRequested (seconds w 0) (stats c)) c) in *.
  assert (chan_ok w0 c0) as Hok0 by (by apply chan_ok_requested).
  destruct (ConcurrencyMode (config c) =? ConcurrencyModeLIFO).
  - destruct (publish c0 conflictMessage false w0) as [[[c1' n] w1']|] eqn:Hp; [|done].
    injection H as -> ->.
    assert (∃ cm, heap w0 !! conflictMessage = Some cm) as [cm Hcm].
    { unfold publish in Hp. bind_inv Hp. unfold time_Seconds in Ha.
      injection Ha as Ha1 Ha2. subst a w2.
      bind_inv Hp. apply load_inv in Ha as [_ Hl]. by eexists. }
    rewrite (publish_run w0 c0 conflictMessage false cm Hcm Hok0) in Hp.
    injection Hp as <- _ <-. split; [by apply publish_ok|]. split; [|split].
    + intros p Hp. by apply allocated_after_publish.
    + intros s Hs. simpl. by rewrite kick_all_notin.
    + split; [by right|done].
  - destruct (_ && _); [done|]. injection H as <- <-. split; [done|].
    do 2 (split; [done|]). split; [by left|done].
Qed.

Lemma Subscribe_inv w c since etg c' r w' :
  Subscribe c since etg w = Some ((c', r), w') →
  (∃ c1 w1, lookup_state w c = Some (c1, w1)
            ∧ Subscribe_lookup c1 since etg w1 = Some ((c', r), w'))
  ∨ (lookup_state w c = None ∧ r = (None, Some conflictMessage)
     ∧ c' = with_stats (set_LastRequested (seconds w 0) (stats c)) c
     ∧ w' = with_ticks (S (ticks w)) w).
Proof.
  intros H. unfold Subscribe in H.
  apply bind_inv in H as ([[c2 g] r2] & w2 & Hc & H).
  apply mret_inv in H. injection H as -> -> ->.
  rewrite Subscribe_counted_unfold in Hc. cbv zeta in Hc. unfold lookup_state.
  destruct (ConcurrencyMode (config c) =? ConcurrencyModeLIFO).
  - apply bind_inv in Hc as ([c1 n] & w1 & Hp & Hc). rewrite Hp. left.
    exists c1, w1. split; [done|].
    apply bind_inv in Hc as ([c3 r3] & w3 & Hl & Hc). apply mret_inv in Hc. by simplify_eq.
  - destruct (_ && _).
    + right. by simplify_eq.
    + left. eexists _, _. split; [done|].
      apply bind_inv in Hc as ([c3 r3] & w3 & Hl & Hc). apply mret_inv in Hc. by simplify_eq.
Qed.

Lemma Subscribe_lookup_parks w c since etg c' ch m w' :
  chan_ok w c →
  Subscribe_lookup c since etg w = Some ((c', (Some ch, m)), w') →
  m = None ∧ ch = fresh (dom (chans w))
  ∧ c' = with_stats (set_Subscribers (int (Subscribers (stats c) + 1)) (stats c))
           (with_subscribers (subscribers c ++ [ch]) c)
  ∧ w' = {| heap := heap w;
            chans := <[ch := {| waiting := false; received := None; closed := false |}]>
                       (chans w);
            clock := clock w; ticks := ticks w |}
  ∧ ch ∉ subscribers c.
Proof.
  intros Hok H. pose proof Hok as [_ _ Hq _].
  destruct (List.find (newer_than (heap w) since etg) (reverse (queue c))) as [p|] eqn:Hfind.
  - rewrite (Subscribe_lookup_hit w c since etg p Hq Hfind) in H. done.
  - rewrite (Subscribe_lookup_miss w c since etg Hq Hfind) in H.
    destruct (_ =? _); [done|]. cbv zeta in H. injection H as <- <- <- <-.
    repeat split. intros Hin.
    destruct (subscribers_in_dom w c _ Hok Hin) as [sl Hsl].
    by rewrite fresh_slot_unused in Hsl.
Qed.

Lemma woken_waiting ch subs s :
  s ∈ subs → is_waiting ch s = true → 1 ≤ woken ch subs.
Proof.
  induction subs as [|x subs IH]; intros Hs Hw; [by apply elem_of_nil in Hs|].
  simpl. pose proof (woken_bounds ch subs).
  apply elem_of_cons in Hs as [<-|Hs].
  - rewrite Hw. lia.
  - specialize (IH Hs Hw). destruct (is_waiting ch x); lia.
Qed.

Lemma Subscribe_parks w c since etg c' ch m w' :
  chan_ok w c →
  Subscribe c since etg w = Some ((c', (Some ch, m)), w') →
  ∃ c1 w1,
    lookup_state w c = Some (c1, w1) ∧ chan_ok w1 c1
    ∧ (∀ p, allocated w p → allocated w1 p)
    ∧ (∀ s, s ∉ subscribers c → chans w1 !! s = chans w !! s)
    ∧ m = None ∧ ch = fresh (dom (chans w1))
    ∧ c' = with_stats (set_Subscribers (int (Subscribers (stats c1) + 1)) (stats c1))
             (with_subscribers (subscribers c1 ++ [ch]) c1)
    ∧ w' = {| heap := heap w1;
              chans := <[ch := {| waiting := false; received := None; closed := false |}]>
                         (chans w1);
              clock := clock w1; ticks := ticks w1 |}
    ∧ ch ∉ subscribers c1.
Proof.
  intros Hok H. apply Subscribe_inv in H as [(c1 & w1 & Hst & Hl)|(_ & Hr & _)]; [|done].
  destruct (lookup_state_ok w c c1 w1 Hok Hst) as (Hok1 & Hal & Hsl & _).
  exists c1, w1. do 4 (split; [done|]). by apply (Subscribe_lookup_parks w1 c1 since etg).
Qed.

Lemma parked_ok w1 c1 ch :
  chan_ok w1 c1 → ch = fresh (dom (chans w1)) → ch ∉ subscribers c1 →
  chan_ok {| heap := heap w1;
             chans := <[ch := {| waiting := false; received := None; closed := false |}]>
                        (chans w1);
             clock := clock w1; ticks := ticks w1 |}
          (with_stats (set_Subscribers (int (Subscribers (stats c1) + 1)) (stats c1))
             (with_subscribers (subscribers c1 ++ [ch]) c1)).
Proof.
  intros [Hnd Hop Hq Hl] Hch Hout.
  assert (chans w1 !! ch = None) as Hfresh by (subst ch; apply fresh_slot_unused).
  split; simpl; [| |done|done].
  - apply NoDup_app. split; [done|]. split; [|apply NoDup_singleton].
    by intros s Hs ->%list_elem_of_singleton.
  - apply Forall_app. split.
    + rewrite Forall_forall in Hop |- *. intros s Hs.
      destruct (Hop s Hs) as (sl & Hsl & Hcl). exists sl. split; [|done]. simpl.
      rewrite lookup_insert_ne; [done|]. intros <-. congruence.
    + constructor; [|constructor]. eexists. split; [apply lookup_insert_eq|done].
Qed.

(** A handler that got a wait-slot from [Subscribe] starts to wait on it:
    the channel stays well formed, and the slot is parked on it, open, empty
    and waited on. *)
Lemma parked_awaits w c since etg c1 ch r w1 :
  chan_ok w c →
  Subscribe c since etg w = Some ((c1, (Some ch, r)), w1) →
  ∃ w2,
    await ch w1 = Some ((), w2)
    ∧ chan_ok w2 c1 ∧ ch ∈ subscribers c1
    ∧ chans w2 !! ch = Some {| waiting := true; received := None; closed := false |}
    ∧ heap w2 = heap w1 ∧ clock w2 = clock w1 ∧ ticks w2 = ticks w1
    ∧ (∀ p, allocated w p → allocated w2 p)
    ∧ (length (subscribers c1) ≤ S (length (subscribers c)))%nat.
Proof.
  intros Hok Hsub.
  destruct (Subscribe_parks _ _ _ _ _ _ _ _ Hok Hsub)
    as (c0 & w0 & Hst & Hok0 & Hal & _ & -> & Hch & -> & -> & Hout).
  destruct (lookup_state_ok w c c0 w0 Hok Hst) as (_ & _ & _ & Hsubs & _).
  pose proof (parked_ok w0 c0 ch Hok0 Hch Hout) as Hok1.
  set (c1 := with_stats _ _) in *. set (w1 := {| heap := heap w0 |}) in *.
  set (w2 := {| heap := heap w0;
                chans := <[ch := {| waiting := true; received := None; closed := false |}]>
                           (chans w0);
                clock := clock w0; ticks := ticks w0 |}).
  exists w2. split.
  { unfold await, w1. world_simpl. rewrite lookup_insert_eq. simpl.
    unfold w2. by rewrite insert_insert_eq. }
  split.
  { destruct Hok1 as [Hnd Hop Hq Hl]. split; [done| |done|done].
    eapply Forall_impl; [exact Hop|]. intros s (sl & Hsl & Hcl).
    destruct (decide (s = ch)) as [->|Hne].
    - eexists. split; [apply lookup_insert_eq|done].
    - exists sl. split; [|done]. unfold w1 in Hsl. simpl in Hsl |- *.
      by rewrite lookup_insert_ne in Hsl |- * by done. }
  split; [unfold c1; simpl; apply elem_of_app; right; by apply list_elem_of_singleton|].
  split; [apply lookup_insert_eq|]. do 3 (split; [done|]). split; [exact Hal|].
  unfold c1. simpl. rewrite length_app. simpl.
  destruct Hsubs as [-> | ->]; simpl; lia.
Qed.


Lemma kick_all_dom m subs : ∀ ch, dom (kick_all m subs ch) = dom ch.
Proof.
  induction subs as [|s subs IH]; intros ch; [done|].
  simpl. rewrite IH. apply dom_alter_L.
Qed.

(** [Subscribe] up to its history loop, on a well-formed channel: it either
    returns at the FILO test or enters the loop in a well-formed state, with
    the queue it found and a heap in which only the Conflict message may
    differ. *)
Lemma lookup_state_cases w c since etg :
  chan_ok w c → allocated w conflictMessage →
  (∃ c1 w1, lookup_state w c = Some (c1, w1) ∧ chan_ok w1 c1
            ∧ dom (chans w1) = dom (chans w) ∧ config c1 = config c
            ∧ (subscribers c1 = subscribers c ∨ subscribers c1 = [])
            ∧ queue c1 = queue c
            ∧ (∀ x, x ≠ conflictMessage → heap w1 !! x = heap w !! x)
            ∧ chan_id c1 = chan_id c
            ∧ (∀ x, allocated w x → allocated w1 x)
            ∧ (∀ s, s ∉ subscribers c → chans w1 !! s = chans w !! s))
  ∨ (0 < Subscribers (stats c)
     ∧ Subscribe c since etg w
       = Some ((with_stats (set_LastRequested (seconds w 0) (stats c)) c,
                (None, Some conflictMessage)), with_ticks (S (ticks w)) w)).
Proof.
  intros Hok [cm Hcm].
  destruct (Z.eqb_spec (ConcurrencyMode (config c)) ConcurrencyModeLIFO) as [Hmode|Hmode].
  - destruct (lookup_state_LIFO w c cm Hmode Hok Hcm) as [Hst Hok1].
    left. eexists _, _. split; [exact Hst|]. split; [done|]. simpl.
    split; [apply kick_all_dom|]. split; [done|]. split; [by right|]. split; [done|].
    split; [intros x Hx; by rewrite lookup_insert_ne|]. split; [done|]. split.
    + intros x Hx. by apply allocated_after_publish.
    + intros s Hs. by apply kick_all_notin.
  - destruct ((ConcurrencyMode (config c) =? ConcurrencyModeFILO)
              && (Subscribers (stats c) >? 0)) eqn:Hfilo.
    + right. split.
      { apply andb_true_iff in Hfilo as [_ Hs]. by apply Z.gtb_lt in Hs. }
      unfold Subscribe, mbind, M_bind. rewrite Subscribe_counted_unfold. cbv zeta.
      apply Z.eqb_neq in Hmode. by rewrite Hmode, Hfilo.
    + left. unfold lookup_state. apply Z.eqb_neq in Hmode. rewrite Hmode, Hfilo.
      eexists _, _. split; [done|]. split; [by apply chan_ok_requested|].
      split; [done|]. split; [done|]. split; [by left|]. done.
Qed.

Lemma list_Remove_notin elem l : elem ∉ l → list_Remove elem l = l.
Proof.
  unfold list_Remove. induction l as [|x l IH]; intros Hout; [done|].
  apply not_elem_of_cons in Hout as [Hne Hout].
  rewrite filter_cons_True by done. f_equal. by apply IH.
Qed.

Lemma list_Remove_snoc elem l : elem ∉ l → list_Remove elem (l ++ [elem]) = l.
Proof.
  intros Hout. unfold list_Remove. rewrite filter_app.
  rewrite filter_cons_False, filter_nil, app_nil_r by (intros ?; done).
  by apply list_Remove_notin.
Qed.

(** ** What a step does to the clock, the stamps and the queue *)

Lemma later_refl w : later w w.
Proof. by split. Qed.

Lemma later_trans w1 w2 w3 : later w1 w2 → later w2 w3 → later w1 w3.
Proof. intros [Hc1 Ht1] [Hc2 Ht2]. split; [congruence|lia]. Qed.

Lemma store_time p m w u w' :
  store p m w = Some (u, w') → clock w' = clock w ∧ ticks w' = ticks w.
Proof. unfold store. destruct (heap w !! p); [|done]. by intros [= _ <-]. Qed.

Lemma try_send_time s m w b w' :
  try_send s m w = Some (b, w') → clock w' = clock w ∧ ticks w' = ticks w.
Proof.
  unfold try_send. destruct (chans w !! s) as [sl|]; [|done].
  destruct (closed sl); [done|]. destruct (waiting sl); by intros [= _ <-].
Qed.

Lemma close_time s w u w' :
  close s w = Some (u, w') → clock w' = clock w ∧ ticks w' = ticks w.
Proof.
  unfold close. destruct (chans w !! s) as [sl|]; [|done].
  destruct (closed sl); [done|]. by intros [= _ <-].
Qed.

Lemma await_time s w u w' :
  await s w = Some (u, w') → clock w' = clock w ∧ ticks w' = ticks w.
Proof.
  unfold await. destruct (chans w !! s) as [sl|]; [|done].
  destruct (closed sl); by intros [= _ <-].
Qed.

Lemma handoff_time subs m : ∀ n w n' w',
  handoff subs m n w = Some (n', w') → clock w' = clock w ∧ ticks w' = ticks w.
Proof.
  induction subs as [|s subs IH]; intros n w n' w' H; simpl in H.
  - by injection H as _ <-.
  - apply bind_inv in H as (b & w1 & H1 & H). apply try_send_time in H1 as [Hc1 Ht1].
    apply bind_inv in H as (u & w2 & H2 & H). apply close_time in H2 as [Hc2 Ht2].
    apply IH in H as [Hc Ht]. split; congruence.
Qed.

(** [publish], whenever it returns: the two readings of the clock, and what
    becomes of the configuration, the stamps and the queue. *)
Lemma publish_inv c m q w c' n w' :
  publish c m q w = Some ((c', n), w') →
  clock w' = clock w ∧ ticks w' = S (S (ticks w))
  ∧ config c' = config c
  ∧ Created (stats c') = Created (stats c)
  ∧ LastRequested (stats c') = LastRequested (stats c)
  ∧ LastPublished (stats c') = seconds w 1
  ∧ queue c' = enqueue c m q
  ∧ Queued (stats c') = queued_after c q.
Proof.
  intros H. unfold publish in H.
  apply bind_inv in H as (now & w1 & H1 & H). injection H1 as _ <-.
  apply bind_inv in H as (msg & w2 & H2 & H). apply load_inv in H2 as [-> _].
  apply bind_inv in H as (u3 & w3 & H3 & H). apply store_time in H3 as [Hc3 Ht3].
  apply bind_inv in H as (msg' & w4 & H4 & H). apply load_inv in H4 as [-> _].
  apply bind_inv in H as (u5 & w5 & H5 & H). apply store_time in H5 as [Hc5 Ht5].
  apply bind_inv in H as (u6 & w6 & H6 & H).
  assert (clock w6 = clock w5 ∧ ticks w6 = ticks w5) as [Hc6 Ht6].
  { destruct (lastMessage c) as [lm|].
    - apply bind_inv in H6 as (last & w7 & H7 & H6). apply load_inv in H7 as [-> _].
      apply bind_inv in H6 as (msg2 & w8 & H8 & H6). apply load_inv in H8 as [-> _].
      destruct (_ =? _).
      + by apply store_time in H6.
      + apply mret_inv in H6. by injection H6 as _ ->.
    - apply mret_inv in H6. by injection H6 as _ ->. }
  apply bind_inv in H as (now2 & w7 & H7 & H). injection H7 as <- <-.
  apply bind_inv in H as (n8 & w8 & H8 & H). apply handoff_time in H8 as [Hc8 Ht8].
  apply mret_inv in H. injection H as Hc' Hn Hw. subst c' n w'.
  simpl in Hc3, Ht3, Hc5, Ht5, Hc6, Ht6, Hc8, Ht8.
  split; [congruence|]. split; [congruence|].
  assert (clock w6 (ticks w6) `div` 10 ^ 9 = seconds w 1) as Hsec.
  { unfold seconds. replace (ticks w + 1)%nat with (ticks w6) by (simpl in *; lia).
    rewrite Hc6, Hc5, Hc3. done. }
  unfold enqueue, queued_after.
  destruct q, (ChannelCapacity (config c) >? 0); simpl; try done.
  destruct (Z.of_nat (length (queue c)) >=? ChannelCapacity (config c)); done.
Qed.

Lemma Subscribe_lookup_inv c since etg w c' r w' :
  Subscribe_lookup c since etg w = Some ((c', r), w') →
  clock w' = clock w ∧ ticks w' = ticks w
  ∧ config c' = config c
  ∧ Created (stats c') = Created (stats c)
  ∧ LastRequested (stats c') = LastRequested (stats c)
  ∧ LastPublished (stats c') = LastPublished (stats c)
  ∧ queue c' = queue c
  ∧ Queued (stats c') = Queued (stats c).
Proof.
  intros H. unfold Subscribe_lookup in H.
  apply bind_inv in H as (hit & w1 & H1 & H). apply history_heap in H1 as ->.
  destruct hit as [m|].
  - apply mret_inv in H. by injection H as -> -> ->.
  - destruct (_ =? _).
    + apply mret_inv in H. by injection H as -> -> ->.
    + apply bind_inv in H as (ch & w2 & H2 & H). injection H2 as <- <-.
      apply mret_inv in H. by injection H as -> -> ->.
Qed.

Lemma reading_mono w w' lo hi lo' hi' v :
  clock w' = clock w → (lo' ≤ lo)%nat → (hi ≤ hi')%nat →
  reading w lo hi v → reading w' lo' hi' v.
Proof.
  intros Hc Hlo Hhi (k & Hk & ->). exists k. split; [lia|]. by rewrite Hc.
Qed.

(** One step of a run: the clock is only read; [Created] and the
    configuration stay; [LastRequested] and [LastPublished] stay or become a
    reading taken during the step; the queue changes as by [enqueue]. *)
Lemma step_inv c o w c' out w' :
  step c o w = Some ((c', out), w') →
  later w w'
  ∧ config c' = config c
  ∧ Created (stats c') = Created (stats c)
  ∧ (LastRequested (stats c') = LastRequested (stats c)
     ∨ reading w (ticks w) (ticks w') (LastRequested (stats c')))
  ∧ (LastPublished (stats c') = LastPublished (stats c)
     ∨ reading w (ticks w) (ticks w') (LastPublished (stats c')))
  ∧ ∃ m q, queue c' = enqueue c m q ∧ Queued (stats c') = queued_after c q.
Proof.
  assert (∀ c : channel, ∃ (m : positive) q,
            queue c = enqueue c m q ∧ Queued (stats c) = queued_after c q) as Hsame.
  { intros c0. by exists 1%positive, false. }
  intros H. destruct o as [m q|s q|since etg|elem|elem]; simpl in H.
  - apply bind_inv in H as ([c1 n] & w1 & Hp & H). apply mret_inv in H.
    injection H as -> -> ->.
    apply publish_inv in Hp as (Hc & Ht & Hcfg & Hcr & Hlr & Hlp & Hq & Hqd).
    split; [split; [done|lia]|]. do 2 (split; [done|]). split; [by left|].
    split; [right; exists (ticks w + 1)%nat; split; [lia|done]|]. by exists m, q.
  - apply bind_inv in H as ([c1 n] & w1 & Hp & H). apply mret_inv in H.
    injection H as -> -> ->. unfold PublishString in Hp.
    apply bind_inv in Hp as (p & w0 & Hn & Hp). injection Hn as <- <-.
    apply publish_inv in Hp as (Hc & Ht & Hcfg & Hcr & Hlr & Hlp & Hq & Hqd).
    simpl in *.
    split; [split; [done|lia]|]. do 2 (split; [done|]). split; [by left|].
    split; [right; exists (ticks w + 1)%nat; split; [lia|done]|]. by eexists _, q.
  - apply bind_inv in H as ([[c1 g] r] & w1 & Hs & H). apply mret_inv in H.
    injection H as -> -> ->.
    rewrite Subscribe_counted_unfold in Hs. cbv zeta in Hs.
    assert (∀ hi, (ticks w < hi)%nat → reading w (ticks w) hi (seconds w 0)) as Hread.
    { intros hi Hhi. exists (ticks w). split; [lia|]. unfold seconds.
      by rewrite Nat.add_0_r. }
    destruct (_ =? _).
    + apply bind_inv in Hs as ([c2 n] & w2 & Hp & Hs).
      apply publish_inv in Hp as (Hc & Ht & Hcfg & Hcr & Hlr & Hlp & Hq & Hqd).
      apply bind_inv in Hs as ([c3 r3] & w3 & Hl & Hs).
      apply Subscribe_lookup_inv in Hl
        as (Hc3 & Ht3 & Hcfg3 & Hcr3 & Hlr3 & Hlp3 & Hq3 & Hqd3).
      apply mret_inv in Hs. injection Hs as -> -> -> ->. simpl in *.
      split; [split; [congruence|lia]|]. split; [congruence|]. split; [congruence|].
      split; [right; rewrite Hlr3, Hlr; apply Hread; lia|]. split.
      * right. exists (ticks w + 2)%nat. split; [lia|]. rewrite Hlp3, Hlp.
        unfold seconds. simpl. do 2 f_equal. lia.
      * exists conflictMessage, false. rewrite Hq3, Hq, Hqd3, Hqd. done.
    + destruct (_ && _).
      * injection Hs as <- <- <- <-. simpl.
        split; [split; [done|simpl; lia]|]. do 2 (split; [done|]).
        split; [right; apply Hread; simpl; lia|].
        split; [by left|]. apply (Hsame c).
      * apply bind_inv in Hs as ([c3 r3] & w3 & Hl & Hs).
        apply Subscribe_lookup_inv in Hl
          as (Hc3 & Ht3 & Hcfg3 & Hcr3 & Hlr3 & Hlp3 & Hq3 & Hqd3).
        apply mret_inv in Hs. injection Hs as -> -> -> ->. simpl in *.
        split; [split; [done|lia]|]. split; [congruence|]. split; [congruence|].
        split; [right; rewrite Hlr3; apply Hread; lia|]. split; [left; congruence|].
        exists 1%positive, false. rewrite Hq3, Hqd3. done.
  - apply bind_inv in H as (c1 & w1 & Hu & H). apply mret_inv in H. injection H as -> -> ->.
    unfold Unsubscribe in Hu. apply bind_inv in Hu as (u & w2 & Hcl & Hu).
    apply close_time in Hcl as [Hc Ht]. apply mret_inv in Hu. injection Hu as -> ->.
    simpl. split; [split; [done|lia]|]. do 2 (split; [done|]).
    split; [by left|]. split; [by left|]. apply (Hsame c).
  - apply bind_inv in H as (u & w1 & Ha & H). apply await_time in Ha as [Hc Ht].
    apply mret_inv in H. injection H as -> -> ->.
    split; [split; [done|lia]|]. do 2 (split; [done|]).
    split; [by left|]. split; [by left|]. apply (Hsame c).
Qed.

Lemma enqueue_bounded c m q :
  ChannelCapacity (config c) ≤ max_int →
  queue_bounded c →
  Z.of_nat (length (enqueue c m q)) ≤ Z.max 0 (ChannelCapacity (config c))
  ∧ queued_after c q = Z.of_nat (length (enqueue c m q)).
Proof.
  intros Hcap [Hlen Hqd]. unfold enqueue, queued_after, vector_Pop.
  destruct q; simpl; [|done].
  destruct (Z.gtb_spec (ChannelCapacity (config c)) 0) as [Hpos|Hneg]; simpl; [|done].
  destruct (Z.geb_spec (Z.of_nat (length (queue c))) (ChannelCapacity (config c)))
    as [Hfull|Hroom]; simpl.
  - rewrite length_take. split; lia.
  - rewrite Hqd. rewrite int_small by (unfold max_int in *; lia). split; lia.
Qed.

Lemma enqueue_without_capacity c m q :
  ChannelCapacity (config c) ≤ 0 →
  enqueue c m q = queue c ∧ queued_after c q = Queued (stats c).
Proof.
  intros Hcap. unfold enqueue, queued_after.
  assert ((ChannelCapacity (config c) >? 0) = false) as ->.
  { rewrite Z.gtb_ltb. apply Z.ltb_ge. lia. }
  by rewrite andb_false_r.
Qed.

Lemma run_inv_step c o os w c' outs w' :
  run c (o :: os) w = Some ((c', outs), w') →
  ∃ c1 out w1 outs', step c o w = Some ((c1, out), w1)
                     ∧ run c1 os w1 = Some ((c', outs'), w') ∧ outs = out :: outs'.
Proof.
  intros H. simpl in H.
  apply bind_inv in H as ([c1 out] & w1 & Hs & H).
  apply bind_inv in H as ([c2 outs2] & w2 & Hr & H).
  apply mret_inv in H. injection H as -> -> ->. eauto 10.
Qed.

Lemma stamps_read_step c o w c' out w' :
  step c o w = Some ((c', out), w') → stamps_read w c → stamps_read w' c'.
Proof.
  intros Hs (t0 & Hcr & Ht0 & Hlr & Hlp).
  apply step_inv in Hs as (Hl & _ & Hcr' & Hlr' & Hlp' & _).
  pose proof Hl as [Hc Ht].
  exists t0. split; [by rewrite Hcr', Hc|]. split; [lia|]. split.
  - destruct Hlr' as [->|Hr];
      [|right; apply (reading_mono w w' (ticks w) (ticks w')); [done|lia|lia|done]].
    destruct Hlr as [?|Hr]; [by left|right].
    apply (reading_mono w w' t0 (ticks w)); [done|lia|lia|done].
  - destruct Hlp' as [->|Hr];
      [|right; apply (reading_mono w w' (ticks w) (ticks w')); [done|lia|lia|done]].
    destruct Hlp as [?|Hr]; [by left|right].
    apply (reading_mono w w' t0 (ticks w)); [done|lia|lia|done].
Qed.

Lemma stamps_read_run os : ∀ c w c' outs w',
  run c os w = Some ((c', outs), w') → stamps_read w c →
  stamps_read w' c' ∧ later w w'.
Proof.
  induction os as [|o os IH]; intros c w c' outs w' H Hr.
  - apply mret_inv in H. injection H as -> _ ->. split; [done|apply later_refl].
  - apply run_inv_step in H as (c1 & out & w1 & outs' & Hs & Hrun & _).
    pose proof (stamps_read_step _ _ _ _ _ _ Hs Hr) as Hr1.
    apply step_inv in Hs as (Hl & _).
    destruct (IH _ _ _ _ _ Hrun Hr1) as [Hr' Hl']. split; [done|].
    by eapply later_trans.
Qed.

Lemma stamps_read_stamp w c :
  monotone_clock w → (∀ i, 0 ≤ clock w i) → stamps_read w c →
  stamp c = Z.max (Created (stats c))
              (Z.max (LastRequested (stats c)) (LastPublished (stats c))).
Proof.
  intros Hmono Hpos (t0 & Hcr & _ & Hlr & Hlp).
  assert (∀ k, 0 ≤ clock w k `div` 10 ^ 9) as Hsec.
  { intros k. apply Z.div_pos; [apply Hpos|lia]. }
  assert (∀ v, v = 0 ∨ reading w t0 (ticks w) v →
               0 ≤ v ∧ (v ≠ 0 → Created (stats c) ≤ v)) as Hv.
  { intros v [->|(k & Hk & ->)]; [lia|]. split; [apply Hsec|]. intros _.
    rewrite Hcr. apply Z.div_le_mono; [lia|]. apply Hmono. lia. }
  destruct (Hv _ Hlr) as [Hlr0 Hlr1]. destruct (Hv _ Hlp) as [Hlp0 Hlp1].
  pose proof (Hsec t0) as Hcr0. rewrite <- Hcr in Hcr0.
  unfold stamp.
  destruct (Z.eqb_spec (LastRequested (stats c)) 0) as [Hr|Hr];
    destruct (Z.eqb_spec (LastPublished (stats c)) 0) as [Hp|Hp]; simpl;
    [lia|..];
    destruct (Z.gtb_spec (LastRequested (stats c)) (LastPublished (stats c))); lia.
Qed.

(** ** The garbage collector *)

Lemma Less_Some cs i j : (i < length cs)%nat → (j < length cs)%nat → is_Some (Less cs i j).
Proof.
  intros Hi Hj. unfold Less.
  destruct (lookup_lt_is_Some_2 cs i Hi) as [ci ->].
  destruct (lookup_lt_is_Some_2 cs j Hj) as [cj ->]. by eexists.
Qed.

Lemma Swap_Some cs i j : (i < length cs)%nat → (j < length cs)%nat → Swap cs i j = Some cs.
Proof.
  intros Hi Hj. unfold Swap.
  destruct (lookup_lt_is_Some_2 cs i Hi) as [ci Hci].
  destruct (lookup_lt_is_Some_2 cs j Hj) as [cj Hcj].
  rewrite Hci, Hcj. simpl. rewrite (list_insert_id _ _ _ Hci). by rewrite list_insert_id.
Qed.

Lemma sift_Some cs j : (j < length cs)%nat → sift cs j = Some cs.
Proof.
  induction j as [|j IH]; intros Hj; [done|]. simpl.
  destruct (Less_Some cs (S j) j) as [b Hb]; [lia..|]. rewrite Hb. simpl.
  destruct b; [|done]. rewrite Swap_Some by lia. simpl. apply IH. lia.
Qed.

(** The sort of [GC] never panics and returns the slice as it got it. *)
Lemma sort_Sort_Some cs : sort_Sort cs = Some cs.
Proof.
  unfold sort_Sort.
  assert (∀ l, Forall (λ i, (i < length cs)%nat) l →
               foldl (λ acc i, cs' ← acc; sift cs' i) (Some cs) l = Some cs) as H.
  { induction l as [|i l IH]; intros Hl; [done|].
    apply Forall_cons in Hl as [Hi Hl]. simpl. rewrite sift_Some by done. by apply IH. }
  apply H. apply Forall_forall. intros i Hi. apply elem_of_seq in Hi. lia.
Qed.

Lemma gc_scan_run cfg limit sorted : ∀ rest i chs count gc,
  let n := evictions cfg limit rest count in
  gc_scan cfg limit sorted rest i chs count gc
  = (foldl (λ m c, delete (chan_id c) m) chs (take n rest),
     if decide (n = 0%nat) then gc else take (i + n) sorted).
Proof.
  induction rest as [|c rest IH]; intros i chs count gc; simpl; [done|].
  fold (gc_keeps cfg limit count c).
  destruct (gc_keeps cfg limit count c); [done|].
  rewrite IH. simpl. f_equal.
  destruct (decide (evictions cfg limit rest (int (count - 1)) = 0%nat)) as [->|Hne].
  - by rewrite Nat.add_1_r.
  - f_equal. lia.
Qed.

Lemma evictions_le cfg limit rest : ∀ count, (evictions cfg limit rest count ≤ length rest)%nat.
Proof.
  induction rest as [|c rest IH]; intros count; simpl; [lia|].
  destruct (gc_keeps cfg limit count c); [lia|]. specialize (IH (int (count - 1))). lia.
Qed.

(** With a positive [MaxChannels], the loop leaves at most that many
    channels. *)
Lemma evictions_cap cfg limit rest : ∀ count,
  0 < MaxChannels cfg → count = Z.of_nat (length rest) → count ≤ max_int →
  count - Z.of_nat (evictions cfg limit rest count) ≤ MaxChannels cfg.
Proof.
  induction rest as [|c rest IH]; intros count Hmax Hcount Hint; simpl in *; [lia|].
  destruct (gc_keeps cfg limit count c) eqn:Hkeep.
  - unfold gc_keeps in Hkeep. apply andb_true_iff in Hkeep as [Hcap _].
    apply orb_true_iff in Hcap as [H0|Hle]; [apply Z.eqb_eq in H0; lia|].
    apply Z.leb_le in Hle. lia.
  - assert (int (count - 1) = count - 1) as Hc.
    { apply int_small. unfold max_int in *. lia. }
    specialize (IH (int (count - 1)) Hmax). rewrite Hc in IH |- *.
    specialize (IH ltac:(lia) ltac:(lia)). lia.
Qed.

(** Without a cap, the loop removes the leading stale channels and stops at
    the first fresh one. *)
Lemma evictions_stale cfg limit rest : ∀ count,
  MaxChannels cfg = 0 →
  let n := evictions cfg limit rest count in
  Forall (λ c, stamp c < limit) (take n rest)
  ∧ (∀ c, rest !! n = Some c → limit ≤ stamp c).
Proof.
  induction rest as [|c rest IH]; intros count Hmax; simpl; [by split|].
  unfold gc_keeps. rewrite Hmax. simpl.
  destruct (Z.geb_spec (stamp c) limit) as [Hfresh|Hstale]; simpl.
  - split; [constructor|]. intros c' [= <-]. lia.
  - destruct (IH (int (count - 1)) Hmax) as [Hall Hnext]. split; [|done].
    constructor; [lia|done].
Qed.

Lemma chan_ok_after_publish w c m msg c2 :
  chan_ok w c2 → (∀ s, s ∈ subscribers c → s ∉ subscribers c2) →
  chan_ok (after_publish w c m msg) c2.
Proof.
  intros [Hnd Hop Hq Hl] Hdisj. split; [done| | |].
  - rewrite Forall_forall in Hop |- *. intros s Hs.
    eapply slot_open_ext; [|by apply Hop]. simpl. apply kick_all_notin.
    intros Hin. by apply (Hdisj s).
  - eapply Forall_impl; [exact Hq|]. intros p. apply allocated_after_publish.
  - destruct (lastMessage c2); simpl in *; [by apply allocated_after_publish|done].
Qed.

Lemma apart_cons c cs :
  apart (c :: cs) →
  apart cs ∧ Forall (λ c2, ∀ s, s ∈ subscribers c → s ∉ subscribers c2) cs.
Proof.
  intros H. split.
  - intros i j ci cj s Hi Hj Hne. apply (H (S i) (S j)); [done|done|lia].
  - apply Forall_forall. intros c2 Hc2 s Hs.
    apply list_elem_of_lookup in Hc2 as [j Hj]. by apply (H 0%nat (S j) c c2).
Qed.

Lemma drain_cons c gc w :
  drain (c :: gc) w
  = match Publish c goneMessage false w with
    | Some ((c', _), w1) =>
        match drain gc w1 with
        | Some (rest, w') => Some (c' :: rest, w')
        | None => None
        end
    | None => None
    end.
Proof.
  simpl. unfold mbind, M_bind.
  destruct (Publish c goneMessage false w) as [[[c' n] w1]|]; [|done].
  by destruct (drain gc w1) as [[rest w']|].
Qed.

(** The last loop of [GC] completes on well-formed channels that share no
    wait-slot; it reads the clock twice per channel and leaves every evicted
    channel without subscribers. *)
Lemma drain_progress gc : ∀ w,
  Forall (chan_ok w) gc → apart gc → allocated w goneMessage →
  ∃ gone w',
    drain gc w = Some (gone, w')
    ∧ length gone = length gc
    ∧ Forall (λ c, subscribers c = []) gone
    ∧ chan_id <$> gone = chan_id <$> gc
    ∧ (∀ p, allocated w p → allocated w' p)
    ∧ (∀ c2, chan_ok w c2 →
             Forall (λ c, ∀ s, s ∈ subscribers c → s ∉ subscribers c2) gc →
             chan_ok w' c2).
Proof.
  induction gc as [|c gc IH]; intros w Hok Hap Hgone.
  - exists [], w. do 5 (split; [done|]). by intros c2 Hc2 _.
  - apply Forall_cons in Hok as [Hc Hok]. apply apart_cons in Hap as [Hap Hdisj].
    destruct Hgone as [gm Hgm].
    pose proof (publish_run w c goneMessage false gm Hgm Hc) as Hrun.
    set (w1 := after_publish w c goneMessage gm) in *.
    destruct (IH w1) as (gone & w' & Hdrain & Hlen & Hsubs & Hids & Hal & Hkeep).
    + rewrite Forall_forall in Hok, Hdisj |- *. intros c2 Hc2.
      apply chan_ok_after_publish; [by apply Hok|by apply Hdisj].
    + done.
    + apply allocated_after_publish. by eexists.
    + eexists _, w'. split.
      { rewrite drain_cons. unfold Publish. by rewrite Hrun, Hdrain. }
      split; [simpl; by rewrite Hlen|]. split; [by constructor|].
      split; [by rewrite !fmap_cons, Hids|]. split.
      * intros p Hp. by apply Hal, allocated_after_publish.
      * intros c2 Hc2 Hd. apply Forall_cons in Hd as [Hd1 Hd].
        apply Hkeep; [|done]. by apply chan_ok_after_publish.
Qed.

Lemma omap_lookup_all {A} (m : gmap string A) (order : list string) :
  (∀ k, k ∈ order → is_Some (m !! k)) →
  ∀ i, omap (λ k, m !! k) order !! i = order !! i ≫= (λ k, m !! k).
Proof.
  induction order as [|k order IH]; intros Hall i; [done|].
  destruct (Hall k) as [x Hx]; [by apply elem_of_cons; left|].
  simpl. rewrite Hx. destruct i as [|i]; simpl; [done|].
  apply IH. intros k' Hk'. apply Hall. by apply elem_of_cons; right.
Qed.

Lemma omap_lookup_length {A} (m : gmap string A) (order : list string) :
  (∀ k, k ∈ order → is_Some (m !! k)) →
  length (omap (λ k, m !! k) order) = length order.
Proof.
  induction order as [|k order IH]; intros Hall; [done|].
  destruct (Hall k) as [x Hx]; [by apply elem_of_cons; left|].
  simpl. rewrite Hx. simpl. f_equal. apply IH.
  intros k' Hk'. apply Hall. by apply elem_of_cons; right.
Qed.

Lemma sorted_ids p (order : list string) :
  (∀ cid c, channels p !! cid = Some c → chan_id c = cid) →
  (∀ k, k ∈ order → is_Some (channels p !! k)) →
  chan_id <$> omap (λ k, channels p !! k) order = order.
Proof.
  intros Hid. induction order as [|k order IH]; intros Hall; [done|].
  destruct (Hall k) as [c Hc]; [by apply elem_of_cons; left|].
  simpl. rewrite Hc. simpl. rewrite (Hid _ _ Hc). f_equal. apply IH.
  intros k' Hk'. apply Hall. by apply elem_of_cons; right.
Qed.

Lemma range_order_size p (order : list string) :
  range_order p order → length order = size (channels p).
Proof.
  intros [Hnd Hin]. rewrite <- size_dom.
  rewrite <- (size_list_to_set (C := gset string) order) by done.
  f_equal. apply set_eq. intros k. rewrite elem_of_list_to_set, elem_of_dom. apply Hin.
Qed.

Lemma sorted_apart w p (order : list string) :
  pusher_ok w p → range_order p order →
  apart (omap (λ k, channels p !! k) order).
Proof.
  intros [_ _ Hap] [Hnd Hin] i j ci cj s Hi Hj Hne.
  rewrite omap_lookup_all in Hi, Hj by (intros k Hk; by apply Hin).
  destruct (order !! i) as [ki|] eqn:Hki; [|done].
  destruct (order !! j) as [kj|] eqn:Hkj; [|done]. simpl in Hi, Hj.
  apply (Hap ki kj ci cj s Hi Hj). intros ->.
  apply Hne. by eapply NoDup_lookup.
Qed.

Lemma apart_take n cs : apart cs → apart (take n cs).
Proof.
  intros H i j ci cj s Hi Hj. apply lookup_take_Some in Hi as [Hi _].
  apply lookup_take_Some in Hj as [Hj _]. by apply H.
Qed.

Lemma foldl_delete_ids (chs : gmap string channel) cs :
  foldl (λ m c, delete (chan_id c) m) chs cs
  = foldl (λ m k, delete k m) chs (chan_id <$> cs).
Proof. revert chs. induction cs as [|c cs IH]; intros chs; [done|]. simpl. apply IH. Qed.

Lemma foldl_delete_lookup {A} (ks : list string) : ∀ (m : gmap string A) k,
  foldl (λ m k, delete k m) m ks !! k = if decide (k ∈ ks) then None else m !! k.
Proof.
  induction ks as [|x ks IH]; intros m k; cbn [foldl].
  - rewrite decide_False; [done|]. apply not_elem_of_nil.
  - rewrite IH. destruct (decide (k ∈ ks)) as [Hin|Hout].
    + rewrite decide_True; [done|]. apply elem_of_cons. by right.
    + destruct (decide (k = x)) as [->|Hne].
      * rewrite lookup_delete_eq. rewrite decide_True; [done|]. apply elem_of_cons. by left.
      * rewrite lookup_delete_ne by done. rewrite decide_False; [done|].
        intros [?|?]%elem_of_cons; done.
Qed.

Lemma foldl_delete_size {A} (ks : list string) : ∀ (m : gmap string A),
  NoDup ks → (∀ k, k ∈ ks → is_Some (m !! k)) →
  size (foldl (λ m k, delete k m) m ks) = (size m - length ks)%nat.
Proof.
  induction ks as [|x ks IH]; intros m Hnd Hin; simpl; [lia|].
  apply NoDup_cons in Hnd as [Hx Hnd].
  destruct (Hin x) as [a Ha]; [by apply elem_of_cons; left|].
  rewrite IH; [|done|].
  - rewrite map_size_delete_Some by (by eexists). lia.
  - intros k Hk. rewrite lookup_delete_ne; [apply Hin; by apply elem_of_cons; right|].
    intros ->. done.
Qed.

Lemma sorted_in_map p (order : list string) c :
  c ∈ omap (λ k, channels p !! k) order → ∃ k, k ∈ order ∧ channels p !! k = Some c.
Proof. intros H. apply list_elem_of_omap in H as (k & Hk & Hc). eauto. Qed.

(** [GC] in closed form, on a well-formed pusher. *)
Lemma GC_run w p (order : list string) :
  pusher_ok w p → range_order p order → allocated w goneMessage →
  let sorted := omap (λ k, channels p !! k) order in
  let n := evictions (pconfig p) (gc_limit w p) sorted (Z.of_nat (size (channels p))) in
  ∃ gone w',
    GC p order w
    = Some ((with_channels (foldl (λ m k, delete k m) (channels p) (take n order)) p,
             gone, Z.of_nat n), w')
    ∧ chan_id <$> gone = take n order
    ∧ Forall (λ c, subscribers c = []) gone
    ∧ (n ≤ length order)%nat
    ∧ pusher_ok w'
        (with_channels (foldl (λ m k, delete k m) (channels p) (take n order)) p).
Proof.
  intros Hok Hrange Hgone sorted n.
  pose proof Hok as [Hcok Hcid Hcap]. pose proof Hrange as [Hnd Hin].
  assert (∀ k, k ∈ order → is_Some (channels p !! k)) as Hall by (intros k; apply Hin).
  assert (chan_id <$> sorted = order) as Hids by (by apply sorted_ids).
  assert (length sorted = length order) as Hlen by (by apply omap_lookup_length).
  assert (n ≤ length order)%nat as Hn by (rewrite <- Hlen; apply evictions_le).
  set (w1 := with_ticks (S (ticks w)) w).
  destruct (drain_progress (take n sorted) w1)
    as (gone & w2 & Hdrain & Hlg & Hsubs & Hgids & _ & Hkeep).
  { apply Forall_forall. intros c Hc.
    assert (c ∈ sorted) as Hcs by (eapply elem_of_sublist; [exact Hc|apply sublist_take]).
    apply sorted_in_map in Hcs as (k & _ & Hk).
    eapply chan_ok_ext; [..|by eapply Hcok]; done. }
  { apply apart_take. by eapply sorted_apart. }
  { done. }
  exists gone. eexists. split; [|split; [|split; [done|split; [done|]]]].
  - unfold GC. erewrite bind_Some by reflexivity. cbv zeta.
    fold sorted. rewrite sort_Sort_Some.
    change (Z.quot (int64 (clock w (ticks w) - MaxChannelIdleTime (pconfig p))) (10 ^ 9))
      with (gc_limit w p).
    rewrite gc_scan_run. cbv zeta. fold n.
    assert ((if decide (n = 0%nat) then [] else take (0 + n) sorted) = take n sorted) as ->.
    { destruct (decide (n = 0%nat)) as [->|_]; done. }
    fold w1. erewrite bind_Some by exact Hdrain.
    erewrite bind_Some by reflexivity. unfold mret, M_ret.
    rewrite foldl_delete_ids, fmap_take, Hids, length_take, Hlen.
    do 4 f_equal. lia.
  - by rewrite Hgids, fmap_take, Hids.
  - assert (∀ k c, foldl (λ m k, delete k m) (channels p) (take n order) !! k = Some c →
                   (k ∉ take n order) ∧ channels p !! k = Some c) as Hkept.
    { intros k c H. rewrite foldl_delete_lookup in H.
      by destruct (decide (k ∈ take n order)). }
    split; cbn [channels with_channels].
    + intros k c H. apply Hkept in H as [Hout Hc].
      apply (chan_ok_ext w2 _ c c); [done..|].
      apply Hkeep; [apply (chan_ok_ext w _ c c); [done..|by apply (Hcok k)]|].
      apply Forall_forall. intros ce Hce s Hs.
      apply list_elem_of_lookup in Hce as [i Hi]. apply lookup_take_Some in Hi as [Hi Hlt].
      unfold sorted in Hi. rewrite omap_lookup_all in Hi by done.
      destruct (order !! i) as [ke|] eqn:Hke; [|done]. simpl in Hi.
      apply (Hcap ke k ce c s Hi Hc); [|done]. intros ->. apply Hout.
      apply list_elem_of_lookup. exists i. by apply lookup_take_Some.
    + intros k c H. apply Hkept in H as [_ Hc]. by apply Hcid.
    + intros k1 k2 c1 c2 s H1 H2. apply Hkept in H1 as [_ H1]. apply Hkept in H2 as [_ H2].
      by apply Hcap.
Qed.

(** Two channels without subscribers, filed under their ids, make a
    well-formed pusher, and the two ids in either order are a range order. *)
Lemma pair_pusher_ok w cfg k1 k2 c1 c2 :
  k1 ≠ k2 → chan_id c1 = k1 → chan_id c2 = k2 →
  chan_ok w c1 → chan_ok w c2 → subscribers c1 = [] → subscribers c2 = [] →
  pusher_ok w {| channels := <[k1 := c1]> {[k2 := c2]}; pconfig := cfg |}.
Proof.
  intros Hne Hid1 Hid2 Hok1 Hok2 Hs1 Hs2.
  assert (∀ cid c, (<[k1 := c1]> {[k2 := c2]} : gmap string channel) !! cid = Some c →
                   (cid = k1 ∧ c = c1) ∨ (cid = k2 ∧ c = c2)) as Hcases.
  { intros cid c H. apply lookup_insert_Some in H as [[<- <-]|[_ H]]; [by left|].
    apply lookup_singleton_Some in H as [<- <-]. by right. }
  split; simpl.
  - intros cid c H. by destruct (Hcases _ _ H) as [[-> ->]|[-> ->]].
  - intros cid c H. by destruct (Hcases _ _ H) as [[-> ->]|[-> ->]].
  - intros cid1 cid2 c1' c2' s H1 H2 _ Hs.
    destruct (Hcases _ _ H1) as [[-> ->]|[-> ->]].
    + rewrite Hs1 in Hs. by apply elem_of_nil in Hs.
    + rewrite Hs2 in Hs. by apply elem_of_nil in Hs.
Qed.

Lemma pair_range_order cfg k1 k2 c1 c2 :
  k1 ≠ k2 →
  range_order {| channels := <[k1 := c1]> {[k2 := c2]}; pconfig := cfg |} [k1; k2]
  ∧ range_order {| channels := <[k1 := c1]> {[k2 := c2]}; pconfig := cfg |} [k2; k1].
Proof.
  intros Hne.
  assert (∀ k, is_Some ((<[k1 := c1]> {[k2 := c2]} : gmap string channel) !! k)
               ↔ k = k1 ∨ k = k2) as Hdom.
  { intros k. rewrite lookup_insert_is_Some, lookup_singleton_is_Some.
    split; [intros [?|[_ ?]]; auto|].
    intros [-> | ->]; [by left|]. destruct (decide (k1 = k2)); [by left|by right]. }
  split; split.
  - apply NoDup_cons. split; [by intros ?%list_elem_of_singleton|apply NoDup_singleton].
  - intros k. simpl. rewrite Hdom, elem_of_cons, list_elem_of_singleton. done.
  - apply NoDup_cons. split; [by intros ?%list_elem_of_singleton|apply NoDup_singleton].
  - intros k. simpl. rewrite Hdom, elem_of_cons, list_elem_of_singleton. tauto.
Qed.

Lemma aged_channel_ok w id cfg created published_at :
  chan_ok w (aged_channel id cfg created published_at).
Proof. split; simpl; constructor. Qed.

(** ** The handlers *)

Lemma Channel_found p cid c w :
  channels p !! cid = Some c → Channel p cid w = Some ((p, c, false), w).
Proof. intros H. unfold Channel. by rewrite H. Qed.

Lemma newChannel_run id cfg w :
  newChannel id cfg w
  = Some (fresh_channel id cfg (seconds w 0), with_ticks (S (ticks w)) w).
Proof. unfold seconds. rewrite Nat.add_0_r. reflexivity. Qed.

Lemma Channel_created p cid w :
  channels p !! cid = None →
  Channel p cid w
  = Some ((with_channels (<[cid := fresh_channel cid (pconfig p) (seconds w 0)]> (channels p)) p,
           fresh_channel cid (pconfig p) (seconds w 0), true),
          with_ticks (S (ticks w)) w).
Proof.
  intros H. unfold Channel. rewrite H.
  by erewrite bind_Some by apply newChannel_run.
Qed.

Lemma fresh_channel_ok w id cfg now : chan_ok w (fresh_channel id cfg now).
Proof. split; simpl; constructor. Qed.

Lemma writeStats_run c subtype w :
  ∃ stats w', writeStats c subtype w = Some (stats, w')
              ∧ heap w' = heap w ∧ chans w' = chans w ∧ later w w'.
Proof.
  unfold writeStats. destruct (bool_decide (subtype = "plain")).
  - unfold mbind, M_bind, mret, M_ret, time_Seconds.
    destruct (LastRequested (stats c) >? 0); simpl;
      destruct (LastPublished (stats c) >? 0); simpl;
      eexists _, _; (split; [reflexivity|]); simpl; repeat split; simpl; first [done|lia].
  - eexists _, _. split; [reflexivity|]. repeat split; simpl; first [done|lia].
Qed.

Lemma method_tests m :
  m ≠ "GET" → m ≠ "PUT" → m ≠ "POST" → m ≠ "DELETE" →
  bool_decide (m = "GET") = false ∧ bool_decide (m = "PUT") = false
  ∧ bool_decide (m = "POST") = false ∧ bool_decide (m = "DELETE") = false.
Proof. intros. by rewrite !bool_decide_eq_false_2. Qed.

Lemma handlePublisher_GET acceptor p req w :
  acceptor req ≠ "" → Method req = "GET" →
  handlePublisher acceptor p req w
  = match channels p !! acceptor req with
    | Some c => (stats ← writeStats c (Accept req); mret (p, (200, Some stats))) w
    | None => Some ((p, (404, None)), w)
    end.
Proof.
  intros Hcid Hm. unfold handlePublisher.
  rewrite (bool_decide_eq_false_2 _ Hcid), Hm. simpl.
  by destruct (channels p !! acceptor req).
Qed.

Lemma handlePublisher_PUT acceptor p req w :
  acceptor req ≠ "" → Method req = "PUT" →
  handlePublisher acceptor p req w
  = ('(p1, c, _) ← Channel p (acceptor req);
     stats ← writeStats c (Accept req);
     mret (p1, (200, Some stats))) w.
Proof.
  intros Hcid Hm. unfold handlePublisher.
  rewrite (bool_decide_eq_false_2 _ Hcid), Hm. simpl.
  unfold mbind, M_bind.
  by destruct (Channel p (acceptor req) w) as [[[[p1 c] created] w1]|].
Qed.

Lemma handlePublisher_DELETE_run acceptor p req w :
  acceptor req ≠ "" → Method req = "DELETE" →
  handlePublisher acceptor p req w
  = match channels p !! acceptor req with
    | Some c =>
        ('(c', _) ← Publish c goneMessage false;
         stats ← writeStats c' (Accept req);
         mret (with_channels (delete (acceptor req) (channels p)) p, (200, Some stats))) w
    | None => Some ((p, (404, None)), w)
    end.
Proof.
  intros Hcid Hm. unfold handlePublisher.
  rewrite (bool_decide_eq_false_2 _ Hcid), Hm. simpl.
  destruct (channels p !! acceptor req) as [c|]; [|done].
  unfold mbind, M_bind.
  by destruct (Publish c goneMessage false w) as [[[c' n] w1]|].
Qed.

Lemma handlePublisher_POST acceptor p req w payload :
  acceptor req ≠ "" → Method req = "POST" → Body req = Some payload →
  handlePublisher acceptor p req w
  = ('(p1, c, _) ← Channel p (acceptor req);
     m ← new_Message {| ContentType := if bool_decide (cfgContentType (pconfig p) = "")
                                       then Header_ContentType req
                                       else cfgContentType (pconfig p);
                        Payload := payload; Status := StatusOK; etag := 0; time := 0 |};
     '(c', n) ← Publish c m true;
     stats ← writeStats c' (Accept req);
     mret (with_channels (<[acceptor req := c']> (channels p1)) p1,
           (if n >? 0 then 201 else 202, Some stats))) w.
Proof.
  intros Hcid Hm Hbody. unfold handlePublisher.
  rewrite (bool_decide_eq_false_2 _ Hcid), Hm, Hbody. simpl.
  unfold mbind, M_bind.
  destruct (Channel p (acceptor req) w) as [[[[p1 c] created] w1]|]; [|done].
  destruct (new_Message _ w1) as [[m w2]|]; [|done].
  destruct (Publish c m true w2) as [[[c' n] w3]|]; [|done].
  by destruct (n >? 0).
Qed.

Lemma handlePublisher_refused acceptor p req w :
  (acceptor req = "" → handlePublisher acceptor p req w = Some ((p, (404, None)), w))
  ∧ (acceptor req ≠ "" → Method req ≠ "GET" → Method req ≠ "PUT" →
     Method req ≠ "POST" → Method req ≠ "DELETE" →
     handlePublisher acceptor p req w = Some ((p, (405, None)), w))
  ∧ (acceptor req ≠ "" → Method req = "POST" → Body req = None →
     handlePublisher acceptor p req w = Some ((p, (500, None)), w)).
Proof.
  unfold handlePublisher. split; [|split].
  - intros Hcid. by rewrite (bool_decide_eq_true_2 _ Hcid).
  - intros Hcid H1 H2 H3 H4.
    destruct (method_tests _ H1 H2 H3 H4) as (-> & -> & -> & ->).
    by rewrite (bool_decide_eq_false_2 _ Hcid).
  - intros Hcid Hm Hbody. by rewrite (bool_decide_eq_false_2 _ Hcid), Hm, Hbody.
Qed.

Lemma chan_ok_new_Message w c msg :
  chan_ok w c →
  chan_ok {| heap := <[fresh (dom (heap w)) := msg]> (heap w); chans := chans w;
             clock := clock w; ticks := ticks w |} c.
Proof.
  intros Hok. apply (chan_ok_ext w _ c c); [done..| |exact Hok].
  intros x [mx Hx]. unfold allocated. simpl.
  rewrite lookup_insert_ne; [by eexists|]. intros <-.
  pose proof (is_fresh (dom (heap w))) as Hf. apply not_elem_of_dom in Hf. congruence.
Qed.

Lemma new_Message_run msg w :
  new_Message msg w
  = Some (fresh (dom (heap w)),
          {| heap := <[fresh (dom (heap w)) := msg]> (heap w); chans := chans w;
             clock := clock w; ticks := ticks w |}).
Proof. reflexivity. Qed.

(** A POST in closed form, from the channel that [Channel] returns. *)
Lemma handlePublisher_POST_run acceptor p req w payload p1 c created w0 :
  acceptor req ≠ "" → Method req = "POST" → Body req = Some payload →
  Channel p (acceptor req) w = Some ((p1, c, created), w0) → chan_ok w0 c →
  let m := fresh (dom (heap w0)) in
  let msg := {| ContentType := if bool_decide (cfgContentType (pconfig p) = "")
                               then Header_ContentType req else cfgContentType (pconfig p);
                Payload := payload; Status := StatusOK; etag := 0; time := 0 |} in
  let w1 := {| heap := <[m := msg]> (heap w0); chans := chans w0;
               clock := clock w0; ticks := ticks w0 |} in
  ∃ stats w',
    handlePublisher acceptor p req w
    = Some ((with_channels (<[acceptor req := published w1 c m true]> (channels p1)) p1,
             (if int (woken (chans w0) (subscribers c)) >? 0 then 201 else 202, Some stats)),
            w')
    ∧ heap w' = heap (after_publish w1 c m msg)
    ∧ chans w' = chans (after_publish w1 c m msg)
    ∧ later (after_publish w1 c m msg) w'.
Proof.
  intros Hcid Hm Hbody Hc Hok m msg w1.
  assert (chan_ok w1 c) as Hok1 by (by apply chan_ok_new_Message).
  assert (heap w1 !! m = Some msg) as Hmsg by apply lookup_insert_eq.
  pose proof (publish_run w1 c m true msg Hmsg Hok1) as Hpub.
  destruct (writeStats_run (published w1 c m true) (Accept req) (after_publish w1 c m msg))
    as (stats & w' & Hst & Hh & Hch & Hl).
  exists stats, w'. split; [|done].
  rewrite (handlePublisher_POST _ _ _ _ _ Hcid Hm Hbody).
  erewrite bind_Some by exact Hc. cbv beta iota.
  erewrite bind_Some by apply new_Message_run.
  unfold Publish. erewrite bind_Some by exact Hpub. cbv beta iota.
  by erewrite bind_Some by exact Hst.
Qed.

Lemma handleSubscriber_found acceptor p req w c :
  Method req = "GET" → acceptor req ≠ "" → channels p !! acceptor req = Some c →
  handleSubscriber acceptor p req w
  = ('(c1, (sub, message)) ← Subscribe c (IfModifiedSince req) (IfNoneMatch req);
     match sub with
     | Some elem =>
         mret (with_channels (<[acceptor req := c1]> (channels p)) p, Parked elem)
     | None =>
         r ← respond message;
         mret (with_channels (<[acceptor req := c1]> (channels p)) p, Replied r)
     end) w.
Proof.
  intros Hm Hcid Hc. unfold handleSubscriber.
  rewrite Hm, (bool_decide_eq_false_2 _ Hcid), Hc. simpl. done.
Qed.

Lemma handleSubscriber_missing acceptor p req w :
  Method req = "GET" → acceptor req ≠ "" → channels p !! acceptor req = None →
  handleSubscriber acceptor p req w
  = if AllowChannelCreation (pconfig p) then
      handleSubscriber acceptor
        (with_channels (<[acceptor req := fresh_channel (acceptor req) (pconfig p)
                                            (seconds w 0)]> (channels p)) p)
        req (with_ticks (S (ticks w)) w)
    else Some ((p, Replied (StatusOnly 403)), w).
Proof.
  intros Hm Hcid Hc. unfold handleSubscriber at 1.
  rewrite Hm, (bool_decide_eq_false_2 _ Hcid), Hc. simpl.
  destruct (AllowChannelCreation (pconfig p)); simpl; [|done].
  rewrite bind_assoc. erewrite bind_Some by apply newChannel_run.
  erewrite bind_Some by reflexivity. cbv beta iota.
  rewrite (handleSubscriber_found _ _ _ _ (fresh_channel (acceptor req) (pconfig p) (seconds w 0)))
    by (done || apply lookup_insert_eq).
  cbn [channels with_channels pconfig].
  unfold mbind, M_bind.
  destruct (Subscribe _ _ _ _) as [[[c1 [sub message]] w1]|]; [|done].
  rewrite insert_insert_eq. done.
Qed.

Lemma respond_inv message w r w' :
  respond message w = Some (r, w') →
  w' = w
  ∧ match message with
    | None => r = StatusOnly 304
    | Some m => ∃ msg, heap w !! m = Some msg
                       ∧ r = Delivery (etag msg) (time msg)
                               (if bool_decide (ContentType msg = "") then None
                                else Some (ContentType msg))
                               (Status msg) (Payload msg)
    end.
Proof.
  unfold respond. destruct message as [m|].
  - intros H. apply bind_inv in H as (msg & w1 & Hl & H). apply load_inv in Hl as [-> Hm].
    apply mret_inv in H. injection H as -> ->. eauto.
  - intros H. apply mret_inv in H. by injection H as -> ->.
Qed.

Lemma respond_run m msg w :
  heap w !! m = Some msg →
  respond (Some m) w
  = Some (Delivery (etag msg) (time msg)
            (if bool_decide (ContentType msg = "") then None else Some (ContentType msg))
            (Status msg) (Payload msg), w).
Proof. intros H. unfold respond. by erewrite bind_Some by (by apply load_Some). Qed.

(** A subscription on an existing channel that ends with a bare status
    code other than 304 does not exist; one that parks comes from a
    [Subscribe] that returned the wait-slot. *)
Lemma handleSubscriber_found_inv acceptor p req w c p' out w' :
  Method req = "GET" → acceptor req ≠ "" → channels p !! acceptor req = Some c →
  handleSubscriber acceptor p req w = Some ((p', out), w') →
  ∃ c1 sub message w1,
    Subscribe c (IfModifiedSince req) (IfNoneMatch req) w = Some ((c1, (sub, message)), w1)
    ∧ p' = with_channels (<[acceptor req := c1]> (channels p)) p
    ∧ match sub with
      | Some elem => out = Parked elem ∧ w' = w1
      | None => ∃ r, out = Replied r ∧ respond message w1 = Some (r, w')
      end.
Proof.
  intros Hm Hcid Hc H. rewrite (handleSubscriber_found _ _ _ _ _ Hm Hcid Hc) in H.
  apply bind_inv in H as ([c1 [sub message]] & w1 & Hs & H).
  exists c1, sub, message, w1. split; [done|].
  destruct sub as [elem|].
  - apply mret_inv in H. by injection H as -> -> ->.
  - apply bind_inv in H as (r & w2 & Hr & H). apply mret_inv in H.
    injection H as -> -> ->. split; [done|]. by exists r.
Qed.

Lemma chan_ok_same_store w w' c :
  heap w' = heap w → chans w' = chans w → chan_ok w c → chan_ok w' c.
Proof.
  intros Hh Hc. apply chan_ok_ext; try done. intros p. unfold allocated. by rewrite Hh.
Qed.

(** ** The handlers keep the pusher well formed *)

Lemma pusher_ok_same_store w w' p :
  heap w' = heap w → chans w' = chans w → pusher_ok w p → pusher_ok w' p.
Proof.
  intros Hh Hc [Hok Hid Hap]. split; [|done..].
  intros cid c H. apply (chan_ok_same_store w); [done|done|]. by apply (Hok cid).
Qed.

(** Replacing the channel filed under [cid], in a store in which the other
    channels are still well formed. *)
Lemma pusher_ok_update w w' p cid c' :
  pusher_ok w p →
  chan_ok w' c' → chan_id c' = cid →
  (∀ k c2, k ≠ cid → channels p !! k = Some c2 → chan_ok w' c2) →
  (∀ k c2 s, k ≠ cid → channels p !! k = Some c2 → s ∈ subscribers c' →
             s ∉ subscribers c2) →
  pusher_ok w' (with_channels (<[cid := c']> (channels p)) p).
Proof.
  intros [Hok Hid Hap] Hc' Hid' Hothers Hapart. split; cbn [channels with_channels].
  - intros k c H. apply lookup_insert_Some in H as [[<- <-]|[Hne H]]; [done|].
    apply (Hothers k c); [congruence|done].
  - intros k c H. apply lookup_insert_Some in H as [[<- <-]|[Hne H]]; [done|].
    by apply Hid.
  - intros k1 k2 c1 c2 s H1 H2 Hne Hs.
    apply lookup_insert_Some in H1 as [[<- <-]|[Hne1 H1]];
      apply lookup_insert_Some in H2 as [[<- <-]|[Hne2 H2]].
    + exfalso. by apply Hne.
    + apply (Hapart k2 c2 s); [congruence|done|done].
    + intros Hs'. apply (Hapart k1 c1 s); [congruence|done|done|done].
    + by apply (Hap k1 k2 c1 c2 s).
Qed.

Lemma pusher_ok_delete w w' p cid :
  pusher_ok w p →
  (∀ k c2, k ≠ cid → channels p !! k = Some c2 → chan_ok w' c2) →
  pusher_ok w' (with_channels (delete cid (channels p)) p).
Proof.
  intros [Hok Hid Hap] Hothers. split; cbn [channels with_channels].
  - intros k c H. apply lookup_delete_Some in H as [Hne H].
    apply (Hothers k c); [congruence|done].
  - intros k c H. apply lookup_delete_Some in H as [Hne H]. by apply Hid.
  - intros k1 k2 c1 c2 s H1 H2 Hne Hs.
    apply lookup_delete_Some in H1 as [_ H1]. apply lookup_delete_Some in H2 as [_ H2].
    by apply (Hap k1 k2 c1 c2 s).
Qed.

(** [Channel] on a well-formed pusher. *)
Lemma Channel_ok w p cid :
  pusher_ok w p →
  ∃ p1 c created w0,
    Channel p cid w = Some ((p1, c, created), w0)
    ∧ channels p1 !! cid = Some c
    ∧ pusher_ok w0 p1 ∧ heap w0 = heap w ∧ chans w0 = chans w
    ∧ pconfig p1 = pconfig p
    ∧ (∀ k, k ≠ cid → channels p1 !! k = channels p !! k)
    ∧ (created = true ↔ channels p !! cid = None)
    ∧ (created = false → p1 = p ∧ w0 = w)
    ∧ (created = true → c = fresh_channel cid (pconfig p) (seconds w 0)).
Proof.
  intros Hok. destruct (channels p !! cid) as [c|] eqn:Hc.
  - exists p, c, false, w. split; [by apply Channel_found|].
    do 6 (split; [done|]). split; [split; [done|congruence]|]. by split.
  - eexists _, _, true, _. split; [by apply Channel_created|].
    split; [apply lookup_insert_eq|]. split.
    { apply pusher_ok_update with (w := w); [done|apply fresh_channel_ok|done| |].
      - intros k c2 _ H. apply (chan_ok_same_store w); [done|done|].
        by apply (channels_ok w p Hok k).
      - intros k c2 s _ _ Hs. by apply elem_of_nil in Hs. }
    do 3 (split; [done|]). split.
    { intros k Hk. cbn [channels with_channels]. by rewrite lookup_insert_ne. }
    split; [done|]. by split.
Qed.

(** The other channels of a well-formed pusher after a publish on one of
    them. *)
Lemma others_after_publish w p cid c m msg :
  pusher_ok w p → channels p !! cid = Some c →
  ∀ k c2, k ≠ cid → channels p !! k = Some c2 → chan_ok (after_publish w c m msg) c2.
Proof.
  intros [Hok Hid Hap] Hc k c2 Hne H2.
  apply chan_ok_after_publish; [by apply (Hok k)|].
  intros s Hs. apply (Hap cid k c c2 s); [done|done|congruence|done].
Qed.

Lemma pusher_ok_new_Message w p msg :
  pusher_ok w p →
  pusher_ok {| heap := <[fresh (dom (heap w)) := msg]> (heap w); chans := chans w;
               clock := clock w; ticks := ticks w |} p.
Proof.
  intros [Hok Hid Hap]. split; [|done..].
  intros cid c H. apply chan_ok_new_Message. by apply (Hok cid).
Qed.

Lemma allocated_same_heap w w' x : heap w' = heap w → allocated w x → allocated w' x.
Proof. unfold allocated. by intros ->. Qed.

Lemma find_elem_of {A} (f : A → bool) (l : list A) x : List.find f l = Some x → x ∈ l.
Proof.
  intros H. pose proof (find_first f l) as Hf. rewrite H in Hf.
  destruct Hf as (before & after & -> & _). apply elem_of_app. right. by left.
Qed.

(** The effect of the history lookup of [Subscribe] on a well-formed
    channel. *)
Lemma Subscribe_lookup_effect w c since etg :
  chan_ok w c →
  ∃ c' sub message w',
    Subscribe_lookup c since etg w = Some ((c', (sub, message)), w')
    ∧ chan_ok w' c' ∧ heap w' = heap w ∧ chan_id c' = chan_id c
    ∧ (∀ s, is_Some (chans w !! s) → chans w' !! s = chans w !! s)
    ∧ (∀ s, s ∈ subscribers c' → s ∈ subscribers c ∨ chans w !! s = None)
    ∧ (∀ m, message = Some m → allocated w m)
    ∧ match sub with
      | Some ch => chans w !! ch = None ∧ slot_open w' ch ∧ ch ∈ subscribers c'
      | None => True
      end.
Proof.
  intros Hok. pose proof Hok as [Hnd Hop Hq Hl].
  destruct (List.find (newer_than (heap w) since etg) (reverse (queue c))) as [p|] eqn:Hfind.
  - eexists _, _, _, _. split; [by apply Subscribe_lookup_hit|].
    split; [by eapply chan_ok_ext; [..|exact Hok]|]. do 3 (split; [done|]).
    split; [intros s Hs; by left|]. split; [|done].
    intros m [= <-]. apply find_elem_of in Hfind. rewrite elem_of_reverse in Hfind.
    rewrite Forall_forall in Hq. by apply Hq.
  - rewrite (Subscribe_lookup_miss w c since etg Hq Hfind).
    destruct (_ =? _).
    { eexists _, _, _, _. split; [done|]. do 4 (split; [done|]).
      split; [intros s Hs; by left|]. done. }
    cbv zeta. set (ch := fresh (dom (chans w))).
    assert (chans w !! ch = None) as Hch by apply fresh_slot_unused.
    eexists _, _, _, _. split; [done|].
    split; [by apply parked_ok; [|done|intros Hin;
              destruct (subscribers_in_dom w c ch Hok Hin) as [sl Hsl]; congruence]|].
    do 2 (split; [done|]). split.
    { intros s [sl Hsl]. simpl. rewrite lookup_insert_ne; [done|]. intros <-. congruence. }
    split.
    { intros s Hs. simpl in Hs. apply elem_of_app in Hs as [Hs|Hs]; [by left|].
      apply list_elem_of_singleton in Hs as ->. by right. }
    split; [done|]. split; [done|]. split.
    + eexists. split; [apply lookup_insert_eq|done].
    + simpl. apply elem_of_app. right. by apply list_elem_of_singleton.
Qed.

(** The effect of [Subscribe] on a well-formed channel: it completes, keeps
    the channel well formed, touches no wait-slot outside the channel, and
    the subscribers afterwards are old ones or a new wait-slot. *)
Lemma Subscribe_effect w c since etg :
  chan_ok w c → allocated w conflictMessage →
  ∃ c' sub message w',
    Subscribe c since etg w = Some ((c', (sub, message)), w')
    ∧ chan_ok w' c' ∧ chan_id c' = chan_id c
    ∧ (∀ x, allocated w x → allocated w' x)
    ∧ (∀ s, s ∉ subscribers c → is_Some (chans w !! s) → chans w' !! s = chans w !! s)
    ∧ (∀ s, s ∈ subscribers c' → s ∈ subscribers c ∨ chans w !! s = None)
    ∧ (∀ m, message = Some m → allocated w' m)
    ∧ match sub with
      | Some ch => chans w !! ch = None ∧ slot_open w' ch ∧ ch ∈ subscribers c'
      | None => True
      end.
Proof.
  intros Hok Hcm.
  destruct (lookup_state_cases w c since etg Hok Hcm)
    as [(c1 & w1 & Hst & Hok1 & Hdom & _ & Hsubs & _ & _ & Hid & Hal & Hsl)|[_ Hrefused]].
  - rewrite (Subscribe_via_lookup _ _ since etg _ _ Hst).
    destruct (Subscribe_lookup_effect w1 c1 since etg Hok1)
      as (c' & sub & message & w' & Hrun & Hok' & Hheap & Hid' & Hslots & Hnew & Hmsg & Hsub).
    assert (∀ s, chans w1 !! s = None ↔ chans w !! s = None) as Hnone.
    { intros s. by rewrite <- !not_elem_of_dom, Hdom. }
    exists c', sub, message, w'. split; [done|]. split; [done|].
    split; [congruence|]. split.
    { intros x Hx. apply (allocated_same_heap w1); [done|]. by apply Hal. }
    split.
    { intros s Hs Hsome. rewrite Hslots; [by apply Hsl|]. by rewrite Hsl. }
    split.
    { intros s Hs. destruct (Hnew s Hs) as [Hin|Hout].
      - destruct Hsubs as [Heq|Heq]; rewrite Heq in Hin; [by left|].
        by apply elem_of_nil in Hin.
      - right. by apply Hnone. }
    split.
    { intros m Hm. apply (allocated_same_heap w1); [done|]. by apply Hmsg. }
    destruct sub as [ch|]; [|done]. destruct Hsub as (Hch & Hopen & Hin).
    split; [by apply Hnone|done].
  - eexists _, _, _, _. split; [exact Hrefused|].
    split; [by apply chan_ok_requested|]. split; [done|]. split; [done|].
    split; [done|]. split; [intros s Hs; by left|]. split; [|done].
    by intros m [= <-].
Qed.

(** ** The exclusive concurrency modes *)

Lemma Subscribe_lookup_subscribers c since etg w c' r w' :
  Subscribe_lookup c since etg w = Some ((c', r), w') →
  config c' = config c
  ∧ ((subscribers c' = subscribers c ∧ Subscribers (stats c') = Subscribers (stats c))
     ∨ (∃ ch, subscribers c' = subscribers c ++ [ch]
              ∧ Subscribers (stats c') = int (Subscribers (stats c) + 1))).
Proof.
  intros H. unfold Subscribe_lookup in H.
  apply bind_inv in H as (hit & w1 & _ & H). destruct hit as [m|].
  - apply mret_inv in H. injection H as -> -> ->. split; [done|by left].
  - destruct (_ =? _).
    + apply mret_inv in H. injection H as -> -> ->. split; [done|by left].
    + apply bind_inv in H as (ch & w2 & _ & H). apply mret_inv in H.
      injection H as -> -> ->. split; [done|right]. by exists ch.
Qed.

Lemma parks_first c c' :
  subscribers c = [] → Subscribers (stats c) = 0 →
  (subscribers c' = subscribers c ∧ Subscribers (stats c') = Subscribers (stats c))
  ∨ (∃ ch, subscribers c' = subscribers c ++ [ch]
           ∧ Subscribers (stats c') = int (Subscribers (stats c) + 1)) →
  at_most_one_parked c'.
Proof.
  intros Hs Hn H. unfold at_most_one_parked.
  destruct H as [[H1 H2]|(ch & H1 & H2)]; rewrite H1, H2, Hs, Hn; split; simpl; try lia.
  reflexivity.
Qed.

Lemma at_most_one_step c o w c' out w' :
  ConcurrencyMode (config c) = ConcurrencyModeLIFO
  ∨ ConcurrencyMode (config c) = ConcurrencyModeFILO →
  step c o w = Some ((c', out), w') →
  at_most_one_parked c → at_most_one_parked c' ∧ config c' = config c.
Proof.
  intros Hmode H [Hlen Hcount].
  destruct o as [m q|s q|since etg|elem|elem]; simpl in H.
  - apply bind_inv in H as ([c1 n] & w1 & Hp & H). apply mret_inv in H.
    injection H as -> -> ->.
    apply publish_counters in Hp as (Hcfg & _ & _ & Hsubs & Hn).
    split; [|done]. split; rewrite Hsubs; simpl; [lia|done].
  - apply bind_inv in H as ([c1 n] & w1 & Hp & H). apply mret_inv in H.
    injection H as -> -> ->. unfold PublishString in Hp.
    apply bind_inv in Hp as (p & w0 & _ & Hp).
    apply publish_counters in Hp as (Hcfg & _ & _ & Hsubs & Hn).
    split; [|done]. split; rewrite Hsubs; simpl; [lia|done].
  - apply bind_inv in H as ([[c1 g] r] & w1 & Hs & H). apply mret_inv in H.
    injection H as -> -> ->.
    rewrite Subscribe_counted_unfold in Hs. cbv zeta in Hs.
    destruct (Z.eqb_spec (ConcurrencyMode (config c)) ConcurrencyModeLIFO) as [Hl|Hl].
    + apply bind_inv in Hs as ([c2 n] & w2 & Hp & Hs).
      apply publish_counters in Hp as (Hcfg & _ & _ & Hsubs & Hn).
      apply bind_inv in Hs as ([c3 r3] & w3 & Hlk & Hs).
      apply Subscribe_lookup_subscribers in Hlk as [Hcfg3 Hlk].
      apply mret_inv in Hs. injection Hs as -> -> -> ->.
      split; [by eapply parks_first|]. simpl in Hcfg. congruence.
    + destruct Hmode as [?|Hf]; [done|]. rewrite Hf in Hs. simpl in Hs.
      destruct (Z.gtb_spec (Subscribers (stats c)) 0) as [Hpos|Hzero].
      * injection Hs as <- <- <- <-. done.
      * apply bind_inv in Hs as ([c3 r3] & w3 & Hlk & Hs).
        apply Subscribe_lookup_subscribers in Hlk as [Hcfg3 Hlk].
        apply mret_inv in Hs. injection Hs as -> -> -> ->.
        split; [|done]. eapply parks_first; [| |exact Hlk]; simpl.
        -- destruct (subscribers c); [done|]. simpl in *. lia.
        -- lia.
  - apply bind_inv in H as (c1 & w1 & Hu & H). apply mret_inv in H. injection H as -> -> ->.
    unfold Unsubscribe in Hu. apply bind_inv in Hu as (u & w2 & _ & Hu).
    apply mret_inv in Hu. injection Hu as -> ->. split; [|done].
    assert (length (list_Remove elem (subscribers c)) ≤ 1)%nat as Hle.
    { etrans; [|exact Hlen]. unfold list_Remove. apply length_filter. }
    split; simpl; [done|]. unfold list_Len. apply int_small. unfold max_int. lia.
  - apply bind_inv in H as (u & w1 & _ & H). apply mret_inv in H.
    injection H as -> -> ->. done.
Qed.

(** ** The statistics in plain text *)

(** [writeStats] with the subtype "plain", case by case. *)
Lemma writeStats_plain c w :
  writeStats c "plain" w
  = let s := stats c in
    if LastRequested s >? 0 then
      if LastPublished s >? 0 then
        Some ([Queued s; int64 (seconds w 0 - LastRequested s);
               int64 (seconds w 1 - LastPublished s);
               Subscribers s; Published s; Delivered s],
              with_ticks (S (S (ticks w))) w)
      else
        Some ([Queued s; -1; LastPublished s; Subscribers s; Published s; Delivered s],
              with_ticks (S (ticks w)) w)
    else
      if LastPublished s >? 0 then
        Some ([Queued s; -1; int64 (seconds w 0 - LastPublished s);
               Subscribers s; Published s; Delivered s],
              with_ticks (S (ticks w)) w)
      else
        Some ([Queued s; -1; LastPublished s; Subscribers s; Published s; Delivered s], w).
Proof.
  unfold writeStats. cbv zeta. rewrite bool_decide_eq_true_2 by done.
  unfold mbind, M_bind, mret, M_ret, time_Seconds, seconds.
  destruct (LastRequested (stats c) >? 0); simpl;
    destruct (LastPublished (stats c) >? 0); simpl; try reflexivity.
  - rewrite Nat.add_0_r, Nat.add_1_r. reflexivity.
  - rewrite Nat.add_0_r. reflexivity.
Qed.

Lemma age_bounds w t0 v k :
  monotone_clock w → (∀ i, 0 ≤ clock w i ≤ max_int64) →
  reading w t0 (ticks w) v →
  0 ≤ v ∧ int64 (seconds w k - v) = seconds w k - v ∧ 0 ≤ seconds w k - v.
Proof.
  intros Hmono Hrange (j & Hj & ->).
  assert (∀ i, 0 ≤ clock w i `div` 10 ^ 9 ≤ max_int64) as Hsec.
  { intros i. destruct (Hrange i) as [H0 H1]. split; [apply Z.div_pos; lia|].
    etrans; [|exact H1]. apply Z.div_le_upper_bound; [lia|]. nia. }
  assert (clock w j `div` 10 ^ 9 ≤ seconds w k) as Hle.
  { unfold seconds. apply Z.div_le_mono; [lia|]. apply Hmono. lia. }
  pose proof (Hsec j) as Hj'. pose proof (Hsec (ticks w + k)%nat) as Hk'.
  fold (seconds w k) in Hk'.
  split; [lia|]. split; [|lia]. apply int64_small. unfold max_int64 in *. lia.
Qed.

(** ** The negotiation *)

Lemma cut_at_slash_sound s before after :
  cut_at_slash s = Some (before, after) → s = before +:+ "/" +:+ after.
Proof.
  revert before after. induction s as [|a s IH]; intros before after H; simpl in H; [done|].
  destruct (Ascii.eqb_spec a (Ascii.ascii_of_nat 47)) as [-> | Hne].
  - by injection H as <- <-.
  - destruct (cut_at_slash s) as [[b r]|]; [|done]. injection H as <- <-.
    change (String a s = String a (b +:+ "/" +:+ r)). f_equal. by apply IH.
Qed.

Lemma negotiate_cases accept :
  (∃ t st, cut_at_slash accept = Some (t, st) ∧ (t = "text" ∨ t = "application")
           ∧ negotiate accept = (t, if has_format st then st else "plain"))
  ∨ negotiate accept = ("text", "plain").
Proof.
  unfold negotiate, strings_Split2.
  destruct (cut_at_slash accept) as [[t st]|] eqn:Hcut; [|by right].
  destruct (decide (t = "text")) as [-> | Ht].
  - left. exists "text", st. split; [done|]. split; [by left|]. simpl.
    by destruct (has_format st).
  - destruct (decide (t = "application")) as [-> | Ha].
    + left. exists "application", st. split; [done|]. split; [by right|]. simpl.
      by destruct (has_format st).
    + right. by rewrite (bool_decide_eq_false_2 _ Ht), (bool_decide_eq_false_2 _ Ha).
Qed.

Lemma has_format_spec st : has_format st = true ↔ st = "plain" ∨ st = "json".
Proof.
  unfold has_format. rewrite orb_true_iff, !bool_decide_eq_true. done.
Qed.

(** ** The stamps that a run assigns *)

Lemma count_ops_nonneg f os : 0 ≤ count_ops f os.
Proof. induction os as [|o os IH]; simpl; [done|]. destruct (f o); lia. Qed.

Lemma stamp_follows_lt a b : stamp_follows a b → stamp_lt a b.
Proof.
  unfold stamp_follows, stamp_lt. intros [Ht He].
  destruct (Z.eqb_spec b.1 a.1); lia.
Qed.

(** [publish], whenever it returns, has stamped the object it was given and
    nothing else, and made it the last message. *)
Lemma publish_heap c m q w c' n w' :
  publish c m q w = Some ((c', n), w') →
  ∃ msg, heap w !! m = Some msg
         ∧ from_option (allocated w) True (lastMessage c)
         ∧ heap w' = <[m := stamped w c m msg]> (heap w)
         ∧ lastMessage c' = Some m.
Proof.
  intros H. unfold publish in H.
  assert (∃ msg, heap w !! m = Some msg) as [msg Hm].
  { apply bind_inv in H as (now & w1 & H1 & H). injection H1 as _ <-.
    apply bind_inv in H as (msg & w2 & H2 & H). apply load_inv in H2 as [_ H2].
    by exists msg. }
  exists msg. split; [done|].
  erewrite bind_Some in H by apply time_Seconds_run.
  erewrite bind_Some in H by (by apply load_Some).
  erewrite bind_Some in H by (apply store_Some; by eexists).
  erewrite bind_Some in H by (apply load_Some, lookup_insert_eq).
  erewrite bind_Some in H by (apply store_Some; eexists; apply lookup_insert_eq).
  cbn [heap chans clock ticks] in H. rewrite insert_insert_eq in H.
  set (now := clock w (ticks w) `div` 10 ^ 9) in H.
  set (w1 := {| heap := _ |}) in H.
  apply bind_inv in H as (u & w2 & Hstamp & H).
  assert (from_option (allocated w) True (lastMessage c)
          ∧ heap w2 = <[m := stamped w c m msg]> (heap w)) as [Hl Hw2].
  { unfold stamped, next_etag.
    replace (seconds w 0) with now by (unfold seconds, now; by rewrite Nat.add_0_r).
    destruct (lastMessage c) as [lm|] eqn:Hlm.
    - apply bind_inv in Hstamp as (last & w3 & Hlast & Hstamp).
      apply load_inv in Hlast as [-> Hlast].
      apply bind_inv in Hstamp as (msg' & w4 & Hmsg & Hstamp).
      apply load_inv in Hmsg as [-> Hmsg].
      unfold w1 in Hlast, Hmsg. cbn [heap] in Hlast, Hmsg.
      rewrite lookup_insert_eq in Hmsg. injection Hmsg as <-.
      destruct (decide (lm = m)) as [->|Hne].
      + rewrite lookup_insert_eq in Hlast. injection Hlast as <-.
        cbn [time set_etag set_time etag] in Hstamp. rewrite Z.eqb_refl in Hstamp.
        rewrite store_Some in Hstamp by (eexists; apply lookup_insert_eq).
        injection Hstamp as _ <-. simpl. split; [by eexists|].
        by rewrite insert_insert_eq.
      + rewrite lookup_insert_ne in Hlast by done. simpl. split; [by eexists|].
        rewrite Hlast. cbn [time set_etag set_time etag] in Hstamp.
        destruct (time last =? now).
        * rewrite store_Some in Hstamp by (eexists; apply lookup_insert_eq).
          injection Hstamp as _ <-. simpl. by rewrite insert_insert_eq.
        * apply mret_inv in Hstamp. by injection Hstamp as _ ->.
    - apply mret_inv in Hstamp. by injection Hstamp as _ ->. }
  split; [done|].
  apply bind_inv in H as (now2 & w3 & H3 & H). apply time_Seconds_heap in H3.
  apply bind_inv in H as (k & w4 & H4 & H). apply handoff_heap in H4.
  apply mret_inv in H. injection H as -> _ ->.
  split; [congruence|].
  by destruct (q && _); [destruct (_ >=? _)|].
Qed.

Lemma Subscribe_lookup_lastMessage c since etg w c' r w' :
  Subscribe_lookup c since etg w = Some ((c', r), w') → lastMessage c' = lastMessage c.
Proof.
  intros H. unfold Subscribe_lookup in H.
  apply bind_inv in H as (hit & w1 & _ & H). destruct hit as [m|].
  - apply mret_inv in H. by injection H as -> _ _.
  - destruct (_ =? _).
    + apply mret_inv in H. by injection H as -> _ _.
    + apply bind_inv in H as (ch & w2 & _ & H). apply mret_inv in H. by injection H as -> _ _.
Qed.

(** A step that publishes nothing leaves the heap, the queue and the last
    message alone. *)
Lemma step_quiet c o w c' out w' :
  step c o w = Some ((c', out), w') →
  is_publish_call o = false →
  (is_subscribe_call o = true → ConcurrencyMode (config c) ≠ ConcurrencyModeLIFO) →
  heap w' = heap w ∧ queue c' = queue c ∧ lastMessage c' = lastMessage c.
Proof.
  intros H Hpub Hmode. destruct o as [m q|s q|since etg|elem|elem]; simpl in H, Hpub;
    try done.
  - apply bind_inv in H as ([[c1 g] r] & w1 & Hs & H). apply mret_inv in H.
    injection H as -> -> ->.
    rewrite Subscribe_counted_unfold in Hs. cbv zeta in Hs.
    specialize (Hmode eq_refl). apply Z.eqb_neq in Hmode. rewrite Hmode in Hs.
    destruct (_ && _).
    + by injection Hs as <- <- <- <-.
    + apply bind_inv in Hs as ([c3 r3] & w3 & Hl & Hs).
      apply mret_inv in Hs. injection Hs as -> -> -> ->.
      pose proof (Subscribe_lookup_heap _ _ _ _ _ _ Hl) as Hh.
      pose proof (Subscribe_lookup_lastMessage _ _ _ _ _ _ _ Hl) as Hlm.
      apply Subscribe_lookup_inv in Hl as (_ & _ & _ & _ & _ & _ & Hq & _).
      done.
  - apply bind_inv in H as (c1 & w1 & Hu & H). apply mret_inv in H. injection H as -> -> ->.
    unfold Unsubscribe in Hu. apply bind_inv in Hu as (u & w2 & Hcl & Hu).
    apply close_heap in Hcl. apply mret_inv in Hu. by injection Hu as -> ->.
  - apply bind_inv in H as (u & w1 & Ha & H). apply await_heap in Ha.
    apply mret_inv in H. by injection H as -> -> ->.
Qed.

Lemma stamps_inv_ext w w' c c' done :
  monotone_clock w → later w w' →
  (∀ p, allocated w p → heap w' !! p = heap w !! p) →
  queue c' = queue c → lastMessage c' = lastMessage c →
  stamps_inv w c done → stamps_inv w' c' done.
Proof.
  intros Hmono [Hc Ht] Hheap Hq Hlm (Hal & Hsub & Hlast & Hbound & Hch & Hhead).
  assert (∀ p, allocated w p → allocated w' p) as Hal'.
  { intros p Hp. unfold allocated. by rewrite Hheap. }
  assert (∀ p, allocated w p → stamp_of (heap w') p = stamp_of (heap w) p) as Hst.
  { intros p Hp. unfold stamp_of. by rewrite Hheap. }
  rewrite Forall_forall in Hal.
  split; [|split; [|split; [|split; [|done]]]].
  - rewrite Hq. apply Forall_forall. intros p Hp. by apply Hal', Hal.
  - rewrite Hq.
    replace (stamp_of (heap w') <$> queue c) with (stamp_of (heap w) <$> queue c); [done|].
    apply list_fmap_ext. intros i p Hp. symmetry. apply Hst, Hal.
    by eapply list_elem_of_lookup_2.
  - rewrite Hlm. destruct (lastMessage c) as [lm|]; [|done].
    destruct Hlast as [Hlm_al Hlm_st]. split; [by apply Hal'|]. by rewrite Hst.
  - intros s Hs. destruct (Hbound s Hs) as [H1 H2]. split; [|done].
    etrans; [exact H1|]. unfold seconds. rewrite Hc.
    apply Z.div_le_mono; [lia|]. apply Hmono. lia.
Qed.

(** One [publish] of an object that is neither queued nor the last message:
    its stamp follows the last one assigned. *)
Lemma publish_stamps w c m q c' n w' done :
  monotone_clock w → stamps_inv w c done →
  m ∉ queue c → lastMessage c ≠ Some m →
  Z.of_nat (length done) < 2 ^ 31 →
  publish c m q w = Some ((c', n), w') →
  stamps_inv w' c' (done ++ [stamp_of (heap w') m])
  ∧ lastMessage c' = Some m
  ∧ (∀ p, allocated w p → allocated w' p)
  ∧ (∀ p, p ∈ queue c' → p = m ∨ p ∈ queue c).
Proof.
  intros Hmono (Hal & Hsub & Hlast & Hbound & Hch & Hhead) Hmq Hml Hlen H.
  destruct (publish_heap _ _ _ _ _ _ _ H) as (msg & Hm & _ & Hheap & Hlm').
  apply publish_inv in H as (Hc & Ht & _ & _ & _ & _ & Hq & _).
  assert (∀ p, allocated w p → allocated w' p) as Hal'.
  { intros p Hp. unfold allocated. rewrite Hheap.
    destruct (decide (p = m)) as [->|Hne];
      [rewrite lookup_insert_eq; by eexists|by rewrite lookup_insert_ne]. }
  assert (∀ p, p ≠ m → stamp_of (heap w') p = stamp_of (heap w) p) as Hst.
  { intros p Hp. rewrite Hheap. by apply stamp_of_insert_ne. }
  assert (stamp_of (heap w') m = (seconds w 0, next_etag w c m)) as Hsm.
  { rewrite Hheap. apply stamp_of_insert_eq. }
  assert (∀ p, p ∈ queue c' → p = m ∨ p ∈ queue c) as Hq'.
  { intros p. rewrite Hq. apply enqueue_elem. }
  assert (match last done with
          | Some y => next_etag w c m = if seconds w 0 =? y.1 then y.2 + 1 else 0
          | None => next_etag w c m = 0
          end) as Hetag.
  { unfold next_etag. destruct (lastMessage c) as [lm|] eqn:Hlm.
    - destruct Hlast as [[lmsg Hlmsg] Hld]. rewrite Hld.
      rewrite decide_False by congruence.
      specialize (Hbound _ Hld). unfold stamp_of in Hbound |- *.
      rewrite Hlmsg in Hbound |- *. simpl in Hbound |- *.
      rewrite (Z.eqb_sym (seconds w 0)).
      destruct (time lmsg =? seconds w 0); [|done].
      apply int_small. unfold max_int. lia.
    - by rewrite Hlast. }
  split; [|done]. rewrite Hsm.
  split; [|split; [|split; [|split; [|split]]]].
  - apply Forall_forall. intros p Hp. destruct (Hq' p Hp) as [->|Hin].
    + apply Hal'. by eexists.
    + apply Hal'. rewrite Forall_forall in Hal. by apply Hal.
  - rewrite reverse_snoc, Hq, <- Hsm.
    etrans; [apply (fmap_sublist _), (enqueue_sublist c m q (queue c)); done|].
    rewrite fmap_cons. apply sublist_skip.
    replace (stamp_of (heap w') <$> queue c) with (stamp_of (heap w) <$> queue c); [done|].
    apply list_fmap_ext. intros i p Hp. symmetry. apply Hst. intros ->.
    apply Hmq. by eapply list_elem_of_lookup_2.
  - rewrite Hlm', last_snoc, Hsm. split; [apply Hal'; by eexists|done].
  - intros s. rewrite last_snoc. intros [= <-]. simpl. split.
    + etrans; [apply (seconds_mono w 2 Hmono)|]. unfold seconds. rewrite Hc, Ht.
      apply Z.eq_le_incl. do 2 f_equal. lia.
    + rewrite length_app. simpl length. destruct (last done) as [y|] eqn:Hy.
      * specialize (Hbound y eq_refl). rewrite Hetag. destruct (_ =? _); lia.
      * rewrite Hetag. lia.
  - apply chain_snoc; [done|]. intros y Hy. rewrite Hy in Hetag.
    split; simpl; [by apply Hbound|done].
  - intros s. destruct done as [|d done'].
    + simpl. intros [= <-]. simpl. exact Hetag.
    + simpl. intros [= <-]. by apply Hhead.
Qed.

Lemma run_publish_inv c m q w c' out w' :
  step c (OpPublish m q) w = Some ((c', out), w') →
  ∃ n, publish c m q w = Some ((c', n), w').
Proof.
  intros H. simpl in H. apply bind_inv in H as ([c1 n] & w1 & Hp & H).
  apply mret_inv in H. injection H as -> _ ->. by exists n.
Qed.

(** The stamps assigned along a run, from a state in which [done] have been
    assigned. *)
Lemma assigned_stamps_inv os : ∀ done w c c' outs w',
  monotone_clock w → stamps_inv w c done →
  (ConcurrencyMode (config c) = ConcurrencyModeLIFO →
   count_ops is_subscribe_call os = 0) →
  NoDup (published_objects os) → Forall (allocated w) (published_objects os) →
  (∀ p, p ∈ published_objects os → (p ∉ queue c) ∧ lastMessage c ≠ Some p) →
  Z.of_nat (length done) + count_ops is_publish_call os ≤ 2 ^ 31 →
  run c os w = Some ((c', outs), w') →
  ∃ log, assigned_stamps c os w = Some (log, w')
         ∧ Z.of_nat (length log) = count_ops is_publish_call os
         ∧ stamps_inv w' c' (done ++ log).
Proof.
  induction os as [|o os IH];
    intros done w c c' outs w' Hmono Hinv Hlifo Hnd Hall Hfresh Hlen Hrun.
  - apply mret_inv in Hrun. injection Hrun as -> _ ->.
    exists []. rewrite app_nil_r. done.
  - apply run_inv_step in Hrun as (c1 & out & w1 & outs' & Hs & Hrun & _).
    pose proof (step_inv _ _ _ _ _ _ Hs) as (Hlater & Hcfg & _).
    pose proof Hlater as [Hc _].
    assert (monotone_clock w1) as Hmono1 by (intros i j Hij; rewrite Hc; by apply Hmono).
    pose proof (count_ops_nonneg is_subscribe_call os) as Hn1.
    pose proof (count_ops_nonneg is_publish_call os) as Hn2.
    assert (ConcurrencyMode (config c1) = ConcurrencyModeLIFO →
            count_ops is_subscribe_call os = 0) as Hlifo1.
    { rewrite Hcfg. intros Hmode. specialize (Hlifo Hmode). simpl in Hlifo.
      destruct (is_subscribe_call o); lia. }
    assert (∀ log' s,
              assigned_stamps c1 os w1 = Some (log', w') →
              (if is_publish_call o then last_stamp c1 else mret []) w1 = Some (s, w1) →
              assigned_stamps c (o :: os) w = Some (s ++ log', w')) as Hlog.
    { intros log' s Hrest Hhere. cbn [assigned_stamps]. erewrite bind_Some by exact Hs.
      cbv beta iota. erewrite bind_Some by exact Hhere.
      by erewrite bind_Some by exact Hrest. }
    assert (∀ m q n w0,
              publish c m q w0 = Some ((c1, n), w1) →
              later w w0 → (∀ p, allocated w p → heap w0 !! p = heap w !! p) →
              m ∉ queue c → lastMessage c ≠ Some m →
              is_publish_call o = true →
              NoDup (published_objects os) → Forall (allocated w) (published_objects os) →
              (∀ p, p ∈ published_objects os →
                    p ≠ m ∧ (p ∉ queue c) ∧ lastMessage c ≠ Some p) →
              ∃ log, assigned_stamps c (o :: os) w = Some (log, w')
                     ∧ Z.of_nat (length log) = count_ops is_publish_call (o :: os)
                     ∧ stamps_inv w' c' (done ++ log)) as Hpublish.
    { intros m q n w0 Hp Hl0 Hh0 Hmq Hml Ho Hnd' Hall' Hfresh'.
      assert (monotone_clock w0) as Hmono0.
      { destruct Hl0 as [Hc0 _]. intros i j Hij. rewrite Hc0. by apply Hmono. }
      simpl in Hlen. rewrite Ho in Hlen.
      destruct (publish_stamps w0 c m q c1 n w1 done Hmono0) as (Hinv1 & Hlm1 & Hal1 & Hq1);
        [by apply (stamps_inv_ext w w0 c c)|done|done|lia|done|].
      assert (∀ p, allocated w p → allocated w0 p) as Hal0.
      { intros p Hp'. unfold allocated. by rewrite Hh0. }
      destruct (IH (done ++ [stamp_of (heap w1) m]) w1 c1 c' outs' w' Hmono1 Hinv1 Hlifo1 Hnd')
        as (log' & Hrest & Hlen' & Hinv'); [| | |exact Hrun|].
      - eapply Forall_impl; [exact Hall'|]. intros p Hp'. by apply Hal1, Hal0.
      - intros p Hp'. destruct (Hfresh' p Hp') as (Hne & Hpq & Hpl). split.
        + intros Hin. by destruct (Hq1 p Hin) as [->|Hin'].
        + rewrite Hlm1. by intros [= ->].
      - rewrite length_app. simpl length. lia.
      - exists ([stamp_of (heap w1) m] ++ log'). split.
        + apply Hlog; [done|]. rewrite Ho. unfold last_stamp. by rewrite Hlm1.
        + split.
          * rewrite length_app. simpl. rewrite Ho. simpl length. lia.
          * by rewrite app_assoc. }
    assert (is_publish_call o = false →
            (is_subscribe_call o = true →
             ConcurrencyMode (config c) ≠ ConcurrencyModeLIFO) →
            published_objects (o :: os) = published_objects os →
            ∃ log, assigned_stamps c (o :: os) w = Some (log, w')
                   ∧ Z.of_nat (length log) = count_ops is_publish_call (o :: os)
                   ∧ stamps_inv w' c' (done ++ log)) as Hquiet.
    { intros Ho Hmode Hobjs. rewrite Hobjs in Hnd, Hall, Hfresh.
      simpl in Hlen. rewrite Ho in Hlen.
      destruct (step_quiet _ _ _ _ _ _ Hs Ho Hmode) as (Hh & Hq & Hlm).
      assert (stamps_inv w1 c1 done) as Hinv1.
      { apply (stamps_inv_ext w w1 c c1); try done. intros p _. by rewrite Hh. }
      destruct (IH done w1 c1 c' outs' w' Hmono1 Hinv1 Hlifo1 Hnd)
        as (log' & Hrest & Hlen' & Hinv'); [| | |exact Hrun|].
      - eapply Forall_impl; [exact Hall|]. intros p. unfold allocated. by rewrite Hh.
      - rewrite Hq, Hlm. exact Hfresh.
      - lia.
      - exists ([] ++ log'). split; [apply Hlog; [done|by rewrite Ho]|].
        simpl. rewrite Ho. split; [lia|done]. }
    destruct Hinv as (Hqal & Hinv_rest). pose proof (conj Hqal Hinv_rest) as Hinv.
    destruct o as [m q|s q|since etg|elem|elem].
    + apply run_publish_inv in Hs as [n Hp].
      change (published_objects (OpPublish m q :: os)) with (m :: published_objects os)
        in Hnd, Hall, Hfresh.
      apply NoDup_cons in Hnd as [Hm_rest Hnd]. apply Forall_cons in Hall as [_ Hall].
      apply (Hpublish m q n w Hp (later_refl w)); [done| | |done|done|done|].
      * apply (Hfresh m). by left.
      * apply (Hfresh m). by left.
      * intros p Hp'. split; [by intros ->|]. apply Hfresh. by right.
    + simpl in Hs. apply bind_inv in Hs as ([c2 n] & w2 & Hp & Hs). apply mret_inv in Hs.
      injection Hs as -> _ ->. unfold PublishString in Hp.
      apply bind_inv in Hp as (m & w0 & Hnew & Hp). rewrite new_Message_run in Hnew.
      injection Hnew as <- <-. unfold Publish in Hp.
      set (m := fresh (dom (heap w))) in *.
      assert (¬ allocated w m) as Hm.
      { intros [x Hx]. pose proof (is_fresh (dom (heap w))) as Hf.
        apply not_elem_of_dom in Hf. fold m in Hf. congruence. }
      change (published_objects (OpPublishString s q :: os)) with (published_objects os)
        in Hnd, Hall, Hfresh.
      eapply (Hpublish m q n _ Hp); [by split| | | |done|done|done|].
      * intros p Hp'. simpl. rewrite lookup_insert_ne; [done|]. by intros <-.
      * intros Hin. apply Hm. rewrite Forall_forall in Hqal. by apply Hqal.
      * intros Hlm. destruct Hinv_rest as (_ & Hlast & _). rewrite Hlm in Hlast.
        by destruct Hlast as [? _].
      * intros p Hp'. split; [|by apply Hfresh]. intros ->.
        rewrite Forall_forall in Hall. by apply Hm, Hall.
    + apply Hquiet; [done| |done]. intros _ Hmode. specialize (Hlifo Hmode).
      simpl in Hlifo. lia.
    + by apply Hquiet.
    + by apply Hquiet.
Qed.

Lemma StronglySorted_fmap_inv {A B} (f : A → B) (R : relation B) (l : list A) :
  StronglySorted R (f <$> l) → StronglySorted (λ x y, R (f x) (f y)) l.
Proof.
  induction l as [|x l IH]; intros H; [constructor|].
  rewrite fmap_cons in H. apply StronglySorted_inv in H as [Hl Hx].
  constructor; [by apply IH|]. by rewrite Forall_fmap in Hx.
Qed.

(** ** The etag that [publish] computes, case by case *)


(** ** Which operations set the time stamps of the statistics *)

(** One step: [LastRequested] is read from the clock by a [Subscribe] and
    by nothing else, [LastPublished] by a publishing operation and by
    nothing else. *)
Lemma step_marks c o w c' out w' :
  step c o w = Some ((c', out), w') →
  (if is_subscribe_call o then reading w (ticks w) (ticks w') (LastRequested (stats c'))
   else LastRequested (stats c') = LastRequested (stats c))
  ∧ (if publishing (config c) o
     then reading w (ticks w) (ticks w') (LastPublished (stats c'))
     else LastPublished (stats c') = LastPublished (stats c)).
Proof.
  intros H. unfold publishing. destruct o as [m q|s q|since etg|elem|elem]; simpl in H |- *.
  - apply bind_inv in H as ([c1 n] & w1 & Hp & H). apply mret_inv in H.
    injection H as -> -> ->.
    apply publish_inv in Hp as (Hc & Ht & Hcfg & Hcr & Hlr & Hlp & Hq & Hqd).
    split; [done|]. exists (ticks w + 1)%nat. split; [lia|done].
  - apply bind_inv in H as ([c1 n] & w1 & Hp & H). apply mret_inv in H.
    injection H as -> -> ->. unfold PublishString in Hp.
    apply bind_inv in Hp as (p & w0 & Hn & Hp). injection Hn as <- <-.
    apply publish_inv in Hp as (Hc & Ht & Hcfg & Hcr & Hlr & Hlp & Hq & Hqd).
    simpl in *. split; [done|]. exists (ticks w + 1)%nat. split; [lia|done].
  - apply bind_inv in H as ([[c1 g] r] & w1 & Hs & H). apply mret_inv in H.
    injection H as -> -> ->.
    rewrite Subscribe_counted_unfold in Hs. cbv zeta in Hs.
    assert (∀ hi, (ticks w < hi)%nat → reading w (ticks w) hi (seconds w 0)) as Hread.
    { intros hi Hhi. exists (ticks w). split; [lia|]. unfold seconds.
      by rewrite Nat.add_0_r. }
    destruct (_ =? _).
    + apply bind_inv in Hs as ([c2 n] & w2 & Hp & Hs).
      apply publish_inv in Hp as (Hc & Ht & Hcfg & Hcr & Hlr & Hlp & Hq & Hqd).
      apply bind_inv in Hs as ([c3 r3] & w3 & Hl & Hs).
      apply Subscribe_lookup_inv in Hl
        as (Hc3 & Ht3 & Hcfg3 & Hcr3 & Hlr3 & Hlp3 & Hq3 & Hqd3).
      apply mret_inv in Hs. injection Hs as -> -> -> ->. simpl in *.
      split; [rewrite Hlr3, Hlr; apply Hread; lia|].
      exists (ticks w + 2)%nat. split; [lia|]. rewrite Hlp3, Hlp.
      unfold seconds. simpl. do 2 f_equal. lia.
    + destruct (_ && _).
      * injection Hs as <- <- <- <-. simpl. split; [apply Hread; lia|done].
      * apply bind_inv in Hs as ([c3 r3] & w3 & Hl & Hs).
        apply Subscribe_lookup_inv in Hl
          as (Hc3 & Ht3 & Hcfg3 & Hcr3 & Hlr3 & Hlp3 & Hq3 & Hqd3).
        apply mret_inv in Hs. injection Hs as -> -> -> ->. simpl in *.
        split; [rewrite Hlr3; apply Hread; lia|congruence].
  - apply bind_inv in H as (c1 & w1 & Hu & H). apply mret_inv in H. injection H as -> -> ->.
    unfold Unsubscribe in Hu. apply bind_inv in Hu as (u & w2 & Hcl & Hu).
    apply mret_inv in Hu. by injection Hu as -> ->.
  - apply bind_inv in H as (u & w1 & Ha & H). apply mret_inv in H. by injection H as -> -> ->.
Qed.

(** A run, under a clock that reads at least one second: [LastRequested] is
    left alone by a run without [Subscribe] and positive after any other
    run; likewise [LastPublished] and the publishing operations. *)
Lemma run_marks os : ∀ c w c' outs w',
  run c os w = Some ((c', outs), w') → (∀ i, 10 ^ 9 ≤ clock w i) →
  (if count_ops is_subscribe_call os =? 0
   then LastRequested (stats c') = LastRequested (stats c)
   else 0 < LastRequested (stats c'))
  ∧ (if count_ops (publishing (config c)) os =? 0
     then LastPublished (stats c') = LastPublished (stats c)
     else 0 < LastPublished (stats c')).
Proof.
  induction os as [|o os IH]; intros c w c' outs w' H Hclk.
  - apply mret_inv in H. by injection H as -> _ ->.
  - apply run_inv_step in H as (c1 & out & w1 & outs' & Hs & Hrun & _).
    pose proof (step_marks _ _ _ _ _ _ Hs) as [Hlr Hlp].
    apply step_inv in Hs as ([Hc _] & Hcfg & _).
    assert (∀ i, 10 ^ 9 ≤ clock w1 i) as Hclk1 by (intros i; by rewrite Hc).
    destruct (IH _ _ _ _ _ Hrun Hclk1) as [Hlr' Hlp']. rewrite Hcfg in Hlp'.
    assert (∀ lo hi v, reading w lo hi v → 0 < v) as Hpos.
    { intros lo hi v (k & _ & ->). specialize (Hclk k).
      assert (1 ≤ clock w k `div` 10 ^ 9); [|lia].
      apply Z.div_le_lower_bound; lia. }
    pose proof (count_ops_nonneg is_subscribe_call os) as H1.
    pose proof (count_ops_nonneg (publishing (config c)) os) as H2.
    simpl. split.
    + revert Hlr'. destruct (is_subscribe_call o).
      * apply Hpos in Hlr.
        destruct (Z.eqb_spec (1 + count_ops is_subscribe_call os) 0) as [?|_]; [lia|].
        destruct (count_ops is_subscribe_call os =? 0); [by intros ->|done].
      * rewrite Z.add_0_l. destruct (_ =? 0); [by intros ->|done].
    + revert Hlp'. destruct (publishing (config c) o).
      * apply Hpos in Hlp.
        destruct (Z.eqb_spec (1 + count_ops (publishing (config c)) os) 0) as [?|_]; [lia|].
        destruct (count_ops (publishing (config c)) os =? 0); [by intros ->|done].
      * rewrite Z.add_0_l.
        destruct (count_ops (publishing (config c)) os =? 0); [by intros ->|done].
Qed.

(** * Theorems *)

(** C1.  When [Subscribe] reaches its history lookup, in the state [c1],
    [w1] described by [lookup_state], it returns the first message of the
    queue, read from the oldest to the newest, whose stamp [(time, etag)] is
    lexicographically greater than [(since, etg)], and [stats.Delivered]
    grows by one; every older message fails the test; a message whose time
    equals [since] and whose etag is at most [etg] is not returned.  When no
    message passes the test, none is returned and [stats.Delivered] stays. *)
Theorem Subscribe_returns_first_newer w c since etg c1 w1 :
  lookup_state w c = Some (c1, w1) →
  Forall (allocated w1) (queue c1) →
  0 ≤ Delivered (stats c1) < max_int64 →
  match List.find (newer_than (heap w1) since etg) (reverse (queue c1)) with
  | Some p =>
      (∃ c', Subscribe c since etg w = Some ((c', (None, Some p)), w1)
             ∧ Delivered (stats c') = Delivered (stats c1) + 1)
      ∧ (∃ older newer, reverse (queue c1) = older ++ p :: newer
           ∧ Forall (λ o, ¬ stamp_lt (since, etg) (stamp_of (heap w1) o)) older)
      ∧ stamp_lt (since, etg) (stamp_of (heap w1) p)
      ∧ ¬ ((stamp_of (heap w1) p).1 = since ∧ (stamp_of (heap w1) p).2 ≤ etg)
  | None =>
      Forall (λ o, ¬ stamp_lt (since, etg) (stamp_of (heap w1) o)) (queue c1)
      ∧ ∃ c' r w', Subscribe c since etg w = Some ((c', (r, None)), w')
                   ∧ Delivered (stats c') = Delivered (stats c1)
  end.
Proof.
  intros Hst Hq Hd. rewrite (Subscribe_via_lookup _ _ _ _ _ _ Hst).
  pose proof (find_first (newer_than (heap w1) since etg) (reverse (queue c1))) as Hf.
  assert (∀ l, Forall (λ y, newer_than (heap w1) since etg y = false) l →
               Forall (λ o, ¬ stamp_lt (since, etg) (stamp_of (heap w1) o)) l) as Hneg.
  { intros l Hl. eapply Forall_impl; [exact Hl|]. intros o Ho Hlt. apply stamp_ltb_spec in Hlt.
    unfold newer_than in Ho. congruence. }
  destruct (List.find _ _) as [p|] eqn:Hfind.
  - destruct Hf as (older & newer & Hsplit & Hold & Hp).
    apply stamp_ltb_spec in Hp. repeat split.
    + eexists. split; [by apply Subscribe_lookup_hit|]. simpl.
      apply int64_small. unfold max_int64 in *. lia.
    + exists older, newer. split; [done|]. by apply Hneg.
    + done.
    + unfold stamp_lt in Hp. simpl in Hp. lia.
  - split.
    + apply Hneg in Hf. rewrite Forall_forall in Hf |- *. intros o Ho. apply Hf.
      by apply elem_of_reverse.
    + rewrite Subscribe_lookup_miss by done.
      destruct (_ =? _); simpl; eauto 10.
Qed.

Lemma Subscribe_returns_first_newer_witness :
  (∃ c', Subscribe (history_channel intervalConf) 7 0 history_world
         = Some ((c', (None, Some 4%positive)), with_ticks 7 history_world)
         ∧ Delivered (stats c') = 1)
  ∧ (∃ older newer, [3; 4; 5]%positive = older ++ 4%positive :: newer
       ∧ Forall (λ o, ¬ stamp_lt (7, 0) (stamp_of (heap history_world) o)) older)
  ∧ stamp_lt (7, 0) (7, 1)
  ∧ ¬ (7 = 7 ∧ 1 ≤ 0).
Proof.
  refine (Subscribe_returns_first_newer history_world (history_channel intervalConf) 7 0
            _ _ eq_refl _ _).
  - repeat constructor; by eexists.
  - unfold max_int64. simpl. lia.
Defined.

(** C2.  Queued publishes on a channel with a positive capacity: the run
    completes, the queue holds the most recent [ChannelCapacity] messages,
    newest first, its length never exceeds the capacity and [stats.Queued]
    is its length.  One step: on a full queue the oldest message (the last of
    the vector) is dropped and [stats.Queued] stays; otherwise
    [stats.Queued] grows by one; the new message goes to the front. *)
Theorem queue_keeps_latest_capacity w c ms :
  0 < ChannelCapacity (config c) ≤ max_int →
  chan_ok w c → Forall (allocated w) ms →
  Z.of_nat (length (queue c)) ≤ ChannelCapacity (config c) →
  Queued (stats c) = Z.of_nat (length (queue c)) →
  (∃ c' outs w',
     run c (queued_all ms) w = Some ((c', outs), w')
     ∧ queue c' = take (Z.to_nat (ChannelCapacity (config c))) (reverse ms ++ queue c)
     ∧ Z.of_nat (length (queue c')) ≤ ChannelCapacity (config c)
     ∧ Queued (stats c') = Z.of_nat (length (queue c')))
  ∧ (∀ m, allocated w m →
       ∃ c1 n w1,
         Publish c m true w = Some ((c1, n), w1)
         ∧ if Z.of_nat (length (queue c)) =? ChannelCapacity (config c)
           then (∃ front oldest, queue c = front ++ [oldest] ∧ queue c1 = m :: front)
                ∧ Queued (stats c1) = Queued (stats c)
           else queue c1 = m :: queue c ∧ Queued (stats c1) = Queued (stats c) + 1).
Proof.
  intros Hcap Hok Hms Hlen Hqd. split.
  - revert w c Hcap Hok Hms Hlen Hqd.
    induction ms as [|m ms IH]; intros w c Hcap Hok Hms Hlen Hqd.
    + exists c, [], w. repeat split; [|done..]. simpl. rewrite take_ge; [done|lia].
    + apply Forall_cons in Hms as [[msg Hm] Hms].
      destruct (publish_queue_step w c m msg Hcap Hm Hok Hlen Hqd) as (Hrun & Hq1 & Hqd1 & _).
      set (c1 := published w c m true) in *. set (w1 := after_publish w c m msg) in *.
      assert (Z.of_nat (length (queue c1)) ≤ ChannelCapacity (config c)) as Hlen1.
      { rewrite Hq1, length_take. lia. }
      destruct (IH w1 c1) as (c' & outs & w' & Hrun' & Hq' & Hlen' & Hqd'); try done.
      { by apply publish_ok. }
      { eapply Forall_impl; [exact Hms|]. intros p. apply allocated_after_publish. }
      exists c', (Sent (int (woken (chans w) (subscribers c))) :: outs), w'.
      split.
      { change (queued_all (m :: ms)) with (OpPublish m true :: queued_all ms).
        erewrite run_cons by (apply step_publish, Hrun). by rewrite Hrun'. }
      split; [|done].
      rewrite Hq'. change (config c1) with (config c). rewrite Hq1, take_app_take.
      rewrite reverse_cons, <- app_assoc. reflexivity.
  - intros m [msg Hm].
    destruct (publish_queue_step w c m msg Hcap Hm Hok Hlen Hqd) as (Hrun & _ & _ & Hstep).
    eauto.
Qed.

Lemma queue_keeps_latest_capacity_witness :
  ∃ c' outs w',
    run (idle_channel longConf) (queued_all [3; 4; 5; 6]%positive) test_world
    = Some ((c', outs), w')
    ∧ queue c' = [6; 5; 4]%positive
    ∧ Z.of_nat (length (queue c')) ≤ 3
    ∧ Queued (stats c') = Z.of_nat (length (queue c')).
Proof.
  apply (queue_keeps_latest_capacity test_world (idle_channel longConf) [3; 4; 5; 6]%positive).
  - unfold max_int. simpl. lia.
  - apply idle_channel_ok.
  - repeat constructor; by apply test_world_allocated.
  - simpl. lia.
  - reflexivity.
Defined.

(** C3, as stated, fails.  One object published and queued twice within a
    second is assigned the stamps (7, 0) and then (7, 1), which do increase;
    but the queue holds the object twice, so that its two entries carry one
    stamp, (7, 1). *)
Lemma monotone_stamps_counterexample :
  ¬ monotone_stamps_claim test_world (idle_channel longConf)
      [(3%positive, true); (3%positive, true)].
Proof.
  intros H.
  assert (∃ c' outs w' log,
            run (idle_channel longConf)
              (publishes [(3%positive, true); (3%positive, true)]) test_world
            = Some ((c', outs), w')
            ∧ assigned_stamps (idle_channel longConf)
                (publishes [(3%positive, true); (3%positive, true)]) test_world
              = Some (log, w')
            ∧ log = [(7, 0); (7, 1)]
            ∧ queue c' = [3; 3]%positive)
    as (c' & outs & w' & log & Hrun & Hlog & _ & Hq).
  { eexists _, _, _, _. split; [vm_compute; reflexivity|].
    split; [vm_compute; reflexivity|]. done. }
  destruct (H _ _ _ _ Hrun Hlog) as (_ & _ & Hs). rewrite Hq in Hs.
  apply StronglySorted_inv in Hs as [_ Hall].
  apply Forall_cons in Hall as [Hlt _].
  by apply stamp_lt_irrefl in Hlt.
Qed.

(** C3, amended.  A run of operations on a channel that has published
    nothing yet, under a clock that does not go back: calls of [Publish],
    each with a message object that exists at the start and is given to no
    other call, calls of [PublishString], and, with them, any [Subscribe],
    [Unsubscribe] and wait, except that in LIFO mode the run holds no
    [Subscribe]; at most 2^31 publish calls.  On a well-formed channel, in
    a store that holds the Conflict message, such a run completes when it
    holds no [Unsubscribe] and no wait.  Whenever it completes, the stamps
    that its publish calls assigned are, in the order of the calls: the
    first etag is 0; each time is at least the previous one; each etag is
    the previous etag plus 1 within the same second and 0 in a new second;
    so they increase strictly.  The stamps of the queued messages are,
    newest first, a subsequence of the assigned stamps reversed, so that in
    the queue every older message has a strictly smaller stamp than every
    newer one. *)
Theorem distinct_publishes_monotone_stamps os w c :
  monotone_clock w →
  lastMessage c = None → queue c = [] →
  (ConcurrencyMode (config c) = ConcurrencyModeLIFO →
   count_ops is_subscribe_call os = 0) →
  NoDup (published_objects os) → Forall (allocated w) (published_objects os) →
  count_ops is_publish_call os ≤ 2 ^ 31 →
  (chan_ok w c → allocated w conflictMessage → Forall (always_enabled w) os →
   ∃ c' outs w', run c os w = Some ((c', outs), w'))
  ∧ ∀ c' outs w',
      run c os w = Some ((c', outs), w') →
      ∃ log,
        assigned_stamps c os w = Some (log, w')
        ∧ Z.of_nat (length log) = count_ops is_publish_call os
        ∧ (∀ s, head log = Some s → s.2 = 0)
        ∧ chain stamp_follows log
        ∧ StronglySorted stamp_lt log
        ∧ (stamp_of (heap w') <$> queue c') `sublist_of` reverse log
        ∧ StronglySorted (flip (older_than (heap w'))) (queue c').
Proof.
  intros Hmono Hlast Hq Hlifo Hnd Hall Hlen. split.
  { intros Hok Hcm Hen. by apply run_completes. }
  intros c' outs w' Hrun.
  destruct (assigned_stamps_inv os [] w c c' outs w' Hmono) as (log & Hlog & Hlen' & Hinv);
    try done.
  - unfold stamps_inv. rewrite Hlast, Hq. split; [constructor|]. split; [constructor|].
    do 2 (split; [done|]). split; [apply chain_nil|done].
  - intros p _. rewrite Hlast, Hq. split; [apply not_elem_of_nil|done].
  - destruct Hinv as (_ & Hsub & _ & _ & Hch & Hhead). rewrite app_nil_l in *.
    assert (StronglySorted stamp_lt log) as Hsorted.
    { apply chain_StronglySorted.
      - intros x y z. apply stamp_lt_trans.
      - eapply chain_impl; [|exact Hch]. apply stamp_follows_lt. }
    exists log. do 6 (split; [done|]).
    apply (StronglySorted_fmap_inv (stamp_of (heap w')) (flip stamp_lt)).
    eapply StronglySorted_sublist; [exact Hsub|]. by apply StronglySorted_reverse.
Qed.

Lemma distinct_publishes_monotone_stamps_witness :
  ∃ c' outs w' log,
    run (idle_channel longConf) mixed_ops test_world = Some ((c', outs), w')
    ∧ assigned_stamps (idle_channel longConf) mixed_ops test_world = Some (log, w')
    ∧ log = [(7, 0); (7, 1); (8, 0); (9, 0)]
    ∧ chain stamp_follows log
    ∧ StronglySorted stamp_lt log
    ∧ (stamp_of (heap w') <$> queue c') `sublist_of` reverse log
    ∧ StronglySorted (flip (older_than (heap w'))) (queue c').
Proof.
  destruct (distinct_publishes_monotone_stamps mixed_ops test_world (idle_channel longConf))
    as [Hcompletes Hstamps].
  - apply test_world_monotone.
  - reflexivity.
  - reflexivity.
  - discriminate.
  - compute_done.
  - repeat constructor; by apply test_world_allocated.
  - simpl. lia.
  - destruct Hcompletes as (c' & outs & w' & Hrun).
    + apply idle_channel_ok.
    + by apply test_world_allocated.
    + repeat constructor; by apply test_world_allocated.
    + destruct (Hstamps c' outs w' Hrun) as (log & Hlog & _ & _ & Hch & Hs & Hsub & Hq).
      exists c', outs, w', log. split; [exact Hrun|]. split; [exact Hlog|].
      split; [|do 3 (split; [assumption|]); assumption].
      pose proof Hlog as Hlog'. vm_compute in Hlog'. injection Hlog' as <- _.
      reflexivity.
Defined.

(** C4.  [GC] at second 200.  With [MaxChannelIdleTime = 0] and fewer
    channels than [MaxChannels], the only channel, idle since second 100, is
    evicted.  With a maximal idle time of 50 seconds and the channels visited
    as "fresh", "stale", the loop stops at "fresh" and keeps "stale", which
    has been idle for 100 seconds; visited as "stale", "fresh", it evicts
    "stale". *)
Theorem GC_evicts_despite_unlimited_idle_time :
  (∃ gone w', GC unlimited_pusher ["a"] (at_nanoseconds (200 * 10 ^ 9))
              = Some ((with_channels ∅ unlimited_pusher, gone, 1), w'))
  ∧ (∃ w', GC two_pusher ["fresh"; "stale"] (at_nanoseconds (200 * 10 ^ 9))
           = Some ((two_pusher, [], 0), w'))
  ∧ (∃ p' gone w', GC two_pusher ["stale"; "fresh"] (at_nanoseconds (200 * 10 ^ 9))
                   = Some ((p', gone, 1), w')
                   ∧ channels p' !! "stale" = None
                   ∧ is_Some (channels p' !! "fresh")).
Proof.
  split; [|split].
  - eexists _, _. vm_compute. reflexivity.
  - eexists. vm_compute. reflexivity.
  - eexists _, _, _. split; [vm_compute; reflexivity|]. split; [reflexivity|].
    by eexists.
Qed.

(** C5.  The plain-text statistics of a channel that was requested 50
    seconds ago and never published to: [writeStats] hands -1 for
    lastRequested and the raw 0 for lastPublished to the formatter (the
    else-branch of the lastPublished test assigns to [LastRequested]). *)
Theorem writeStats_plain_unpublished :
  writeStats requested_channel "plain" (at_nanoseconds (150 * 10 ^ 9))
  = Some ([0; -1; 0; 0; 0; 0], with_ticks 1 (at_nanoseconds (150 * 10 ^ 9))).
Proof. reflexivity. Qed.




(** C7.  In FILO mode, with at least one parked subscriber, [Subscribe]
    returns no wait-slot and the Conflict message, and leaves the list of
    subscribers, the queue, the wait-slots and the heap as they were. *)
Theorem FILO_conflict_leaves_subscribers w c since etg :
  ConcurrencyMode (config c) = ConcurrencyModeFILO →
  subscribers c ≠ [] →
  Subscribers (stats c) = Z.of_nat (length (subscribers c)) →
  ∃ c' w',
    Subscribe c since etg w = Some ((c', (None, Some conflictMessage)), w')
    ∧ subscribers c' = subscribers c
    ∧ queue c' = queue c
    ∧ Subscribers (stats c') = Subscribers (stats c)
    ∧ chans w' = chans w
    ∧ heap w' = heap w.
Proof.
  intros Hmode Hsubs Hcount.
  unfold Subscribe, mbind, M_bind. rewrite Subscribe_counted_unfold. cbv zeta.
  rewrite Hmode.
  assert ((Subscribers (stats c) >? 0) = true) as ->.
  { apply Z.gtb_lt. rewrite Hcount. destruct (subscribers c); [done|]. simpl length. lia. }
  simpl. eauto 10.
Qed.

Lemma FILO_conflict_leaves_subscribers_witness :
  ∃ c' w',
    Subscribe (parked_channel (with_mode ConcurrencyModeFILO longConf)) 0 0 test_world
    = Some ((c', (None, Some conflictMessage)), w')
    ∧ subscribers c' = [1%positive; 2%positive]
    ∧ queue c' = []
    ∧ Subscribers (stats c') = 2
    ∧ chans w' = chans test_world
    ∧ heap w' = heap test_world.
Proof.
  apply (FILO_conflict_leaves_subscribers test_world
           (parked_channel (with_mode ConcurrencyModeFILO longConf)) 0 0);
    [reflexivity|discriminate|reflexivity].
Defined.

(** C8, as stated, fails: a parked wait-slot whose handler has not reached
    its receive yet is closed without the Conflict message. *)
Lemma LIFO_wakes_all_counterexample :
  ¬ LIFO_wakes_all_claim test_world (parked_channel lifoConf) 0 0.
Proof.
  intros (c' & r & w' & Hrun & Hall).
  destruct (Hall 2%positive) as (sl & Hsl & Hrecv); [set_solver|].
  vm_compute in Hrun. injection Hrun as _ _ <-.
  vm_compute in Hsl. injection Hsl as <-. discriminate.
Qed.

(** C8, amended.  In LIFO mode [Subscribe] completes; every parked
    wait-slot is closed, and it holds the Conflict message exactly when its
    handler was waiting on it ([kick]); the list of subscribers is cleared
    and the new request goes on as usual: it is answered with the first
    newer message of the queue, or (Interval) with nothing, or (Long) it
    parks one fresh wait-slot and [stats.Subscribers] is 1. *)
Theorem LIFO_subscribe_closes_parked w c since etg cm :
  ConcurrencyMode (config c) = ConcurrencyModeLIFO →
  chan_ok w c → heap w !! conflictMessage = Some cm →
  ∃ c' r w',
    Subscribe c since etg w = Some ((c', r), w')
    ∧ (∀ s sl, s ∈ subscribers c → chans w !! s = Some sl →
               chans w' !! s = Some (kick conflictMessage sl))
    ∧ queue c' = queue c
    ∧ match List.find (newer_than (heap w') since etg) (reverse (queue c)) with
      | Some p => r = (None, Some p) ∧ subscribers c' = [] ∧ Subscribers (stats c') = 0
      | None =>
          if PollingMechanism (config c) =? PollingMechanismInterval
          then r = (None, None) ∧ subscribers c' = [] ∧ Subscribers (stats c') = 0
          else ∃ ch, r = (Some ch, None) ∧ subscribers c' = [ch]
                     ∧ Subscribers (stats c') = 1
                     ∧ chans w !! ch = None ∧ chans w' !! ch = Some open_slot
      end.
Proof.
  intros Hmode Hok Hcm.
  destruct (lookup_state_LIFO w c cm Hmode Hok Hcm) as [Hst Hok1].
  set (w0 := with_ticks (S (ticks w)) w) in *.
  set (c0 := with_stats (set_LastRequested (seconds w 0) (stats c)) c) in *.
  set (c1 := published w0 c0 conflictMessage false) in *.
  set (w1 := after_publish w0 c0 conflictMessage cm) in *.
  rewrite (Subscribe_via_lookup _ _ since etg _ _ Hst).
  assert (∀ s sl, s ∈ subscribers c → chans w !! s = Some sl →
                  chans w1 !! s = Some (kick conflictMessage sl)) as Hkick.
  { intros s sl Hs Hsl. unfold w1, after_publish. simpl.
    rewrite kick_all_in; [by rewrite Hsl|by destruct Hok|done]. }
  assert (Forall (allocated w1) (queue c1)) as Hq1 by (by destruct Hok1).
  change (queue c1) with (queue c) in *.
  destruct (List.find (newer_than (heap w1) since etg) (reverse (queue c))) as [p|] eqn:Hfind.
  - eexists _, _, _. split; [by apply Subscribe_lookup_hit|].
    rewrite Hfind. done.
  - rewrite (Subscribe_lookup_miss w1 c1 since etg Hq1 Hfind).
    change (config c1) with (config c).
    destruct (PollingMechanism (config c) =? PollingMechanismInterval) eqn:Hpoll.
    + eexists _, _, _. split; [done|]. rewrite Hfind. done.
    + set (ch := fresh (dom (chans w1))).
      assert (chans w1 !! ch = None) as Hch by apply fresh_slot_unused.
      eexists _, _, _. split; [done|]. cbn [heap chans]. rewrite Hfind.
      split; [|split; [done|]].
      * intros s sl Hs Hsl. rewrite lookup_insert_ne; [by apply Hkick|].
        intros <-. rewrite (Hkick _ _ Hs Hsl) in Hch. done.
      * exists ch. repeat split.
        -- destruct (chans w !! ch) as [sl|] eqn:Hsl; [|done].
           destruct (decide (ch ∈ subscribers c)) as [Hin|Hout].
           ++ rewrite (Hkick _ _ Hin Hsl) in Hch. done.
           ++ unfold w1, after_publish in Hch. simpl in Hch.
              rewrite kick_all_notin in Hch by done. congruence.
        -- apply lookup_insert_eq.
Qed.

Lemma LIFO_subscribe_closes_parked_witness :
  ∃ c' r w',
    Subscribe (parked_channel lifoConf) 0 0 test_world = Some ((c', r), w')
    ∧ (∀ s sl, s ∈ [1; 2]%positive → chans test_world !! s = Some sl →
               chans w' !! s = Some (kick conflictMessage sl))
    ∧ queue c' = []
    ∧ ∃ ch, r = (Some ch, None) ∧ subscribers c' = [ch]
            ∧ Subscribers (stats c') = 1
            ∧ chans test_world !! ch = None ∧ chans w' !! ch = Some open_slot.
Proof.
  apply (LIFO_subscribe_closes_parked test_world (parked_channel lifoConf) 0 0 _
           eq_refl parked_LIFO_ok eq_refl).
Defined.

(** C9, as stated, fails: in LIFO mode one [Subscribe] on a channel that
    nobody published to leaves [stats.Published] at 1. *)
Lemma counter_claim_counterexample :
  ¬ counter_claim test_world (idle_channel lifoConf) [OpSubscribe 0 0].
Proof.
  intros H.
  destruct (run (idle_channel lifoConf) [OpSubscribe 0 0] test_world)
    as [[[c' outs] w']|] eqn:Hrun; [|vm_compute in Hrun; discriminate].
  destruct (H c' outs w' Hrun) as [HP _].
  vm_compute in Hrun. injection Hrun as <- _ _. vm_compute in HP. discriminate.
Qed.

(** C9, amended.  After any run of operations on a channel whose counters
    start at zero, whatever the configuration: [stats.Published] is the
    number of Publish and PublishString calls plus, in LIFO mode, the number
    of Subscribe calls (each publishes the Conflict message);
    [stats.Delivered] is the sum of the delivered counts of all publishes,
    those of the Conflict message included, plus the number of Subscribe calls
    answered from the queue; [stats.Subscribers] is the number of parked
    wait-slots.  Each counter holds its number as a wrapped machine integer
    ([int64], [int64], [int]).  The statement is about every run that
    completes; [step_progress] and [run_completes] show which runs do. *)
Theorem counters_account_for_run w c os c' outs w' :
  run c os w = Some ((c', outs), w') →
  Published (stats c) = 0 → Delivered (stats c) = 0 →
  Subscribers (stats c) = 0 → subscribers c = [] →
  Published (stats c')
  = int64 (count_ops is_publish_call os
           + (if ConcurrencyMode (config c) =? ConcurrencyModeLIFO
              then count_ops is_subscribe_call os else 0))
  ∧ Delivered (stats c') = int64 (total delivered_count outs + total immediate_hit outs)
  ∧ Subscribers (stats c') = int (Z.of_nat (length (subscribers c'))).
Proof.
  intros H HP HD HS Hsubs.
  destruct (run_counters os c w c' outs w' 0 0 H) as (_ & HP' & HD' & HS'); try done.
  by rewrite HS, Hsubs.
Qed.

Lemma counters_account_for_run_witness :
  ∃ c' outs w',
    run (idle_channel lifoConf) lifo_ops test_world = Some ((c', outs), w')
    ∧ Published (stats c') = int64 (2 + 3)
    ∧ Delivered (stats c') = int64 (1 + 1)
    ∧ Subscribers (stats c') = int (Z.of_nat (length (subscribers c'))).
Proof.
  destruct (run (idle_channel lifoConf) lifo_ops test_world)
    as [[[c' outs] w']|] eqn:Hrun; [|vm_compute in Hrun; discriminate].
  exists c', outs, w'. split; [reflexivity|].
  pose proof (counters_account_for_run test_world (idle_channel lifoConf) lifo_ops
                c' outs w' Hrun eq_refl eq_refl eq_refl eq_refl) as Hacc.
  vm_compute in Hrun. injection Hrun as <- <- _. exact Hacc.
Defined.

(** C10.  [Publish] stamps the object it is given: after two queued
    publishes of the same object the heap holds no new object, the object
    carries the stamp of the second publish only (its time, and etag 1), and
    the two newest queue entries are that one object. *)
Theorem Publish_twice_one_object w c m msg :
  heap w !! m = Some msg → chan_ok w c → 2 ≤ ChannelCapacity (config c) →
  ∃ c1 n1 w1 c2 n2 w2 msg2,
    Publish c m true w = Some ((c1, n1), w1)
    ∧ heap w1 !! m = Some (set_etag (next_etag w c m) (set_time (seconds w 0) msg))
    ∧ Publish c1 m true w1 = Some ((c2, n2), w2)
    ∧ heap w2 !! m = Some msg2
    ∧ time msg2 = seconds w 2 ∧ etag msg2 = 1
    ∧ take 2 (queue c2) = [m; m]
    ∧ dom (heap w2) = dom (heap w)
    ∧ ∀ p, p ≠ m → heap w2 !! p = heap w !! p.
Proof.
  intros Hm Hok Hcap.
  pose proof (publish_run w c m true msg Hm Hok) as H1.
  pose proof (publish_ok w c m true msg Hm Hok) as Hok1.
  set (c1 := published w c m true) in *. set (w1 := after_publish w c m msg) in *.
  assert (heap w1 !! m = Some (stamped w c m msg)) as Hm1 by apply lookup_insert_eq.
  pose proof (publish_run w1 c1 m true _ Hm1 Hok1) as H2.
  eexists _, _, _, _, _, _, _. split; [exact H1|]. split; [exact Hm1|].
  split; [exact H2|]. split; [apply lookup_insert_eq|].
  assert ((ChannelCapacity (config c) >? 0) = true) as Hpos by (apply Z.gtb_lt; lia).
  repeat split.
  - unfold seconds, w1. simpl. replace (ticks w + 2)%nat with (S (S (ticks w + 0))) by lia. reflexivity.
  - unfold stamped at 1, next_etag. simpl. by rewrite decide_True.
  - simpl. unfold enqueue at 1. simpl. rewrite Hpos. simpl.
    unfold enqueue. rewrite Hpos. simpl.
    destruct (Z.of_nat (S _) >=? _) eqn:Hfull; [|done].
    unfold vector_Pop. simpl length. rewrite Nat.sub_succ, Nat.sub_0_r.
    destruct (length _) eqn:Hlen; [|done].
    apply Z.geb_le in Hfull. lia.
  - simpl. rewrite dom_insert_lookup_L by (rewrite lookup_insert_eq; by eexists).
    apply dom_insert_lookup_L. by eexists.
  - intros p Hp. simpl. by rewrite !lookup_insert_ne.
Qed.

Lemma Publish_twice_one_object_witness :
  ∃ c1 n1 w1 c2 n2 w2 msg2,
    Publish (idle_channel longConf) 3%positive true test_world = Some ((c1, n1), w1)
    ∧ heap w1 !! 3%positive = Some (set_etag 0 (set_time 7 (tm 1)))
    ∧ Publish c1 3%positive true w1 = Some ((c2, n2), w2)
    ∧ heap w2 !! 3%positive = Some msg2
    ∧ time msg2 = 7 ∧ etag msg2 = 1
    ∧ take 2 (queue c2) = [3%positive; 3%positive]
    ∧ dom (heap w2) = dom (heap test_world)
    ∧ ∀ p, p ≠ 3%positive → heap w2 !! p = heap test_world !! p.
Proof.
  apply (Publish_twice_one_object test_world (idle_channel longConf) 3%positive (tm 1));
    [reflexivity|apply idle_channel_ok|simpl; lia].
Defined.

(** * Further properties of the code *)

(** X1.  [Publish] on a well-formed channel completes.  It returns the
    number of parked wait-slots whose handler was waiting (as an [int]);
    every parked wait-slot is closed, and holds the message exactly when its
    handler was waiting ([kick]); no other wait-slot is touched; the list of
    subscribers is empty afterwards, [stats.Subscribers] is 0 and
    [stats.Delivered] has grown by the number returned. *)
Theorem Publish_hands_over_to_waiting_subscribers w c m q msg :
  heap w !! m = Some msg → chan_ok w c →
  ∃ c' n w',
    Publish c m q w = Some ((c', n), w')
    ∧ n = int (woken (chans w) (subscribers c))
    ∧ 0 ≤ woken (chans w) (subscribers c) ≤ Z.of_nat (length (subscribers c))
    ∧ (∀ s sl, s ∈ subscribers c → chans w !! s = Some sl →
               chans w' !! s = Some (kick m sl))
    ∧ (∀ s, s ∉ subscribers c → chans w' !! s = chans w !! s)
    ∧ subscribers c' = [] ∧ Subscribers (stats c') = 0
    ∧ Delivered (stats c') = int64 (Delivered (stats c) + n).
Proof.
  intros Hm Hok. eexists _, _, _. split; [by apply publish_run|].
  split; [done|]. split; [apply woken_bounds|]. split; [|split; [|done]].
  - intros s sl Hs Hsl. simpl. rewrite kick_all_in; [by rewrite Hsl|by destruct Hok|done].
  - intros s Hs. simpl. by apply kick_all_notin.
Qed.

Lemma Publish_hands_over_to_waiting_subscribers_witness :
  ∃ c' n w',
    Publish (parked_channel longConf) 3%positive true test_world = Some ((c', n), w')
    ∧ n = int (woken (chans test_world) [1; 2]%positive)
    ∧ 0 ≤ woken (chans test_world) [1; 2]%positive ≤ 2
    ∧ (∀ s sl, s ∈ [1; 2]%positive → chans test_world !! s = Some sl →
               chans w' !! s = Some (kick 3%positive sl))
    ∧ (∀ s, s ∉ [1; 2]%positive → chans w' !! s = chans test_world !! s)
    ∧ subscribers c' = [] ∧ Subscribers (stats c') = 0
    ∧ Delivered (stats c') = int64 (0 + n).
Proof.
  apply (Publish_hands_over_to_waiting_subscribers test_world (parked_channel longConf)
           3%positive true (tm 1) eq_refl (parked_channel_ok longConf)).
Defined.

(** X2.  Long polling delivers.  When [Subscribe] returned a wait-slot and
    the handler has started to wait on it, the next [Publish] on the channel
    hands its message to that wait-slot and closes it, and (with fewer than
    2^31 subscribers) reports at least one delivery. *)
Theorem parked_subscriber_receives_next_publish w c since etg c1 ch r w1 m msg q :
  chan_ok w c →
  Subscribe c since etg w = Some ((c1, (Some ch, r)), w1) →
  heap w !! m = Some msg →
  ∃ w2 c3 n w3,
    await ch w1 = Some ((), w2)
    ∧ Publish c1 m q w2 = Some ((c3, n), w3)
    ∧ chans w3 !! ch = Some {| waiting := false; received := Some m; closed := true |}
    ∧ (Z.of_nat (length (subscribers c1)) ≤ max_int → 1 ≤ n).
Proof.
  intros Hok Hsub Hm.
  destruct (parked_awaits _ _ _ _ _ _ _ _ Hok Hsub)
    as (w2 & Haw & Hok2 & Hin & Hslot & _ & _ & _ & Hal & _).
  destruct (Hal m) as [msg2 Hm2]; [by eexists|].
  exists w2. eexists _, _, _. split; [done|].
  split; [apply (publish_run w2 c1 m q msg2 Hm2 Hok2)|]. split.
  - simpl. rewrite kick_all_in; [|by destruct Hok2|done]. by rewrite Hslot.
  - intros Hlen. rewrite int_small.
    + apply (woken_waiting _ _ ch Hin). unfold is_waiting. by rewrite Hslot.
    + pose proof (woken_bounds (chans w2) (subscribers c1)). lia.
Qed.

Lemma parked_subscriber_receives_next_publish_witness :
  ∃ w2 c3 n w3,
    await 3%positive
      {| heap := heap test_world;
         chans := <[3%positive := open_slot]> (chans test_world);
         clock := clock test_world; ticks := 1 |} = Some ((), w2)
    ∧ Publish (with_stats (set_Subscribers 1 (set_LastRequested 7 empty_stats))
                 (with_subscribers [3%positive] (idle_channel longConf)))
        4%positive true w2 = Some ((c3, n), w3)
    ∧ chans w3 !! 3%positive
      = Some {| waiting := false; received := Some 4%positive; closed := true |}
    ∧ (Z.of_nat 1 ≤ max_int → 1 ≤ n).
Proof.
  apply (parked_subscriber_receives_next_publish test_world (idle_channel longConf) 0 0
           _ 3%positive None _ 4%positive (tm 2) true (idle_channel_ok longConf)
           eq_refl eq_refl).
Defined.



(** X4.  With interval polling [Subscribe] completes and never hands out a
    wait-slot: it allocates none.  Outside LIFO mode the list of subscribers
    and its counter are the ones it found; in LIFO mode the list is empty
    and the counter is 0 afterwards. *)
Theorem interval_polling_never_parks w c since etg :
  chan_ok w c → allocated w conflictMessage →
  PollingMechanism (config c) = PollingMechanismInterval →
  ∃ c' m w',
    Subscribe c since etg w = Some ((c', (None, m)), w')
    ∧ dom (chans w') = dom (chans w)
    ∧ subscribers c'
      = (if ConcurrencyMode (config c) =? ConcurrencyModeLIFO then [] else subscribers c)
    ∧ Subscribers (stats c')
      = (if ConcurrencyMode (config c) =? ConcurrencyModeLIFO then 0
         else Subscribers (stats c)).
Proof.
  intros Hok [cm Hcm] Hpoll.
  assert (∀ c1 w1,
            lookup_state w c = Some (c1, w1) → chan_ok w1 c1 → config c1 = config c →
            ∃ c' m,
              Subscribe c since etg w = Some ((c', (None, m)), w1)
              ∧ subscribers c' = subscribers c1
              ∧ Subscribers (stats c') = Subscribers (stats c1)) as Hloop.
  { intros c1 w1 Hst Hok1 Hcfg.
    rewrite (Subscribe_via_lookup _ _ since etg _ _ Hst).
    pose proof Hok1 as [_ _ Hq _].
    destruct (List.find (newer_than (heap w1) since etg) (reverse (queue c1)))
      as [p|] eqn:Hfind.
    - eexists _, _. split; [by apply Subscribe_lookup_hit|]. done.
    - rewrite (Subscribe_lookup_miss w1 c1 since etg Hq Hfind), Hcfg, Hpoll. simpl.
      eexists _, _. done. }
  destruct (Z.eqb_spec (ConcurrencyMode (config c)) ConcurrencyModeLIFO) as [Hmode|Hmode].
  - destruct (lookup_state_LIFO w c cm Hmode Hok Hcm) as [Hst Hok1].
    destruct (Hloop _ _ Hst Hok1 eq_refl) as (c' & m & Hrun & Hsubs & Hcount).
    eexists c', m, _. split; [exact Hrun|]. split; [apply kick_all_dom|]. done.
  - destruct ((ConcurrencyMode (config c) =? ConcurrencyModeFILO)
              && (Subscribers (stats c) >? 0)) eqn:Hfilo.
    + unfold Subscribe, mbind, M_bind. rewrite Subscribe_counted_unfold. cbv zeta.
      apply Z.eqb_neq in Hmode. rewrite Hmode, Hfilo. by eexists _, _, _.
    + assert (lookup_state w c
              = Some (with_stats (set_LastRequested (seconds w 0) (stats c)) c,
                      with_ticks (S (ticks w)) w)) as Hst.
      { unfold lookup_state. apply Z.eqb_neq in Hmode. by rewrite Hmode, Hfilo. }
      destruct (Hloop _ _ Hst (chan_ok_requested _ _ _ Hok) eq_refl)
        as (c' & m & Hrun & Hsubs & Hcount).
      eexists c', m, _. split; [exact Hrun|]. done.
Qed.

Lemma interval_polling_never_parks_witness :
  ∃ c' m w',
    Subscribe (parked_channel (with_mode ConcurrencyModeLIFO intervalConf)) 0 0 test_world
    = Some ((c', (None, m)), w')
    ∧ dom (chans w') = dom (chans test_world)
    ∧ subscribers c' = []
    ∧ Subscribers (stats c') = 0.
Proof.
  apply (interval_polling_never_parks test_world
           (parked_channel (with_mode ConcurrencyModeLIFO intervalConf)) 0 0).
  - apply parked_channel_ok.
  - by eexists.
  - reflexivity.
Defined.

(** X5.  The exclusive concurrency modes park at most one subscriber.  In
    LIFO and in FILO mode, after any run of publishes, subscribes,
    unsubscribes and waits on a channel that started with at most one parked
    wait-slot counted by [stats.Subscribers], the channel has at most one
    parked wait-slot, and [stats.Subscribers] counts it. *)
Theorem exclusive_modes_park_at_most_one os : ∀ c w c' outs w',
  ConcurrencyMode (config c) = ConcurrencyModeLIFO
  ∨ ConcurrencyMode (config c) = ConcurrencyModeFILO →
  run c os w = Some ((c', outs), w') →
  at_most_one_parked c → at_most_one_parked c'.
Proof.
  induction os as [|o os IH]; intros c w c' outs w' Hmode H Hinv.
  - apply mret_inv in H. by injection H as -> _ _.
  - apply run_inv_step in H as (c1 & out & w1 & outs' & Hs & Hr & _).
    destruct (at_most_one_step _ _ _ _ _ _ Hmode Hs Hinv) as [Hinv1 Hcfg].
    apply (IH c1 w1 c' outs' w'); [by rewrite Hcfg|done|done].
Qed.

Lemma exclusive_modes_park_at_most_one_witness :
  ∃ c' outs w',
    run (idle_channel lifoConf) lifo_ops test_world = Some ((c', outs), w')
    ∧ at_most_one_parked c'.
Proof.
  destruct (run (idle_channel lifoConf) lifo_ops test_world)
    as [[[c' outs] w']|] eqn:Hrun; [|vm_compute in Hrun; discriminate].
  exists c', outs, w'. split; [reflexivity|].
  apply (exclusive_modes_park_at_most_one lifo_ops (idle_channel lifoConf) test_world
           c' outs w'); [by left|exact Hrun|].
  split; simpl; [lia|done].
Defined.

(** X6.  The queue bound is an invariant of every run.  Whatever the
    operations applied to a channel (publishes queued or not, subscribes in
    any mode, unsubscribes), when the run completes the configuration is the
    same, the queue holds at most [ChannelCapacity] messages (none when the
    capacity is not positive) and [stats.Queued] is its length, provided
    this held at the start. *)
Theorem queue_bound_holds_along_runs os : ∀ c w c' outs w',
  run c os w = Some ((c', outs), w') →
  ChannelCapacity (config c) ≤ max_int →
  queue_bounded c →
  config c' = config c ∧ queue_bounded c'.
Proof.
  induction os as [|o os IH]; intros c w c' outs w' H Hcap Hb.
  - apply mret_inv in H. by injection H as -> _ _.
  - apply run_inv_step in H as (c1 & out & w1 & outs' & Hs & Hr & _).
    apply step_inv in Hs as (_ & Hcfg & _ & _ & _ & m & q & Hq & Hqd).
    destruct (enqueue_bounded c m q Hcap Hb) as [Hlen1 Hqd1].
    destruct (IH c1 w1 c' outs' w' Hr) as [Hcfg' Hb'].
    + by rewrite Hcfg.
    + split; [by rewrite Hq, Hcfg|by rewrite Hq, Hqd].
    + split; [congruence|done].
Qed.

Lemma queue_bound_holds_along_runs_witness :
  ∃ c' outs w',
    run (idle_channel lifoConf) lifo_ops test_world = Some ((c', outs), w')
    ∧ config c' = lifoConf ∧ queue_bounded c'.
Proof.
  destruct (run (idle_channel lifoConf) lifo_ops test_world)
    as [[[c' outs] w']|] eqn:Hrun; [|vm_compute in Hrun; discriminate].
  exists c', outs, w'. split; [reflexivity|].
  apply (queue_bound_holds_along_runs lifo_ops (idle_channel lifoConf) test_world
           c' outs w' Hrun).
  - unfold max_int. simpl. lia.
  - split; simpl; lia.
Defined.

(** X7.  A channel whose capacity is zero (or negative) queues nothing:
    after any run the queue and [stats.Queued] are what they were, whatever
    was published with the queueing flag set. *)
Theorem no_capacity_queues_nothing os : ∀ c w c' outs w',
  run c os w = Some ((c', outs), w') →
  ChannelCapacity (config c) ≤ 0 →
  queue c' = queue c ∧ Queued (stats c') = Queued (stats c).
Proof.
  induction os as [|o os IH]; intros c w c' outs w' H Hcap.
  - apply mret_inv in H. by injection H as -> _ _.
  - apply run_inv_step in H as (c1 & out & w1 & outs' & Hs & Hr & _).
    apply step_inv in Hs as (_ & Hcfg & _ & _ & _ & m & q & Hq & Hqd).
    destruct (enqueue_without_capacity c m q Hcap) as [Hq0 Hqd0].
    destruct (IH c1 w1 c' outs' w' Hr) as [Hq' Hqd']; [by rewrite Hcfg|].
    split; congruence.
Qed.

Lemma no_capacity_queues_nothing_witness :
  ∃ c' outs w',
    run (idle_channel unqueuedConf) (queued_all [3; 4]%positive) test_world
    = Some ((c', outs), w')
    ∧ queue c' = [] ∧ Queued (stats c') = 0.
Proof.
  destruct (run (idle_channel unqueuedConf) (queued_all [3; 4]%positive) test_world)
    as [[[c' outs] w']|] eqn:Hrun; [|vm_compute in Hrun; discriminate].
  exists c', outs, w'. split; [reflexivity|].
  apply (no_capacity_queues_nothing (queued_all [3; 4]%positive)
           (idle_channel unqueuedConf) test_world c' outs w' Hrun).
  simpl. lia.
Defined.

(** X8.  The stamp of a channel is the time of its latest activity.  Under
    a clock that does not go back and is never negative, after any run on a
    channel made by [newChannel], [stamp] is the maximum of [stats.Created],
    [stats.LastRequested] and [stats.LastPublished]. *)
Theorem stamp_is_latest_activity id cfg os w c0 w0 c outs w' :
  monotone_clock w → (∀ i, 0 ≤ clock w i) →
  newChannel id cfg w = Some (c0, w0) →
  run c0 os w0 = Some ((c, outs), w') →
  stamp c = Z.max (Created (stats c))
              (Z.max (LastRequested (stats c)) (LastPublished (stats c))).
Proof.
  intros Hmono Hpos Hnew Hrun.
  unfold newChannel in Hnew. apply bind_inv in Hnew as (now & w1 & Hn & Hnew).
  injection Hn as <- <-. apply mret_inv in Hnew. injection Hnew as -> ->.
  assert (stamps_read (with_ticks (S (ticks w)) w)
            {| subscribers := []; config := cfg; lastMessage := None;
               stats := {| Created := clock w (ticks w) `div` 10 ^ 9; Delivered := 0;
                           LastPublished := 0; LastRequested := 0; Published := 0;
                           Subscribers := 0; Queued := 0 |};
               chan_id := id; queue := [] |}) as Hr.
  { exists (ticks w). simpl. split; [done|]. split; [lia|]. split; by left. }
  destruct (stamps_read_run _ _ _ _ _ _ Hrun Hr) as [Hr' [Hc _]].
  simpl in Hc. apply (stamps_read_stamp w'); [| |done].
  - intros i j Hij. rewrite Hc. by apply Hmono.
  - intros i. rewrite Hc. apply Hpos.
Qed.

Lemma stamp_is_latest_activity_witness :
  ∃ c0 w0 c outs w',
    newChannel "test" lifoConf test_world = Some (c0, w0)
    ∧ run c0 lifo_ops w0 = Some ((c, outs), w')
    ∧ stamp c = Z.max (Created (stats c))
                  (Z.max (LastRequested (stats c)) (LastPublished (stats c))).
Proof.
  destruct (newChannel "test" lifoConf test_world) as [[c0 w0]|] eqn:Hnew;
    [|vm_compute in Hnew; discriminate].
  destruct (run c0 lifo_ops w0) as [[[c outs] w']|] eqn:Hrun.
  - exists c0, w0, c, outs, w'. split; [reflexivity|]. split; [exact Hrun|].
    apply (stamp_is_latest_activity "test" lifoConf lifo_ops test_world c0 w0 c outs w'
             test_world_monotone).
    + intros i. simpl. lia.
    + exact Hnew.
    + exact Hrun.
  - exfalso. injection Hnew as <- <-. vm_compute in Hrun. discriminate.
Defined.

(** X9.  The plain-text statistics of a channel made by [newChannel],
    after any run, under a clock that does not go back, reads at least one
    second and stays within [int64].  [writeStats] completes and reports the
    counters as they are.  When the run held no publishing operation (no
    call of [Publish] or [PublishString], and in LIFO mode no [Subscribe]
    either), last-published is 0 and last-requested is -1, whether or not
    the run held a [Subscribe].  When the run held a publishing operation,
    last-published is the time since [stats.LastPublished] in seconds, never
    negative, and last-requested is -1 when the run held no [Subscribe] and
    otherwise the time since [stats.LastRequested], never negative. *)
Theorem plain_statistics_report_ages id cfg os w c0 w0 c outs w1 :
  monotone_clock w → (∀ i, 10 ^ 9 ≤ clock w i ≤ max_int64) →
  newChannel id cfg w = Some (c0, w0) →
  run c0 os w0 = Some ((c, outs), w1) →
  ∃ lr lp w2,
    writeStats c "plain" w1
    = Some ([Queued (stats c); lr; lp; Subscribers (stats c); Published (stats c);
             Delivered (stats c)], w2)
    ∧ (count_ops (publishing cfg) os = 0 → lr = -1 ∧ lp = 0)
    ∧ (0 < count_ops (publishing cfg) os → count_ops is_subscribe_call os = 0 →
       lr = -1 ∧ lp = seconds w1 0 - LastPublished (stats c) ∧ 0 ≤ lp)
    ∧ (0 < count_ops (publishing cfg) os → 0 < count_ops is_subscribe_call os →
       lr = seconds w1 0 - LastRequested (stats c) ∧ 0 ≤ lr
       ∧ lp = seconds w1 1 - LastPublished (stats c) ∧ 0 ≤ lp).
Proof.
  intros Hmono Hrange Hnew Hrun.
  unfold newChannel in Hnew. apply bind_inv in Hnew as (now & wn & Hn & Hnew).
  injection Hn as <- <-. apply mret_inv in Hnew. injection Hnew as -> ->.
  assert (stamps_read (with_ticks (S (ticks w)) w)
            {| subscribers := []; config := cfg; lastMessage := None;
               stats := {| Created := clock w (ticks w) `div` 10 ^ 9; Delivered := 0;
                           LastPublished := 0; LastRequested := 0; Published := 0;
                           Subscribers := 0; Queued := 0 |};
               chan_id := id; queue := [] |}) as Hr.
  { exists (ticks w). simpl. split; [done|]. split; [lia|]. split; by left. }
  destruct (stamps_read_run _ _ _ _ _ _ Hrun Hr) as [(t0 & _ & _ & Hlr & Hlp) [Hc _]].
  destruct (run_marks _ _ _ _ _ _ Hrun) as [Hmr Hmp]; [intros i; apply Hrange|].
  simpl in Hc, Hmr, Hmp.
  assert (monotone_clock w1) as Hmono1 by (intros i j Hij; rewrite Hc; by apply Hmono).
  assert (∀ i, 0 ≤ clock w1 i ≤ max_int64) as Hrange1.
  { intros i. rewrite Hc. specialize (Hrange i). lia. }
  assert (∀ v k, v = 0 ∨ reading w1 t0 (ticks w1) v →
                 0 ≤ v ∧ (0 < v → int64 (seconds w1 k - v) = seconds w1 k - v
                                  ∧ 0 ≤ seconds w1 k - v)) as Hage.
  { intros v k [->|Hv]; [split; [done|lia]|].
    destruct (age_bounds w1 t0 v k Hmono1 Hrange1 Hv) as (H0 & H1 & H2). done. }
  destruct (Hage _ 0%nat Hlr) as [Hlr0 Hlr_age].
  destruct (Hage _ 0%nat Hlp) as [Hlp0 Hlp_age0].
  destruct (Hage _ 1%nat Hlp) as [_ Hlp_age1].
  pose proof (count_ops_nonneg is_subscribe_call os) as Hn1.
  pose proof (count_ops_nonneg (publishing cfg) os) as Hn2.
  rewrite writeStats_plain. cbv zeta.
  destruct (Z.eqb_spec (count_ops is_subscribe_call os) 0) as [Hs0|Hs0];
    destruct (Z.eqb_spec (count_ops (publishing cfg) os) 0) as [Hp0|Hp0].
  - rewrite Hmr, Hmp. simpl. eexists _, _, _. split; [done|]. split; [done|]. split; lia.
  - rewrite Hmr. assert ((LastPublished (stats c) >? 0) = true) as -> by (by apply Z.gtb_lt).
    simpl. destruct (Hlp_age0 Hmp) as [-> ?].
    eexists _, _, _. split; [done|]. split; [lia|]. split; [done|lia].
  - rewrite Hmp. assert ((LastRequested (stats c) >? 0) = true) as -> by (by apply Z.gtb_lt).
    simpl. eexists _, _, _. split; [done|]. split; [done|]. split; lia.
  - assert ((LastPublished (stats c) >? 0) = true) as -> by (by apply Z.gtb_lt).
    assert ((LastRequested (stats c) >? 0) = true) as -> by (by apply Z.gtb_lt).
    destruct (Hlr_age Hmr) as [-> ?]. destruct (Hlp_age1 Hmp) as [-> ?].
    eexists _, _, _. split; [done|]. split; [lia|]. split; [lia|]. done.
Qed.

Lemma plain_statistics_report_ages_witness :
  ∃ c0 w0 c outs w1 lr lp w2,
    newChannel "test" lifoConf (at_nanoseconds (150 * 10 ^ 9)) = Some (c0, w0)
    ∧ run c0 [OpSubscribe 0 0] w0 = Some ((c, outs), w1)
    ∧ writeStats c "plain" w1
      = Some ([Queued (stats c); lr; lp; Subscribers (stats c); Published (stats c);
               Delivered (stats c)], w2)
    ∧ lr = seconds w1 0 - LastRequested (stats c) ∧ 0 ≤ lr
    ∧ lp = seconds w1 1 - LastPublished (stats c) ∧ 0 ≤ lp.
Proof.
  destruct (newChannel "test" lifoConf (at_nanoseconds (150 * 10 ^ 9)))
    as [[c0 w0]|] eqn:Hnew; [|vm_compute in Hnew; discriminate].
  destruct (run c0 [OpSubscribe 0 0] w0) as [[[c outs] w1]|] eqn:Hrun.
  - exists c0, w0, c, outs, w1.
    destruct (plain_statistics_report_ages "test" lifoConf [OpSubscribe 0 0]
                (at_nanoseconds (150 * 10 ^ 9)) c0 w0 c outs w1)
      as (lr & lp & w2 & Hw & _ & _ & H); [| |exact Hnew|exact Hrun|].
    + intros i j Hij. simpl. lia.
    + intros i. unfold max_int64. simpl. lia.
    + exists lr, lp, w2. split; [reflexivity|]. split; [exact Hrun|].
      split; [exact Hw|]. apply H; reflexivity.
  - exfalso. injection Hnew as <- <-. vm_compute in Hrun. discriminate.
Defined.

(** X10.  The negotiation of the statistics format.  Whatever the Accept
    header (in lower case), the type of the answer is "text" or
    "application" and the subtype is "plain" or "json".  The subtype is
    "json" exactly when the header is "text/json" or "application/json", so
    for every other header, such as one with parameters or with several
    media types, [writeStats] formats the statistics as plain text; the type
    is "application" exactly when the header starts with "application/",
    whatever follows. *)
Theorem negotiated_statistics_format accept c w :
  (((negotiate accept).1 = "text" ∨ (negotiate accept).1 = "application")
   ∧ ((negotiate accept).2 = "plain" ∨ (negotiate accept).2 = "json"))
  ∧ ((negotiate accept).2 = "json"
     ↔ accept = "text/json" ∨ accept = "application/json")
  ∧ ((negotiate accept).1 = "application" ↔ ∃ rest, accept = "application/" +:+ rest)
  ∧ (accept ≠ "text/json" → accept ≠ "application/json" →
     writeStats c (negotiate accept).2 w = writeStats c "plain" w).
Proof.
  assert ((negotiate accept).2 = "json"
          ↔ accept = "text/json" ∨ accept = "application/json") as Hjson.
  { split.
    - destruct (negotiate_cases accept) as [(t & st & Hcut & Ht & ->) | ->]; [|done].
      simpl. destruct (has_format st) eqn:Hf; [|done]. intros ->.
      apply cut_at_slash_sound in Hcut. destruct Ht as [-> | ->]; [by left|by right].
    - intros [-> | ->]; reflexivity. }
  assert ((negotiate accept).2 = "plain" ∨ (negotiate accept).2 = "json") as Hsub.
  { destruct (negotiate_cases accept) as [(t & st & _ & _ & ->) | ->]; [|by left].
    simpl. destruct (has_format st) eqn:Hf; [by apply has_format_spec|by left]. }
  split; [split; [|done]|split; [done|split]].
  - destruct (negotiate_cases accept) as [(t & st & _ & Ht & ->) | ->]; [done|by left].
  - split.
    + destruct (negotiate_cases accept) as [(t & st & Hcut & _ & ->) | ->]; [|done].
      simpl. intros ->. exists st. by apply cut_at_slash_sound in Hcut.
    + intros [rest ->]. unfold negotiate, strings_Split2.
      change (cut_at_slash ("application/" +:+ rest)) with (Some ("application", rest)).
      cbv beta iota. rewrite (bool_decide_eq_true_2 ("application" = "application")) by done.
      rewrite andb_false_r. by destruct (has_format rest).
  - intros H1 H2. destruct Hsub as [-> | Hj]; [done|].
    apply Hjson in Hj as [?|?]; done.
Qed.

(** X11.  [Channel] gets or creates.  On a well-formed pusher it completes;
    it reports a creation exactly when no channel was filed under the id;
    afterwards the channel it returns is the one filed under the id, the
    other channels are untouched, the pusher is well formed, and a second
    call returns the same channel without creating one. *)
Theorem Channel_gets_or_creates w p cid :
  pusher_ok w p →
  ∃ p1 c created w0,
    Channel p cid w = Some ((p1, c, created), w0)
    ∧ (created = true ↔ channels p !! cid = None)
    ∧ channels p1 !! cid = Some c
    ∧ (∀ k, k ≠ cid → channels p1 !! k = channels p !! k)
    ∧ pusher_ok w0 p1
    ∧ Channel p1 cid w0 = Some ((p1, c, false), w0).
Proof.
  intros Hok.
  destruct (Channel_ok w p cid Hok)
    as (p1 & c & created & w0 & Hch & Hc1 & Hok1 & _ & _ & _ & Hothers & Hcreated & _).
  exists p1, c, created, w0. do 5 (split; [done|]). by apply Channel_found.
Qed.

Lemma Channel_gets_or_creates_witness :
  ∃ p1 c created w0,
    Channel two_pusher "new" test_world = Some ((p1, c, created), w0)
    ∧ (created = true ↔ channels two_pusher !! "new" = None)
    ∧ channels p1 !! "new" = Some c
    ∧ (∀ k, k ≠ "new" → channels p1 !! k = channels two_pusher !! k)
    ∧ pusher_ok w0 p1
    ∧ Channel p1 "new" w0 = Some ((p1, c, false), w0).
Proof.
  apply (Channel_gets_or_creates test_world two_pusher "new").
  apply pair_pusher_ok; try done; apply aged_channel_ok.
Defined.

(** X12.  [GC] on a well-formed pusher completes and keeps it well formed.
    It removes from the map the channels of a prefix of the order in which
    [range] visited it and returns the length of that prefix; every other
    channel stays in the map as it was; the evicted channels are those of the
    prefix, each left without subscribers. *)
Theorem GC_removes_a_prefix_of_the_range_order w p (order : list string) :
  pusher_ok w p → range_order p order → allocated w goneMessage →
  ∃ p' gone n w',
    GC p order w = Some ((p', gone, Z.of_nat n), w')
    ∧ (n ≤ length order)%nat
    ∧ chan_id <$> gone = take n order
    ∧ Forall (λ c, subscribers c = []) gone
    ∧ (∀ k, k ∈ take n order → channels p' !! k = None)
    ∧ (∀ k, k ∉ take n order → channels p' !! k = channels p !! k)
    ∧ size (channels p') = (size (channels p) - n)%nat
    ∧ pconfig p' = pconfig p
    ∧ pusher_ok w' p'.
Proof.
  intros Hok Hrange Hgone.
  destruct (GC_run w p order Hok Hrange Hgone)
    as (gone & w' & Hrun & Hids & Hsubs & Hn & Hok').
  destruct Hrange as [Hnd Hin].
  eexists _, gone, _, w'. split; [exact Hrun|]. do 3 (split; [done|]).
  split; [|split; [|split; [|done]]]; cbn [channels with_channels pconfig].
  - intros k Hk. rewrite foldl_delete_lookup. by rewrite decide_True.
  - intros k Hk. rewrite foldl_delete_lookup. by rewrite decide_False.
  - rewrite foldl_delete_size.
    + rewrite length_take. lia.
    + eapply sublist_NoDup; [exact Hnd|apply sublist_take].
    + intros k Hk. apply Hin. eapply elem_of_sublist; [exact Hk|apply sublist_take].
Qed.

Lemma GC_removes_a_prefix_of_the_range_order_witness :
  ∃ p' gone n w',
    GC two_pusher ["stale"; "fresh"] (at_nanoseconds (200 * 10 ^ 9))
    = Some ((p', gone, Z.of_nat n), w')
    ∧ (n ≤ 2)%nat
    ∧ chan_id <$> gone = take n ["stale"; "fresh"]
    ∧ Forall (λ c, subscribers c = []) gone
    ∧ (∀ k, k ∈ take n ["stale"; "fresh"] → channels p' !! k = None)
    ∧ (∀ k, k ∉ take n ["stale"; "fresh"] → channels p' !! k = channels two_pusher !! k)
    ∧ size (channels p') = (size (channels two_pusher) - n)%nat
    ∧ pconfig p' = pconfig two_pusher
    ∧ pusher_ok w' p'.
Proof.
  apply (GC_removes_a_prefix_of_the_range_order (at_nanoseconds (200 * 10 ^ 9)) two_pusher
           ["stale"; "fresh"]).
  - apply pair_pusher_ok; try done; apply aged_channel_ok.
  - apply pair_range_order. done.
  - by eexists.
Defined.

(** X13.  With a positive [MaxChannels], [GC] leaves at most [MaxChannels]
    channels in the map, and the number it returns is the number of
    channels it removed. *)
Theorem GC_enforces_MaxChannels w p (order : list string) :
  pusher_ok w p → range_order p order → allocated w goneMessage →
  0 < MaxChannels (pconfig p) → Z.of_nat (size (channels p)) ≤ max_int →
  ∃ p' gone n w',
    GC p order w = Some ((p', gone, n), w')
    ∧ Z.of_nat (size (channels p')) ≤ MaxChannels (pconfig p)
    ∧ Z.of_nat (size (channels p')) = Z.of_nat (size (channels p)) - n
    ∧ 0 ≤ n.
Proof.
  intros Hok Hrange Hgone Hmax Hsize.
  destruct (GC_run w p order Hok Hrange Hgone)
    as (gone & w' & Hrun & Hids & Hsubs & Hn & Hok').
  pose proof (range_order_size p order Hrange) as Hlen.
  destruct Hrange as [Hnd Hin].
  set (sorted := omap (λ k, channels p !! k) order) in *.
  set (n := evictions _ _ _ _) in *.
  assert (length sorted = length order) as Hls
    by (apply omap_lookup_length; intros k; apply Hin).
  pose proof (evictions_cap (pconfig p) (gc_limit w p) sorted _ Hmax
                ltac:(rewrite Hls, Hlen; reflexivity) Hsize) as Hcap.
  fold n in Hcap.
  assert (size (foldl (λ m k, delete k m) (channels p) (take n order))
          = (size (channels p) - n)%nat) as Hsz.
  { rewrite foldl_delete_size.
    - rewrite length_take. lia.
    - eapply sublist_NoDup; [exact Hnd|apply sublist_take].
    - intros k Hk. apply Hin. eapply elem_of_sublist; [exact Hk|apply sublist_take]. }
  eexists _, gone, _, w'. split; [exact Hrun|].
  cbn [channels with_channels]. rewrite Hsz. lia.
Qed.

Lemma GC_enforces_MaxChannels_witness :
  ∃ p' gone n w',
    GC crowded_pusher ["stale"; "fresh"] (at_nanoseconds (200 * 10 ^ 9))
    = Some ((p', gone, n), w')
    ∧ Z.of_nat (size (channels p')) ≤ 1
    ∧ Z.of_nat (size (channels p')) = Z.of_nat (size (channels crowded_pusher)) - n
    ∧ 0 ≤ n.
Proof.
  apply (GC_enforces_MaxChannels (at_nanoseconds (200 * 10 ^ 9)) crowded_pusher
           ["stale"; "fresh"]).
  - apply pair_pusher_ok; try done; apply aged_channel_ok.
  - apply pair_range_order. done.
  - by eexists.
  - simpl. lia.
  - unfold max_int. vm_compute. discriminate.
Defined.

(** X14.  Without a cap on the number of channels, [GC] evicts the stale
    channels that [range] visited before the first fresh one, and no other:
    every evicted channel had a stamp below the limit, the first channel it
    keeps has a stamp at or above the limit, and every channel visited after
    that one stays in the map, stale or not. *)
Theorem GC_without_cap_evicts_the_leading_stale_channels w p (order : list string) :
  pusher_ok w p → range_order p order → allocated w goneMessage →
  MaxChannels (pconfig p) = 0 →
  ∃ p' gone n w',
    GC p order w = Some ((p', gone, Z.of_nat n), w')
    ∧ (∀ k c, k ∈ take n order → channels p !! k = Some c →
              stamp c < gc_limit w p ∧ channels p' !! k = None)
    ∧ (∀ k c, order !! n = Some k → channels p !! k = Some c → gc_limit w p ≤ stamp c)
    ∧ (∀ k, k ∈ drop n order → channels p' !! k = channels p !! k).
Proof.
  intros Hok Hrange Hgone Hmax.
  destruct (GC_run w p order Hok Hrange Hgone)
    as (gone & w' & Hrun & Hids & Hsubs & Hn & Hok').
  destruct Hrange as [Hnd Hin].
  assert (∀ k, k ∈ order → is_Some (channels p !! k)) as Hall by (intros k; apply Hin).
  set (sorted := omap (λ k, channels p !! k) order) in *.
  set (n := evictions _ _ _ _) in *.
  destruct (evictions_stale (pconfig p) (gc_limit w p) sorted
              (Z.of_nat (size (channels p))) Hmax) as [Hstale Hfresh].
  fold n in Hstale, Hfresh.
  eexists _, gone, n, w'. split; [exact Hrun|].
  cbn [channels with_channels]. split; [|split].
  - intros k c Hk Hc. split.
    + rewrite Forall_forall in Hstale. apply Hstale.
      apply list_elem_of_lookup in Hk as [i Hi]. apply lookup_take_Some in Hi as [Hi Hlt].
      apply list_elem_of_lookup. exists i. apply lookup_take_Some. split; [|done].
      unfold sorted. rewrite omap_lookup_all by done. by rewrite Hi.
    + rewrite foldl_delete_lookup. by rewrite decide_True.
  - intros k c Hk Hc. apply Hfresh. unfold sorted.
    rewrite omap_lookup_all by done. by rewrite Hk.
  - intros k Hk. rewrite foldl_delete_lookup. rewrite decide_False; [done|].
    intros Hk'. rewrite <- (take_drop n order) in Hnd.
    apply NoDup_app in Hnd as (_ & Hdisj & _). by apply (Hdisj k).
Qed.

Lemma GC_without_cap_evicts_the_leading_stale_channels_witness :
  ∃ p' gone n w',
    GC two_pusher ["fresh"; "stale"] (at_nanoseconds (200 * 10 ^ 9))
    = Some ((p', gone, Z.of_nat n), w')
    ∧ (∀ k c, k ∈ take n ["fresh"; "stale"] → channels two_pusher !! k = Some c →
              stamp c < gc_limit (at_nanoseconds (200 * 10 ^ 9)) two_pusher
              ∧ channels p' !! k = None)
    ∧ (∀ k c, ["fresh"; "stale"] !! n = Some k → channels two_pusher !! k = Some c →
              gc_limit (at_nanoseconds (200 * 10 ^ 9)) two_pusher ≤ stamp c)
    ∧ (∀ k, k ∈ drop n ["fresh"; "stale"] → channels p' !! k = channels two_pusher !! k).
Proof.
  apply (GC_without_cap_evicts_the_leading_stale_channels (at_nanoseconds (200 * 10 ^ 9))
           two_pusher ["fresh"; "stale"]).
  - apply pair_pusher_ok; try done; apply aged_channel_ok.
  - apply pair_range_order. done.
  - by eexists.
  - reflexivity.
Defined.

(** X15.  What [handlePublisher] never does.  A request that is not a PUT,
    not a DELETE and not a POST with a readable body (so: a GET, an unknown
    method, an empty channel id, a POST whose body cannot be read) leaves the
    map of channels, the heap and the wait-slots as they were.  Its status
    is 200, 404, 405 or 500; it is 200 exactly for a GET of an existing
    channel under a non-empty id, and the statistics are written exactly
    then. *)
Theorem publisher_requests_that_only_read acceptor p req w p' status body w' :
  handlePublisher acceptor p req w = Some ((p', (status, body)), w') →
  Method req ≠ "PUT" → Method req ≠ "DELETE" →
  (Method req = "POST" → Body req = None) →
  p' = p ∧ heap w' = heap w ∧ chans w' = chans w
  ∧ (status = 200 ∨ status = 404 ∨ status = 405 ∨ status = 500)
  ∧ (is_Some body ↔ status = 200)
  ∧ (status = 200 ↔ Method req = "GET" ∧ acceptor req ≠ ""
                    ∧ is_Some (channels p !! acceptor req)).
Proof.
  intros H Hput Hdel Hpost.
  destruct (handlePublisher_refused acceptor p req w) as (H404 & H405 & H500).
  destruct (decide (acceptor req = "")) as [Hcid|Hcid].
  { rewrite (H404 Hcid) in H. injection H as <- <- <- <-.
    do 3 (split; [done|]). split; [auto|]. split; [|split; [done|tauto]].
    split; [by intros [? ?]|done]. }
  destruct (decide (Method req = "GET")) as [Hget|Hget].
  - rewrite (handlePublisher_GET _ _ _ _ Hcid Hget) in H.
    destruct (channels p !! acceptor req) as [c|] eqn:Hc.
    + destruct (writeStats_run c (Accept req) w) as (stats & w1 & Hst & Hheap & Hch & _).
      erewrite bind_Some in H by exact Hst. injection H as <- <- <- <-.
      do 3 (split; [done|]). split; [auto|]. split; [done|]. split; [|done].
      intros _. split; [done|]. split; [done|by eexists].
    + injection H as <- <- <- <-.
      do 3 (split; [done|]). split; [auto|]. split; [|split; [done|]].
      * split; [by intros [? ?]|done].
      * intros (_ & _ & [? ?]). done.
  - destruct (decide (Method req = "POST")) as [Hp|Hp].
    + rewrite (H500 Hcid Hp (Hpost Hp)) in H. injection H as <- <- <- <-.
      do 3 (split; [done|]). split; [auto|]. split; [|split; [done|tauto]].
      split; [by intros [? ?]|done].
    + rewrite (H405 Hcid Hget Hput Hp Hdel) in H. injection H as <- <- <- <-.
      do 3 (split; [done|]). split; [auto|]. split; [|split; [done|tauto]].
      split; [by intros [? ?]|done].
Qed.

Lemma publisher_requests_that_only_read_witness :
  ∃ p' status body w',
    handlePublisher (QueryParameterAcceptor "channel") parked_pusher (request "GET") test_world
    = Some ((p', (status, body)), w')
    ∧ p' = parked_pusher ∧ heap w' = heap test_world ∧ chans w' = chans test_world
    ∧ (status = 200 ∨ status = 404 ∨ status = 405 ∨ status = 500)
    ∧ (is_Some body ↔ status = 200)
    ∧ (status = 200 ↔ "GET" = "GET" ∧ "test" ≠ ""
                      ∧ is_Some (channels parked_pusher !! "test")).
Proof.
  eexists _, _, _, _. split; [reflexivity|].
  apply (publisher_requests_that_only_read (QueryParameterAcceptor "channel") parked_pusher
           (request "GET") test_world _ _ _ _ eq_refl); done.
Defined.

(** X16.  The life of a channel through the publisher location.  Under a
    non-empty channel id that names no channel yet: a PUT answers 200 with
    statistics and creates the channel; a GET then answers 200 with
    statistics and changes nothing; a DELETE then answers 200 with statistics
    and leaves the map of channels exactly as it was before the PUT; after
    it a GET answers 404 and a second DELETE answers 404, without
    statistics. *)
Theorem PUT_GET_DELETE_life_cycle acceptor p put get del w :
  acceptor put ≠ "" → acceptor get = acceptor put → acceptor del = acceptor put →
  Method put = "PUT" → Method get = "GET" → Method del = "DELETE" →
  channels p !! acceptor put = None → allocated w goneMessage →
  ∃ p1 s1 w1 s2 w2 s3 w3,
    handlePublisher acceptor p put w = Some ((p1, (200, Some s1)), w1)
    ∧ is_Some (channels p1 !! acceptor put)
    ∧ (∀ k, k ≠ acceptor put → channels p1 !! k = channels p !! k)
    ∧ handlePublisher acceptor p1 get w1 = Some ((p1, (200, Some s2)), w2)
    ∧ handlePublisher acceptor p1 del w2 = Some ((p, (200, Some s3)), w3)
    ∧ handlePublisher acceptor p get w3 = Some ((p, (404, None)), w3)
    ∧ handlePublisher acceptor p del w3 = Some ((p, (404, None)), w3).
Proof.
  intros Hcid Hget Hdel Hmp Hmg Hmd Hnone Hgone.
  set (cid := acceptor put) in *.
  set (c := fresh_channel cid (pconfig p) (seconds w 0)).
  set (p1 := with_channels (<[cid := c]> (channels p)) p).
  set (w0 := with_ticks (S (ticks w)) w).
  destruct (writeStats_run c (Accept put) w0) as (s1 & w1 & Hs1 & Hh1 & Hc1 & _).
  destruct (writeStats_run c (Accept get) w1) as (s2 & w2 & Hs2 & Hh2 & Hc2 & _).
  assert (channels p1 !! cid = Some c) as Hp1 by apply lookup_insert_eq.
  assert (chan_ok w2 c) as Hok by apply fresh_channel_ok.
  assert (∃ gm, heap w2 !! goneMessage = Some gm) as [gm Hgm].
  { destruct Hgone as [gm Hgm]. exists gm. by rewrite Hh2, Hh1. }
  pose proof (publish_run w2 c goneMessage false gm Hgm Hok) as Hpub.
  destruct (writeStats_run (published w2 c goneMessage false) (Accept del)
              (after_publish w2 c goneMessage gm)) as (s3 & w3 & Hs3 & _).
  assert (with_channels (delete cid (channels p1)) p1 = p) as Hback.
  { unfold p1. cbn [channels with_channels pconfig].
    rewrite delete_insert_eq, delete_id by done. by destruct p. }
  exists p1, s1, w1, s2, w2, s3, w3.
  split; [|split; [by eexists|split; [|split; [|split; [|split]]]]].
  - rewrite (handlePublisher_PUT _ _ _ _ Hcid Hmp).
    erewrite bind_Some by (by apply Channel_created). cbv beta iota.
    by erewrite bind_Some by exact Hs1.
  - intros k Hk. unfold p1. cbn [channels with_channels]. by rewrite lookup_insert_ne.
  - rewrite handlePublisher_GET by (by rewrite ?Hget). rewrite Hget. fold cid.
    rewrite Hp1. by erewrite bind_Some by exact Hs2.
  - rewrite handlePublisher_DELETE_run by (by rewrite ?Hdel). rewrite Hdel. fold cid.
    rewrite Hp1. unfold Publish. erewrite bind_Some by exact Hpub. cbv beta iota.
    erewrite bind_Some by exact Hs3. by rewrite Hback.
  - rewrite handlePublisher_GET by (by rewrite ?Hget). rewrite Hget. fold cid.
    by rewrite Hnone.
  - rewrite handlePublisher_DELETE_run by (by rewrite ?Hdel). rewrite Hdel. fold cid.
    by rewrite Hnone.
Qed.

Lemma PUT_GET_DELETE_life_cycle_witness :
  ∃ p1 s1 w1 s2 w2 s3 w3,
    handlePublisher (StaticAcceptor "test") (new_pusher longConf) (request "PUT") test_world
    = Some ((p1, (200, Some s1)), w1)
    ∧ is_Some (channels p1 !! "test")
    ∧ (∀ k, k ≠ "test" → channels p1 !! k = channels (new_pusher longConf) !! k)
    ∧ handlePublisher (StaticAcceptor "test") p1 (request "GET") w1
      = Some ((p1, (200, Some s2)), w2)
    ∧ handlePublisher (StaticAcceptor "test") p1 (request "DELETE") w2
      = Some (((new_pusher longConf), (200, Some s3)), w3)
    ∧ handlePublisher (StaticAcceptor "test") (new_pusher longConf) (request "GET") w3
      = Some (((new_pusher longConf), (404, None)), w3)
    ∧ handlePublisher (StaticAcceptor "test") (new_pusher longConf) (request "DELETE") w3
      = Some (((new_pusher longConf), (404, None)), w3).
Proof.
  apply (PUT_GET_DELETE_life_cycle (StaticAcceptor "test") (new_pusher longConf)
           (request "PUT") (request "GET") (request "DELETE") test_world);
    try done.
  by eexists.
Defined.

(** X17.  A POST to an existing, well-formed channel with fewer than 2^31
    subscribers.  It answers 201 when at least one parked subscriber was
    waiting and 202 otherwise, with statistics.  The message is a new object
    that holds the body, status 200 and the content type of the request, or
    the one of the configuration when that is not empty.  Every parked
    wait-slot is closed, and holds the message exactly when its handler was
    waiting; afterwards the channel has no subscribers, the message is its
    last message and, with a positive capacity, the newest of its queue; no
    other channel changes. *)
Theorem POST_delivers_or_queues acceptor p req w payload c :
  acceptor req ≠ "" → Method req = "POST" → Body req = Some payload →
  channels p !! acceptor req = Some c → chan_ok w c →
  Z.of_nat (length (subscribers c)) ≤ max_int →
  let m := fresh (dom (heap w)) in
  ∃ p' c' stats w' msg,
    handlePublisher acceptor p req w
    = Some ((p', (if woken (chans w) (subscribers c) >? 0 then 201 else 202, Some stats)), w')
    ∧ heap w !! m = None
    ∧ heap w' !! m = Some msg
    ∧ Payload msg = payload ∧ Status msg = 200
    ∧ ContentType msg = (if bool_decide (cfgContentType (pconfig p) = "")
                         then Header_ContentType req else cfgContentType (pconfig p))
    ∧ (∀ s sl, s ∈ subscribers c → chans w !! s = Some sl →
               chans w' !! s = Some (kick m sl))
    ∧ channels p' !! acceptor req = Some c'
    ∧ subscribers c' = [] ∧ lastMessage c' = Some m
    ∧ (0 < ChannelCapacity (config c) → head (queue c') = Some m)
    ∧ (∀ k, k ≠ acceptor req → channels p' !! k = channels p !! k).
Proof.
  intros Hcid Hm Hbody Hc Hok Hlen m.
  destruct (handlePublisher_POST_run acceptor p req w payload p c false w Hcid Hm Hbody
              (Channel_found _ _ _ _ Hc) Hok)
    as (stats & w' & Hrun & Hh & Hch & _).
  rewrite int_small in Hrun
    by (pose proof (woken_bounds (chans w) (subscribers c)); lia).
  eexists _, _, stats, w', _. split; [exact Hrun|].
  split; [apply not_elem_of_dom, is_fresh|].
  split; [rewrite Hh; apply lookup_insert_eq|].
  do 3 (split; [done|]). split; [|split; [apply lookup_insert_eq|]].
  - intros s sl Hs Hsl. rewrite Hch. simpl.
    rewrite kick_all_in; [by rewrite Hsl|by destruct Hok|done].
  - do 2 (split; [done|]). split.
    + intros Hcap. simpl. unfold enqueue.
      assert ((ChannelCapacity (config c) >? 0) = true) as -> by (by apply Z.gtb_lt).
      done.
    + intros k Hk. cbn [channels with_channels]. by rewrite lookup_insert_ne.
Qed.

Lemma POST_delivers_or_queues_witness :
  ∃ p' c' stats w' msg,
    handlePublisher (StaticAcceptor "test") parked_pusher (request "POST") test_world
    = Some ((p', (201, Some stats)), w')
    ∧ heap test_world !! 7%positive = None
    ∧ heap w' !! 7%positive = Some msg
    ∧ Payload msg = Some [] ∧ Status msg = 200
    ∧ ContentType msg = "text/plain"
    ∧ (∀ s sl, s ∈ [1; 2]%positive → chans test_world !! s = Some sl →
               chans w' !! s = Some (kick 7%positive sl))
    ∧ channels p' !! "test" = Some c'
    ∧ subscribers c' = [] ∧ lastMessage c' = Some 7%positive
    ∧ (0 < 3 → head (queue c') = Some 7%positive)
    ∧ (∀ k, k ≠ "test" → channels p' !! k = channels parked_pusher !! k).
Proof.
  apply (POST_delivers_or_queues (StaticAcceptor "test") parked_pusher (request "POST")
           test_world (Some []) (parked_channel lifoConf));
    [done|done|done|done|apply parked_channel_ok|unfold max_int; simpl; lia].
Defined.

(** X18.  [handlePublisher] never panics on a well-formed pusher and keeps
    it well formed, whatever the request: it completes with status 200, 201,
    202, 404, 405 or 500, writes the statistics exactly for the 200-level
    statuses, keeps every message object allocated and leaves the
    configuration alone. *)
Theorem handlePublisher_keeps_the_pusher_well_formed acceptor p req w :
  pusher_ok w p → allocated w goneMessage →
  ∃ p' status body w',
    handlePublisher acceptor p req w = Some ((p', (status, body)), w')
    ∧ pusher_ok w' p'
    ∧ (∀ x, allocated w x → allocated w' x)
    ∧ pconfig p' = pconfig p
    ∧ (status = 200 ∨ status = 201 ∨ status = 202 ∨ status = 404 ∨ status = 405
       ∨ status = 500)
    ∧ (is_Some body ↔ 200 ≤ status < 300).
Proof.
  intros Hok Hgone.
  destruct (handlePublisher_refused acceptor p req w) as (H404 & H405 & H500).
  assert (∀ status : Z, ¬ 200 ≤ status < 300 →
            is_Some (None : option (list Z)) ↔ 200 ≤ status < 300) as Hnobody.
  { intros status Hs. split; [by intros [? ?]|done]. }
  assert (∀ (stats : list Z) (status : Z), 200 ≤ status < 300 →
            is_Some (Some stats) ↔ 200 ≤ status < 300) as Hbody.
  { intros stats status Hs. split; [done|by eexists]. }
  destruct (decide (acceptor req = "")) as [Hcid|Hcid].
  { exists p, 404, None, w. split; [by apply H404|]. do 3 (split; [done|]).
    split; [auto 10|]. apply Hnobody. lia. }
  destruct (decide (Method req = "GET")) as [Hget|Hget].
  { rewrite (handlePublisher_GET _ _ _ _ Hcid Hget).
    destruct (channels p !! acceptor req) as [c|] eqn:Hc.
    - destruct (writeStats_run c (Accept req) w) as (stats & w1 & Hst & Hh & Hch & _).
      exists p, 200, (Some stats), w1.
      split; [by erewrite bind_Some by exact Hst|].
      split; [by apply (pusher_ok_same_store w)|].
      split; [intros x; by apply allocated_same_heap|]. split; [done|].
      split; [auto 10|]. apply Hbody. lia.
    - exists p, 404, None, w. do 4 (split; [done|]). split; [auto 10|].
      apply Hnobody. lia. }
  destruct (decide (Method req = "PUT")) as [Hput|Hput].
  { rewrite (handlePublisher_PUT _ _ _ _ Hcid Hput).
    destruct (Channel_ok w p (acceptor req) Hok)
      as (p1 & c & created & w0 & Hch & _ & Hok1 & Hh0 & Hc0 & Hcfg & _).
    destruct (writeStats_run c (Accept req) w0) as (stats & w1 & Hst & Hh & Hch1 & _).
    exists p1, 200, (Some stats), w1. split.
    { erewrite bind_Some by exact Hch. cbv beta iota.
      by erewrite bind_Some by exact Hst. }
    split; [by apply (pusher_ok_same_store w0)|].
    split; [intros x Hx; apply (allocated_same_heap w); [congruence|done]|].
    split; [done|]. split; [auto 10|]. apply Hbody. lia. }
  destruct (decide (Method req = "POST")) as [Hpost|Hpost].
  { destruct (Body req) as [payload|] eqn:Hb.
    - destruct (Channel_ok w p (acceptor req) Hok)
        as (p1 & c & created & w0 & Hch & Hc1 & Hok1 & Hh0 & Hc0 & Hcfg & _).
      pose proof (channels_ok _ _ Hok1 _ _ Hc1) as Hcok.
      destruct (handlePublisher_POST_run acceptor p req w payload _ _ _ _ Hcid Hpost Hb
                  Hch Hcok) as (stats & w' & Hrun & Hh & Hchs & _).
      set (m := fresh (dom (heap w0))) in *.
      set (msg := {| ContentType := _ |}) in *.
      set (wm := {| heap := <[m := msg]> (heap w0) |}) in *.
      eexists _, _, (Some stats), w'. split; [exact Hrun|].
      assert (heap wm !! m = Some msg) as Hmsg by apply lookup_insert_eq.
      assert (pusher_ok wm p1) as Hokm by (by apply pusher_ok_new_Message).
      split.
      { apply pusher_ok_update with (w := wm).
        - done.
        - apply (chan_ok_same_store (after_publish wm c m msg)); [done|done|].
          apply publish_ok; [done|]. by apply (channels_ok _ _ Hokm (acceptor req)).
        - simpl. by apply (channels_id _ _ Hok1).
        - intros k c2 Hne H2.
          apply (chan_ok_same_store (after_publish wm c m msg)); [done|done|].
          by apply (others_after_publish wm p1 (acceptor req) c m msg Hokm Hc1 k c2).
        - intros k c2 s _ _ Hs. by apply elem_of_nil in Hs. }
      split.
      { intros x Hx. apply (allocated_same_heap (after_publish wm c m msg)); [done|].
        apply allocated_after_publish. destruct Hx as [mx Hx]. unfold allocated, wm.
        simpl. rewrite Hh0. rewrite lookup_insert_ne; [by eexists|]. intros <-.
        pose proof (is_fresh (dom (heap w0))) as Hf. apply not_elem_of_dom in Hf.
        fold m in Hf. rewrite Hh0 in Hf. congruence. }
      split; [done|].
      destruct (_ >? 0); (split; [auto 10|]); apply Hbody; lia.
    - exists p, 500, None, w. split; [by apply H500|]. do 3 (split; [done|]).
      split; [auto 10|]. apply Hnobody. lia. }
  destruct (decide (Method req = "DELETE")) as [Hdel|Hdel].
  { rewrite (handlePublisher_DELETE_run _ _ _ _ Hcid Hdel).
    destruct (channels p !! acceptor req) as [c|] eqn:Hc.
    - destruct Hgone as [gm Hgm].
      pose proof (channels_ok _ _ Hok _ _ Hc) as Hcok.
      pose proof (publish_run w c goneMessage false gm Hgm Hcok) as Hpub.
      destruct (writeStats_run (published w c goneMessage false) (Accept req)
                  (after_publish w c goneMessage gm)) as (stats & w' & Hst & Hh & Hchs & _).
      eexists _, 200, (Some stats), w'. split.
      { unfold Publish. erewrite bind_Some by exact Hpub. cbv beta iota.
        by erewrite bind_Some by exact Hst. }
      split.
      { apply pusher_ok_delete with (w := w); [done|].
        intros k c2 Hne H2.
        apply (chan_ok_same_store (after_publish w c goneMessage gm)); [done|done|].
        by apply (others_after_publish w p (acceptor req) c goneMessage gm Hok Hc k c2). }
      split.
      { intros x Hx. apply (allocated_same_heap (after_publish w c goneMessage gm)); [done|].
        by apply allocated_after_publish. }
      split; [done|]. split; [auto 10|]. apply Hbody. lia.
    - exists p, 404, None, w. do 4 (split; [done|]). split; [auto 10|].
      apply Hnobody. lia. }
  exists p, 405, None, w. split; [by apply H405|]. do 3 (split; [done|]).
  split; [auto 10|]. apply Hnobody. lia.
Qed.

Lemma handlePublisher_keeps_the_pusher_well_formed_witness :
  ∃ p' status body w',
    handlePublisher (StaticAcceptor "stale") two_pusher (request "DELETE") test_world
    = Some ((p', (status, body)), w')
    ∧ pusher_ok w' p'
    ∧ (∀ x, allocated test_world x → allocated w' x)
    ∧ pconfig p' = pconfig two_pusher
    ∧ (status = 200 ∨ status = 201 ∨ status = 202 ∨ status = 404 ∨ status = 405
       ∨ status = 500)
    ∧ (is_Some body ↔ 200 ≤ status < 300).
Proof.
  apply (handlePublisher_keeps_the_pusher_well_formed (StaticAcceptor "stale") two_pusher
           (request "DELETE") test_world).
  - apply pair_pusher_ok; try done; apply aged_channel_ok.
  - by eexists.
Defined.

(** X19.  A refused subscription leaves no trace.  When [handleSubscriber]
    answers with a bare status code other than 304, the pusher and the store
    are exactly as before (no channel was created, no clock was read), and
    the code is 405 for a method other than GET (whatever the channel id), 404
    for a GET with an empty channel id, or 403 for a GET of a channel that
    does not exist while [AllowChannelCreation] is off. *)
Theorem refused_subscription_leaves_no_trace acceptor p req w p' code w' :
  handleSubscriber acceptor p req w = Some ((p', Replied (StatusOnly code)), w') →
  code ≠ 304 →
  p' = p ∧ w' = w
  ∧ ((code = 405 ∧ Method req ≠ "GET")
     ∨ (code = 404 ∧ Method req = "GET" ∧ acceptor req = "")
     ∨ (code = 403 ∧ Method req = "GET" ∧ acceptor req ≠ ""
        ∧ channels p !! acceptor req = None
        ∧ AllowChannelCreation (pconfig p) = false)).
Proof.
  intros H Hcode.
  assert (∀ p0 w0 c, channels p0 !! acceptor req = Some c → Method req = "GET" →
            acceptor req ≠ "" →
            handleSubscriber acceptor p0 req w0 = Some ((p', Replied (StatusOnly code)), w') →
            False) as Hnever.
  { intros p0 w0 c Hc Hm Hcid H0.
    destruct (handleSubscriber_found_inv _ _ _ _ _ _ _ _ Hm Hcid Hc H0)
      as (c1 & sub & message & w1 & _ & _ & Hout).
    destruct sub as [elem|]; [by destruct Hout|].
    destruct Hout as (r & [= <-] & Hr). apply respond_inv in Hr as [_ Hr].
    destruct message as [m|]; [by destruct Hr as (msg & _ & ?)|].
    by injection Hr as ->. }
  destruct (decide (Method req = "GET")) as [Hm|Hm].
  - destruct (decide (acceptor req = "")) as [Hcid|Hcid].
    + unfold handleSubscriber in H. rewrite Hm, (bool_decide_eq_true_2 _ Hcid) in H.
      simpl in H. injection H as <- <- <-. do 2 (split; [done|]). right. left. done.
    + destruct (channels p !! acceptor req) as [c|] eqn:Hc.
      * exfalso. by eapply Hnever.
      * rewrite (handleSubscriber_missing _ _ _ _ Hm Hcid Hc) in H.
        destruct (AllowChannelCreation (pconfig p)) eqn:Hallow.
        -- exfalso. eapply Hnever; [|done|done|exact H]. apply lookup_insert_eq.
        -- injection H as <- <- <-. do 2 (split; [done|]). right. right. done.
  - unfold handleSubscriber in H. rewrite (bool_decide_eq_false_2 _ Hm) in H.
    simpl in H. injection H as <- <- <-. do 2 (split; [done|]). left. done.
Qed.

Lemma refused_subscription_leaves_no_trace_witness :
  (new_pusher longConf) = (new_pusher longConf) ∧ test_world = test_world
  ∧ ((403 = 405 ∧ "GET" ≠ "GET")
     ∨ (403 = 404 ∧ "GET" = "GET" ∧ "test" = "")
     ∨ (403 = 403 ∧ "GET" = "GET" ∧ "test" ≠ ""
        ∧ channels (new_pusher longConf) !! "test" = None
        ∧ AllowChannelCreation longConf = false)).
Proof.
  apply (refused_subscription_leaves_no_trace (StaticAcceptor "test") (new_pusher longConf)
           (request "GET") test_world (new_pusher longConf) 403 test_world eq_refl).
  discriminate.
Defined.

(** X20.  A posted message is served to the next poll.  Under a channel id
    that names no channel yet, with a positive capacity and a clock past
    second 0: the POST creates the channel and answers 202 with statistics;
    a subscriber's GET without If-Modified-Since and If-None-Match is then
    answered at once, in every concurrency mode and with either polling
    mechanism, with the body that was posted, status 200, Etag 0, the second
    of the publish as Last-Modified, and the content type of the POST (or the
    one of the configuration) unless it is empty. *)
Theorem posted_message_is_served_to_the_next_poll acceptor p post get w payload :
  acceptor post ≠ "" → acceptor get = acceptor post →
  Method post = "POST" → Body post = Some payload → Method get = "GET" →
  IfModifiedSince get = 0 → IfNoneMatch get = 0 →
  channels p !! acceptor post = None →
  0 < ChannelCapacity (pconfig p) → 0 < seconds w 1 →
  allocated w conflictMessage →
  let ctype := if bool_decide (cfgContentType (pconfig p) = "")
               then Header_ContentType post else cfgContentType (pconfig p) in
  ∃ p1 stats w1 p2 w2,
    handlePublisher acceptor p post w = Some ((p1, (202, Some stats)), w1)
    ∧ handleSubscriber acceptor p1 get w1
      = Some ((p2, Replied (Delivery 0 (seconds w 1)
                              (if bool_decide (ctype = "") then None else Some ctype)
                              200 payload)), w2).
Proof.
  intros Hcid Hget Hmp Hbody Hmg Hsince Hetag Hnone Hcap Hsec Hcm ctype.
  set (cid := acceptor post) in *.
  set (c0 := fresh_channel cid (pconfig p) (seconds w 0)).
  set (w0 := with_ticks (S (ticks w)) w).
  destruct (handlePublisher_POST_run acceptor p post w payload _ _ _ _ Hcid Hmp Hbody
              (Channel_created _ _ _ Hnone) (fresh_channel_ok w0 cid (pconfig p) _))
    as (stats & w1 & Hrun & Hh & Hch & _).
  fold cid c0 w0 ctype in Hrun, Hh, Hch.
  set (m := fresh (dom (heap w0))) in *.
  set (msg := {| ContentType := ctype; Payload := payload; Status := StatusOK;
                 etag := 0; time := 0 |}) in *.
  set (wm := {| heap := <[m := msg]> (heap w0); chans := chans w0; clock := clock w0;
                ticks := ticks w0 |}) in *.
  set (c1 := published wm c0 m true) in *.
  assert (heap wm !! m = Some msg) as Hmsg by apply lookup_insert_eq.
  assert (chan_ok wm c0) as Hok0 by apply fresh_channel_ok.
  assert (chan_ok w1 c1) as Hok1.
  { eapply chan_ok_same_store; [exact Hh|exact Hch|]. by apply publish_ok. }
  assert (heap w1 !! m = Some (stamped wm c0 m msg)) as Hm1.
  { rewrite Hh. apply lookup_insert_eq. }
  assert (m ≠ conflictMessage) as Hne.
  { intros Heq. destruct Hcm as [cm Hcm].
    pose proof (is_fresh (dom (heap w0))) as Hf. apply not_elem_of_dom in Hf.
    change (heap w !! m = None) in Hf. rewrite Heq in Hf. congruence. }
  assert (allocated w1 conflictMessage) as Hcm1.
  { unfold allocated. rewrite Hh. simpl. rewrite !lookup_insert_ne by done. exact Hcm. }
  assert (queue c1 = [m]) as Hq1.
  { unfold c1. cbn [queue published]. unfold enqueue. cbn [config queue c0 fresh_channel length].
    assert ((ChannelCapacity (pconfig p) >? 0) = true) as -> by (by apply Z.gtb_lt).
    assert ((Z.of_nat 0 >=? ChannelCapacity (pconfig p)) = false) as ->.
    { rewrite Z.geb_leb. apply Z.leb_gt. lia. }
    done. }
  destruct (lookup_state_cases w1 c1 0 0 Hok1 Hcm1)
    as [(c2 & w2 & Hst & Hok2 & _ & _ & _ & Hq2 & Hheap2 & _)|[Hsubs _]]; [|done].
  assert (heap w2 !! m = Some (stamped wm c0 m msg)) as Hm2 by (by rewrite Hheap2).
  eexists _, stats, w1, _, _. split; [exact Hrun|].
  rewrite (handleSubscriber_found _ _ _ _ c1 Hmg)
    by (rewrite Hget; first [done|apply lookup_insert_eq]).
  rewrite Hsince, Hetag.
  erewrite bind_Some.
  2:{ rewrite (Subscribe_via_lookup _ _ 0 0 _ _ Hst).
      apply Subscribe_lookup_hit; [by destruct Hok2|].
      rewrite Hq2, Hq1. change (reverse [m]) with [m]. simpl.
      unfold newer_than, stamp_of. rewrite Hm2. simpl.
      change (next_etag wm c0 m) with 0.
      assert (stamp_ltb (0, 0) (seconds wm 0, 0) = true) as ->; [|reflexivity].
      apply stamp_ltb_spec. left. simpl.
      replace (seconds wm 0) with (seconds w 1); [done|].
      unfold seconds, wm, w0. simpl. do 2 f_equal. lia. }
  cbv beta iota. erewrite bind_Some by (by apply respond_run).
  unfold mret, M_ret.
  change (etag (stamped wm c0 m msg)) with 0.
  change (ContentType (stamped wm c0 m msg)) with ctype.
  change (Status (stamped wm c0 m msg)) with 200.
  change (Payload (stamped wm c0 m msg)) with payload.
  replace (time (stamped wm c0 m msg)) with (seconds w 1); [reflexivity|].
  unfold stamped, seconds, wm, w0. simpl. do 2 f_equal. lia.
Qed.

Lemma posted_message_is_served_to_the_next_poll_witness :
  ∃ p1 stats w1 p2 w2,
    handlePublisher (StaticAcceptor "test") (new_pusher intervalConf) (request "POST") test_world
    = Some ((p1, (202, Some stats)), w1)
    ∧ handleSubscriber (StaticAcceptor "test") p1 (request "GET") w1
      = Some ((p2, Replied (Delivery 0 7 (Some "text/plain") 200 (Some []))), w2).
Proof.
  apply (posted_message_is_served_to_the_next_poll (StaticAcceptor "test")
           (new_pusher intervalConf) (request "POST") (request "GET") test_world (Some []));
    [done|done|done|done|done|done|done|done|done|done|by eexists].
Defined.

(** X21.  Long polling from end to end.  When a subscriber's GET on an
    existing, well-formed channel parks and its handler has started to wait,
    a POST to that channel answers 201, the wait of the subscriber's handler
    ends with the posted message, and its reply carries the posted body with
    status 200 and the content type of the POST (or the one of the
    configuration) unless it is empty. *)
Theorem long_poll_end_to_end acceptor p get post w c p1 sub w1 payload :
  acceptor get ≠ "" → acceptor post = acceptor get →
  Method get = "GET" → Method post = "POST" → Body post = Some payload →
  channels p !! acceptor get = Some c → chan_ok w c →
  Z.of_nat (length (subscribers c)) < max_int →
  handleSubscriber acceptor p get w = Some ((p1, Parked sub), w1) →
  let ctype := if bool_decide (cfgContentType (pconfig p) = "")
               then Header_ContentType post else cfgContentType (pconfig p) in
  ∃ w2 p3 stats w3 m e t,
    await sub w1 = Some ((), w2)
    ∧ handlePublisher acceptor p1 post w2 = Some ((p3, (201, Some stats)), w3)
    ∧ handleSubscriber_wait p3 (acceptor get) sub w3 p3 (Some m) w3
    ∧ respond (Some m) w3
      = Some (Delivery e t (if bool_decide (ctype = "") then None else Some ctype)
                200 payload, w3).
Proof.
  intros Hcid Hpost Hmg Hmp Hbody Hc Hok Hlen Hsub ctype.
  destruct (handleSubscriber_found_inv _ _ _ _ _ _ _ _ Hmg Hcid Hc Hsub)
    as (c1 & sub' & message & w1' & Hs & -> & Hout).
  destruct sub' as [elem|]; [|by destruct Hout as (r & ? & _)].
  destruct Hout as [[= <-] <-].
  destruct (parked_awaits _ _ _ _ _ _ _ _ Hok Hs)
    as (w2 & Haw & Hok2 & Hin & Hslot & _ & _ & _ & _ & Hlen1).
  set (p1 := with_channels (<[acceptor get := c1]> (channels p)) p) in *.
  assert (channels p1 !! acceptor post = Some c1) as Hc1.
  { rewrite Hpost. apply lookup_insert_eq. }
  assert (acceptor post ≠ "") as Hcid' by (by rewrite Hpost).
  destruct (handlePublisher_POST_run acceptor p1 post w2 payload _ _ _ _ Hcid' Hmp Hbody
              (Channel_found _ _ _ _ Hc1) Hok2)
    as (stats & w3 & Hrun & Hh & Hch & _).
  set (m := fresh (dom (heap w2))) in *.
  assert ((int (woken (chans w2) (subscribers c1)) >? 0) = true) as Hwoken.
  { pose proof (woken_bounds (chans w2) (subscribers c1)) as Hb.
    rewrite int_small by lia. apply Z.gtb_lt.
    assert (1 ≤ woken (chans w2) (subscribers c1)); [|lia].
    apply (woken_waiting _ _ sub Hin). unfold is_waiting. by rewrite Hslot. }
  rewrite Hwoken in Hrun.
  exists w2. eexists _, stats, w3, m, _, _. split; [done|]. split; [exact Hrun|].
  assert (chans w3 !! sub
          = Some {| waiting := false; received := Some m; closed := true |}) as Hsl.
  { rewrite Hch. simpl. rewrite kick_all_in; [|by destruct Hok2|done]. by rewrite Hslot. }
  split.
  - by apply (wait_received _ _ _ _ {| waiting := false; received := Some m; closed := true |}).
  - erewrite respond_run by (rewrite Hh; apply lookup_insert_eq). done.
Qed.

Lemma long_poll_end_to_end_witness :
  ∃ w2 p3 stats w3 m e t,
    await 3%positive
      {| heap := heap test_world;
         chans := <[3%positive := open_slot]> (chans test_world);
         clock := clock test_world; ticks := 1 |} = Some ((), w2)
    ∧ handlePublisher (StaticAcceptor "test")
        (with_channels
           {[ "test" := with_stats (set_Subscribers 3 (set_LastRequested 7
                                      (set_Subscribers 2 empty_stats)))
                          (with_subscribers [1; 2; 3]%positive
                             (parked_channel timeoutConf)) ]}
           polled_pusher)
        (request "POST") w2
      = Some ((p3, (201, Some stats)), w3)
    ∧ handleSubscriber_wait p3 "test" 3%positive w3 p3 (Some m) w3
    ∧ respond (Some m) w3 = Some (Delivery e t (Some "text/plain") 200 (Some []), w3).
Proof.
  apply (long_poll_end_to_end (StaticAcceptor "test") polled_pusher (request "GET")
           (request "POST") test_world (parked_channel timeoutConf) _ 3%positive _ (Some []));
    [done|done|done|done|done|done|apply parked_channel_ok|unfold max_int; simpl; lia|].
  reflexivity.
Defined.

(** X22.  A subscriber that times out leaves no trace.  Outside LIFO mode
    and with a polling timeout configured, when a subscriber's GET on an
    existing, well-formed channel parked and its handler waits, the timeout
    may fire: the handler unsubscribes and answers 304; the channel is then
    in the map as it was before the request, except for
    [stats.LastRequested]; the wait-slot, which was new, is closed and empty;
    every other wait-slot and the heap are as before. *)
Theorem subscriber_timeout_leaves_no_trace acceptor p get w c p1 sub w1 :
  acceptor get ≠ "" → Method get = "GET" →
  channels p !! acceptor get = Some c → chan_ok w c →
  Subscribers (stats c) = list_Len (subscribers c) →
  ConcurrencyMode (config c) ≠ ConcurrencyModeLIFO →
  0 < PollingTimeout (pconfig p) →
  handleSubscriber acceptor p get w = Some ((p1, Parked sub), w1) →
  ∃ w2 p3 w3 sl,
    await sub w1 = Some ((), w2)
    ∧ handleSubscriber_wait p1 (acceptor get) sub w2 p3 None w3
    ∧ respond None w3 = Some (StatusOnly 304, w3)
    ∧ channels p3
      = <[acceptor get := with_stats (set_LastRequested (seconds w 0) (stats c)) c]>
          (channels p)
    ∧ chans w3 !! sub = Some sl ∧ closed sl = true ∧ received sl = None
    ∧ chans w !! sub = None
    ∧ (∀ s, s ≠ sub → chans w3 !! s = chans w !! s)
    ∧ heap w3 = heap w.
Proof.
  intros Hcid Hmg Hc Hok Hcount Hmode Htimeout Hsub.
  destruct (handleSubscriber_found_inv _ _ _ _ _ _ _ _ Hmg Hcid Hc Hsub)
    as (c1 & sub' & message & w1' & Hs & -> & Hout).
  destruct sub' as [elem|]; [|by destruct Hout as (r & ? & _)].
  destruct Hout as [[= <-] <-].
  destruct (Subscribe_parks _ _ _ _ _ _ _ _ Hok Hs)
    as (c0 & w0 & Hst & Hok0 & _ & _ & -> & Hch & -> & -> & Hout).
  unfold lookup_state in Hst. apply Z.eqb_neq in Hmode. rewrite Hmode in Hst.
  destruct (_ && _); [done|]. injection Hst as <- <-.
  cbn [subscribers stats with_stats chans heap with_ticks clock ticks] in *.
  set (c1 := with_stats _ (with_subscribers _ _)) in *.
  set (w1 := {| heap := heap w;
                chans := <[sub := {| waiting := false; received := None; closed := false |}]>
                           (chans w);
                clock := clock w; ticks := S (ticks w) |}) in *.
  set (w2 := {| heap := heap w;
                chans := <[sub := {| waiting := true; received := None; closed := false |}]>
                           (chans w);
                clock := clock w; ticks := S (ticks w) |}).
  set (w3 := {| heap := heap w;
                chans := <[sub := {| waiting := true; received := None; closed := true |}]>
                           (chans w);
                clock := clock w; ticks := S (ticks w) |}).
  assert (await sub w1 = Some ((), w2)) as Haw.
  { unfold await, w1. world_simpl. rewrite lookup_insert_eq. simpl.
    unfold w2. by rewrite insert_insert_eq. }
  assert (Unsubscribe c1 sub w2
          = Some (with_stats (set_LastRequested (seconds w 0) (stats c)) c, w3)) as Hun.
  { unfold Unsubscribe.
    erewrite bind_Some by (eapply close_open; [apply lookup_insert_eq|done]).
    unfold c1. cbn [subscribers stats with_stats with_subscribers].
    rewrite (list_Remove_snoc _ _ Hout).
    unfold mret, M_ret, with_chans, w2, w3. world_simpl. rewrite insert_insert_eq.
    do 2 f_equal. destruct c as [subs cfg lm [] id qu]. simpl in *.
    unfold with_stats, set_Subscribers, set_LastRequested. simpl. by rewrite Hcount. }
  exists w2. eexists _, w3, _. split; [done|]. split.
  { eapply wait_timeout; [done|apply lookup_insert_eq|exact Hun]. }
  split; [done|]. split.
  { cbn [channels with_channels]. by rewrite insert_insert_eq. }
  split; [apply lookup_insert_eq|]. do 2 (split; [done|]).
  split; [rewrite Hch; apply fresh_slot_unused|].
  split; [|done]. intros s Hs'. unfold w3. world_simpl. by rewrite lookup_insert_ne.
Qed.

Lemma subscriber_timeout_leaves_no_trace_witness :
  ∃ w2 p3 w3 sl,
    await 3%positive
      {| heap := heap test_world;
         chans := <[3%positive := open_slot]> (chans test_world);
         clock := clock test_world; ticks := 1 |} = Some ((), w2)
    ∧ handleSubscriber_wait
        (with_channels
           {[ "test" := with_stats (set_Subscribers 3 (set_LastRequested 7
                                      (set_Subscribers 2 empty_stats)))
                          (with_subscribers [1; 2; 3]%positive
                             (parked_channel timeoutConf)) ]}
           polled_pusher)
        "test" 3%positive w2 p3 None w3
    ∧ respond None w3 = Some (StatusOnly 304, w3)
    ∧ channels p3
      = <["test" := with_stats (set_LastRequested 7 (set_Subscribers 2 empty_stats))
                      (parked_channel timeoutConf)]> (channels polled_pusher)
    ∧ chans w3 !! 3%positive = Some sl ∧ closed sl = true ∧ received sl = None
    ∧ chans test_world !! 3%positive = None
    ∧ (∀ s, s ≠ 3%positive → chans w3 !! s = chans test_world !! s)
    ∧ heap w3 = heap test_world.
Proof.
  apply (subscriber_timeout_leaves_no_trace (StaticAcceptor "test") polled_pusher
           (request "GET") test_world (parked_channel timeoutConf) _ 3%positive _);
    [done|done|done|apply parked_channel_ok|done|done|done|].
  reflexivity.
Defined.

(** X23.  [handleSubscriber] never panics on a well-formed pusher and keeps
    it well formed, whatever the request: up to the answer or to the point
    where the handler starts to wait, it completes, keeps every message
    object allocated and leaves the configuration alone; when it parks, the
    wait-slot is a new one, open, and parked on the channel filed under the
    requested id. *)
Theorem handleSubscriber_keeps_the_pusher_well_formed acceptor p req w :
  pusher_ok w p → allocated w conflictMessage →
  ∃ p' out w',
    handleSubscriber acceptor p req w = Some ((p', out), w')
    ∧ pusher_ok w' p'
    ∧ (∀ x, allocated w x → allocated w' x)
    ∧ pconfig p' = pconfig p
    ∧ match out with
      | Parked sub =>
          chans w !! sub = None ∧ slot_open w' sub
          ∧ ∃ c', channels p' !! acceptor req = Some c' ∧ sub ∈ subscribers c'
      | Replied _ => True
      end.
Proof.
  intros Hok Hcm.
  assert (∀ p0 w0 c,
            pusher_ok w0 p0 → allocated w0 conflictMessage →
            Method req = "GET" → acceptor req ≠ "" →
            channels p0 !! acceptor req = Some c →
            ∃ p' out w',
              handleSubscriber acceptor p0 req w0 = Some ((p', out), w')
              ∧ pusher_ok w' p'
              ∧ (∀ x, allocated w0 x → allocated w' x)
              ∧ pconfig p' = pconfig p0
              ∧ match out with
                | Parked sub =>
                    chans w0 !! sub = None ∧ slot_open w' sub
                    ∧ ∃ c', channels p' !! acceptor req = Some c' ∧ sub ∈ subscribers c'
                | Replied _ => True
                end) as Hfound.
  { intros p0 w0 c Hok0 Hcm0 Hm Hcid Hc.
    pose proof (channels_ok _ _ Hok0 _ _ Hc) as Hcok.
    destruct (Subscribe_effect w0 c (IfModifiedSince req) (IfNoneMatch req) Hcok Hcm0)
      as (c' & sub & message & w' & Hrun & Hok' & Hid & Hal & Hslots & Hnew & Hmsg & Hsub).
    assert (pusher_ok w' (with_channels (<[acceptor req := c']> (channels p0)) p0)) as Hok1.
    { apply pusher_ok_update with (w := w0).
      - done.
      - done.
      - rewrite Hid. by apply (channels_id _ _ Hok0).
      - intros k c2 Hne H2. pose proof (channels_ok _ _ Hok0 _ _ H2) as [Hnd Hop Hq Hl].
        split; [done| | |].
        + rewrite Forall_forall in Hop |- *. intros s Hs.
          destruct (Hop s Hs) as (sl & Hsl & Hcl). exists sl. split; [|done].
          rewrite Hslots; [done| |by eexists].
          intros Hin. by apply (channels_apart _ _ Hok0 _ _ _ _ s Hc H2).
        + eapply Forall_impl; [exact Hq|]. exact Hal.
        + destruct (lastMessage c2); simpl in *; [by apply Hal|done].
      - intros k c2 s Hne H2 Hs Hs2. destruct (Hnew s Hs) as [Hin|Hout].
        + by apply (channels_apart _ _ Hok0 _ _ _ _ s Hc H2).
        + destruct (subscribers_in_dom w0 c2 s (channels_ok _ _ Hok0 _ _ H2) Hs2)
            as [sl Hsl]. congruence. }
    rewrite (handleSubscriber_found _ _ _ _ _ Hm Hcid Hc).
    erewrite bind_Some by exact Hrun. cbv beta iota.
    destruct sub as [elem|].
    - eexists _, _, _. split; [done|]. do 3 (split; [done|]).
      destruct Hsub as (Hfresh & Hopen & Hin). do 2 (split; [done|]).
      exists c'. split; [apply lookup_insert_eq|done].
    - destruct message as [m|].
      + destruct (Hmsg m eq_refl) as [msg Hm'].
        erewrite bind_Some by (by apply respond_run).
        eexists _, _, _. split; [done|]. done.
      + eexists _, _, _. split; [done|]. done. }
  destruct (decide (Method req = "GET")) as [Hm|Hm].
  - destruct (decide (acceptor req = "")) as [Hcid|Hcid].
    + exists p, (Replied (StatusOnly 404)), w. split; [|done].
      unfold handleSubscriber. by rewrite Hm, (bool_decide_eq_true_2 _ Hcid).
    + destruct (channels p !! acceptor req) as [c|] eqn:Hc.
      * by apply (Hfound p w c).
      * rewrite (handleSubscriber_missing _ _ _ _ Hm Hcid Hc).
        destruct (AllowChannelCreation (pconfig p)); [|by eexists _, _, _].
        destruct (Channel_ok w p (acceptor req) Hok)
          as (p1 & c1 & created & w0 & Hch & Hc1 & Hok1 & Hh0 & Hc0 & Hcfg & _).
        rewrite (Channel_created _ _ _ Hc) in Hch. injection Hch as <- <- _ <-.
        destruct (Hfound _ _ _ Hok1 (allocated_same_heap _ _ _ Hh0 Hcm) Hm Hcid Hc1)
          as (p' & out & w' & Hrun & Hok' & Hal & Hcfg' & Hout).
        exists p', out, w'. split; [exact Hrun|]. split; [done|].
        split; [intros x Hx; by apply Hal, (allocated_same_heap w)|].
        split; [done|]. destruct out as [r|sub]; [done|]. done.
  - exists p, (Replied (StatusOnly 405)), w. split; [|done].
    unfold handleSubscriber. by rewrite (bool_decide_eq_false_2 _ Hm).
Qed.

Lemma handleSubscriber_keeps_the_pusher_well_formed_witness :
  ∃ p' out w',
    handleSubscriber (StaticAcceptor "test") polled_pusher (request "GET") test_world
    = Some ((p', out), w')
    ∧ pusher_ok w' p'
    ∧ (∀ x, allocated test_world x → allocated w' x)
    ∧ pconfig p' = pconfig polled_pusher
    ∧ match out with
      | Parked sub =>
          chans test_world !! sub = None ∧ slot_open w' sub
          ∧ ∃ c', channels p' !! "test" = Some c' ∧ sub ∈ subscribers c'
      | Replied _ => True
      end.
Proof.
  apply (handleSubscriber_keeps_the_pusher_well_formed (StaticAcceptor "test") polled_pusher
           (request "GET") test_world).
  - split; simpl.
    + intros cid c [<- <-]%lookup_singleton_Some. apply parked_channel_ok.
    + by intros cid c [<- <-]%lookup_singleton_Some.
    + intros cid1 cid2 c1 c2 s [<- <-]%lookup_singleton_Some [<- <-]%lookup_singleton_Some.
      done.
  - by eexists.
Defined.
